(* ===================================================================== *)
(* ScoutApp: room permissions, room entry, voice-channel signaling and    *)
(* invite codes, embedded from the room page, the home page and the join  *)
(* page.                                                                  *)
(*                                                                        *)
(* Firestore documents are finite maps from field names to values; the    *)
(* store is a finite map from document paths to documents.  Handlers are  *)
(* state transformers over a world made of the shared store, the React    *)
(* state and refs of one client, and the media objects it created.        *)
(* ===================================================================== *)

From Stdlib Require Import ZArith QArith Qround String Ascii List Lia.
From stdpp Require Import gmap strings list fin_maps pretty.

Local Open Scope string_scope.
Local Open Scope nat_scope.

(* ===================================================================== *)
(** * JavaScript values as they are read from documents                    *)
(* ===================================================================== *)

Module Js.

(** A field value.  [FServerTimestamp] is the sentinel returned by
    [serverTimestamp()]; the store replaces it by [FTime] on commit.
    [FDesc] is a session description object [{ type, sdp }].  A field
    that is absent reads as [undefined], which is [None] of
    [option fval]. *)
Inductive fval : Type :=
| FNull
| FBool (b : bool)
| FStr (s : string)
| FTime (t : nat)
| FServerTimestamp
| FDesc (ty sdp : string).

#[global] Instance fval_eq_dec : EqDecision fval.
Proof. solve_decision. Defined.

(** [typeof v === "boolean"] *)
Definition typeof_boolean (v : option fval) : bool :=
  match v with
  | Some (FBool _) => true
  | _ => false
  end.

(** JavaScript truthiness: [undefined], [null], [false] and the empty
    string are falsy; objects are truthy. *)
Definition truthy (v : option fval) : bool :=
  match v with
  | None => false
  | Some FNull => false
  | Some (FBool b) => b
  | Some (FStr s) => negb (bool_decide (s = ""))
  | Some (FTime _) => true
  | Some FServerTimestamp => true
  | Some (FDesc _ _) => true
  end.

(** [v ?? d]: [d] when [v] is [undefined] or [null], [v] otherwise. *)
Definition coalesce (v : option fval) (d : fval) : fval :=
  match v with
  | None => d
  | Some FNull => d
  | Some x => x
  end.

(** [a === b] on values read from documents. *)
Definition strict_eq (a b : option fval) : bool := bool_decide (a = b).

End Js.
Export Js.

(* ===================================================================== *)
(** * The shared document store                                            *)
(* ===================================================================== *)

Module Firestore.

(** The store: documents by path, the server clock that resolves
    [serverTimestamp()], and the supply of automatic ids of [addDoc]. *)
Record Store : Type := mkStore {
  docs : gmap (list string) (gmap string fval);
  clock : nat;
  nextId : nat
}.

#[global] Instance Store_eq_dec : EqDecision Store.
Proof. solve_decision. Defined.

Definition resolveField (now : nat) (v : fval) : fval :=
  match v with
  | FServerTimestamp => FTime now
  | x => x
  end.

(** Server-side resolution of the timestamp sentinels of a payload. *)
Definition resolve (now : nat) (d : gmap string fval) : gmap string fval :=
  resolveField now <$> d.

(** [getDoc(ref)]: [None] is a snapshot whose [exists()] is false. *)
Definition getDoc (p : list string) (st : Store) : option (gmap string fval) :=
  docs st !! p.

(** [setDoc(ref, d, { merge: true })]: the fields of [d] replace the
    fields of the same name, the other fields are kept; the document
    is created when absent. *)
Definition setDocMerge (p : list string) (d : gmap string fval) (st : Store) : Store :=
  let old := default ∅ (docs st !! p) in
  mkStore (<[p := resolve (clock st) d ∪ old]> (docs st)) (S (clock st)) (nextId st).

(** [updateDoc(ref, d)]: as the merge, but rejects ([None]) when the
    document does not exist. *)
Definition updateDoc (p : list string) (d : gmap string fval) (st : Store) : option Store :=
  match docs st !! p with
  | None => None
  | Some old =>
      Some (mkStore (<[p := resolve (clock st) d ∪ old]> (docs st)) (S (clock st)) (nextId st))
  end.

Definition autoId (n : nat) : string := "auto" +:+ pretty n.

(** [addDoc(collection, d)]: a document under an automatic id, taken
    from the supply of the store.  The ids of Firestore are new; the id
    of the supply is new when no document is under it, which the
    theorems that speak of a new document state. *)
Definition addDoc (coll : list string) (d : gmap string fval) (st : Store) : string * Store :=
  let id := autoId (nextId st) in
  (id, mkStore (<[(coll ++ [id])%list := resolve (clock st) d]> (docs st)) (S (clock st)) (S (nextId st))).

(** [deleteDoc(ref)] *)
Definition deleteDoc (p : list string) (st : Store) : Store :=
  mkStore (delete p (docs st)) (S (clock st)) (nextId st).

End Firestore.
Export Firestore.

(* ===================================================================== *)
(** * Effective permissions                                                *)
(* ===================================================================== *)

Module Permissions.

(** The signed-in user as the identity provider gives it. *)
Record User : Type := mkUser {
  uid : string;
  displayName : option string
}.

#[global] Instance User_eq_dec : EqDecision User.
Proof. solve_decision. Defined.

(** The state [myOverrides]: [{ canChat?: boolean; canCall?: boolean }],
    filled from the member document, whose fields may also be [null]
    after a reset. *)
Record Overrides : Type := mkOverrides {
  canChat : option fval;
  canCall : option fval
}.

#[global] Instance Overrides_eq_dec : EqDecision Overrides.
Proof. solve_decision. Defined.

(** [const isAdmin = useMemo(() => myRole === "admin", [myRole])] *)
Definition isAdmin (myRole : string) : bool := bool_decide (myRole = "admin").

(** The two memoised values.  [typeof o === "boolean"] is the match on
    [Some (FBool b)]; every other override, absent or [null], falls to
    the room default. *)
Definition effectiveCanChat (user : option User) (room : option (gmap string fval))
    (myRole : string) (myOverrides : Overrides) : fval :=
  match user, room with
  | Some _, Some r =>
      if isAdmin myRole then FBool true
      else if truthy (r !! "lockChat") then FBool false
      else match canChat myOverrides with
           | Some (FBool b) => FBool b
           | _ => coalesce (r !! "defaultCanChat") (FBool true)
           end
  | _, _ => FBool false
  end.

Definition effectiveCanCall (user : option User) (room : option (gmap string fval))
    (myRole : string) (myOverrides : Overrides) : fval :=
  match user, room with
  | Some _, Some r =>
      if isAdmin myRole then FBool true
      else if truthy (r !! "lockCalls") then FBool false
      else match canCall myOverrides with
           | Some (FBool b) => FBool b
           | _ => coalesce (r !! "defaultCanCall") (FBool true)
           end
  | _, _ => FBool false
  end.

End Permissions.
Export Permissions.

(* ===================================================================== *)
(** * The world of one client                                              *)
(* ===================================================================== *)

Module Client.

(** React state of the room page.  [voiceCallId], [voiceStatus] and
    [inVoice] belong to the current page; [callId] and [callStatus] to
    its older variant with standalone calls. *)
Record Ui : Type := mkUi {
  user : option User;
  roomId : string;
  room : option (gmap string fval);
  status : string;
  myRole : string;
  myOverrides : Overrides;
  voiceCallId : option string;
  voiceStatus : string;
  inVoice : bool;
  callId : string;
  callStatus : string
}.

#[global] Instance Ui_eq_dec : EqDecision Ui.
Proof. solve_decision. Defined.

(** An [RTCPeerConnection] object. *)
Record PeerConnection : Type := mkPc {
  pcClosed : bool;
  senders : list nat;
  localDescription : option fval;
  currentRemoteDescription : option fval;
  iceSink : option (list string);
  remoteCandidates : list (gmap string fval)
}.

#[global] Instance PeerConnection_eq_dec : EqDecision PeerConnection.
Proof. solve_decision. Defined.

(** The listeners registered with [onSnapshot] by the call paths; none
    of them is ever unsubscribed. *)
Inductive Subscription : Type :=
| SubCallerDoc (pc : nat) (call : string)
| SubCalleeDoc (call : string)
| SubCandidates (pc : nat) (coll : list string).

#[global] Instance Subscription_eq_dec : EqDecision Subscription.
Proof. solve_decision. Defined.

(** Calls made on the media and transport objects, oldest first. *)
Inductive MediaCall : Type :=
| GetUserMedia
| PcClose (pc : nat)
| TrackStop (track : nat)
| SetRemoteDescription (pc : nat) (d : fval).

#[global] Instance MediaCall_eq_dec : EqDecision MediaCall.
Proof. solve_decision. Defined.

(** The refs [pcRef], [localStreamRef] (a stream is the list of its
    tracks) and [remoteAudioRef] (the audio element, when mounted, and
    its [srcObject]), the objects they point to, and the microphone. *)
Record Media : Type := mkMedia {
  micGranted : bool;
  pcs : gmap nat PeerConnection;
  nextHandle : nat;
  stoppedTracks : gset nat;
  pcRef : option nat;
  localStreamRef : option (list nat);
  remoteAudioMounted : bool;
  remoteSrcObject : option nat;
  subscriptions : list Subscription;
  mediaLog : list MediaCall
}.

#[global] Instance Media_eq_dec : EqDecision Media.
Proof. solve_decision. Defined.

Record World : Type := mkWorld {
  store : Store;
  currentUser : option User;
  ui : Ui;
  media : Media
}.

#[global] Instance World_eq_dec : EqDecision World.
Proof. solve_decision. Defined.

(** ** Handlers as computations that may throw *)

Inductive Outcome (A : Type) : Type :=
| Ok (a : A)
| Throw (e : string).
Arguments Ok {A} a.
Arguments Throw {A} e.

Definition M (A : Type) : Type := World -> Outcome A * World.

#[global] Instance M_ret : MRet M := fun A a w => (Ok a, w).

#[global] Instance M_bind : MBind M := fun A B f m w =>
  match m w with
  | (Ok a, w') => f a w'
  | (Throw e, w') => (Throw e, w')
  end.

Definition get : M World := fun w => (Ok w, w).
Definition modify (f : World -> World) : M unit := fun w => (Ok tt, f w).
Definition throw {A : Type} (e : string) : M A := fun w => (Throw e, w).

(** [try { m } catch {}] *)
Definition tryCatch (m : M unit) : M unit := fun w =>
  match m w with
  | (Ok a, w') => (Ok a, w')
  | (Throw _, w') => (Ok tt, w')
  end.

(** [m.catch(() => h)] *)
Definition catch (m : M unit) (h : M unit) : M unit := fun w =>
  match m w with
  | (Ok a, w') => (Ok a, w')
  | (Throw _, w') => h w'
  end.

Definition when (b : bool) (m : M unit) : M unit := if b then m else mret tt.

Definition withStore (f : Store -> Store) (w : World) : World :=
  mkWorld (f (store w)) (currentUser w) (ui w) (media w).
Definition withUi (f : Ui -> Ui) (w : World) : World :=
  mkWorld (store w) (currentUser w) (f (ui w)) (media w).
Definition withMedia (f : Media -> Media) (w : World) : World :=
  mkWorld (store w) (currentUser w) (ui w) (f (media w)).

(** ** State setters *)

Definition setRoom (r : option (gmap string fval)) : M unit := modify (withUi (fun u =>
  mkUi (user u) (roomId u) r (status u) (myRole u) (myOverrides u)
       (voiceCallId u) (voiceStatus u) (inVoice u) (callId u) (callStatus u))).
Definition setStatus (s : string) : M unit := modify (withUi (fun u =>
  mkUi (user u) (roomId u) (room u) s (myRole u) (myOverrides u)
       (voiceCallId u) (voiceStatus u) (inVoice u) (callId u) (callStatus u))).
Definition setVoiceCallId (c : option string) : M unit := modify (withUi (fun u =>
  mkUi (user u) (roomId u) (room u) (status u) (myRole u) (myOverrides u)
       c (voiceStatus u) (inVoice u) (callId u) (callStatus u))).
Definition setVoiceStatus (s : string) : M unit := modify (withUi (fun u =>
  mkUi (user u) (roomId u) (room u) (status u) (myRole u) (myOverrides u)
       (voiceCallId u) s (inVoice u) (callId u) (callStatus u))).
Definition setInVoice (b : bool) : M unit := modify (withUi (fun u =>
  mkUi (user u) (roomId u) (room u) (status u) (myRole u) (myOverrides u)
       (voiceCallId u) (voiceStatus u) b (callId u) (callStatus u))).
Definition setCallId (c : string) : M unit := modify (withUi (fun u =>
  mkUi (user u) (roomId u) (room u) (status u) (myRole u) (myOverrides u)
       (voiceCallId u) (voiceStatus u) (inVoice u) c (callStatus u))).
Definition setCallStatus (s : string) : M unit := modify (withUi (fun u =>
  mkUi (user u) (roomId u) (room u) (status u) (myRole u) (myOverrides u)
       (voiceCallId u) (voiceStatus u) (inVoice u) (callId u) s)).

Definition setPcRef (r : option nat) : M unit := modify (withMedia (fun m =>
  mkMedia (micGranted m) (pcs m) (nextHandle m) (stoppedTracks m) r (localStreamRef m)
          (remoteAudioMounted m) (remoteSrcObject m) (subscriptions m) (mediaLog m))).
Definition setLocalStreamRef (r : option (list nat)) : M unit := modify (withMedia (fun m =>
  mkMedia (micGranted m) (pcs m) (nextHandle m) (stoppedTracks m) (pcRef m) r
          (remoteAudioMounted m) (remoteSrcObject m) (subscriptions m) (mediaLog m))).
Definition setRemoteSrcObject (r : option nat) : M unit := modify (withMedia (fun m =>
  mkMedia (micGranted m) (pcs m) (nextHandle m) (stoppedTracks m) (pcRef m) (localStreamRef m)
          (remoteAudioMounted m) r (subscriptions m) (mediaLog m))).
Definition setPcs (f : gmap nat PeerConnection -> gmap nat PeerConnection) : M unit :=
  modify (withMedia (fun m =>
  mkMedia (micGranted m) (f (pcs m)) (nextHandle m) (stoppedTracks m) (pcRef m) (localStreamRef m)
          (remoteAudioMounted m) (remoteSrcObject m) (subscriptions m) (mediaLog m))).
Definition stopTrackState (t : nat) : M unit := modify (withMedia (fun m =>
  mkMedia (micGranted m) (pcs m) (nextHandle m) ({[t]} ∪ stoppedTracks m) (pcRef m)
          (localStreamRef m) (remoteAudioMounted m) (remoteSrcObject m) (subscriptions m)
          (mediaLog m))).
Definition subscribe (s : Subscription) : M unit := modify (withMedia (fun m =>
  mkMedia (micGranted m) (pcs m) (nextHandle m) (stoppedTracks m) (pcRef m) (localStreamRef m)
          (remoteAudioMounted m) (remoteSrcObject m) (subscriptions m ++ [s])%list (mediaLog m))).
Definition logCall (c : MediaCall) : M unit := modify (withMedia (fun m =>
  mkMedia (micGranted m) (pcs m) (nextHandle m) (stoppedTracks m) (pcRef m) (localStreamRef m)
          (remoteAudioMounted m) (remoteSrcObject m) (subscriptions m) (mediaLog m ++ [c])%list)).

(** A new object handle. *)
Definition freshHandle : M nat := fun w =>
  let m := media w in
  (Ok (nextHandle m),
   withMedia (fun _ =>
     mkMedia (micGranted m) (pcs m) (S (nextHandle m)) (stoppedTracks m) (pcRef m)
             (localStreamRef m) (remoteAudioMounted m) (remoteSrcObject m) (subscriptions m)
             (mediaLog m)) w).

End Client.
Export Client.

(* ===================================================================== *)
(** * Store and media primitives inside handlers                           *)
(* ===================================================================== *)

Module Prim.

Definition getDocM (p : list string) : M (option (gmap string fval)) :=
  w ← get; mret (getDoc p (store w)).

Definition setDocMergeM (p : list string) (d : gmap string fval) : M unit :=
  modify (withStore (setDocMerge p d)).

Definition updateDocM (p : list string) (d : gmap string fval) : M unit := fun w =>
  match updateDoc p d (store w) with
  | Some st => (Ok tt, withStore (fun _ => st) w)
  | None => (Throw "not-found", w)
  end.

Definition addDocM (coll : list string) (d : gmap string fval) : M string := fun w =>
  let r := addDoc coll d (store w) in
  (Ok (fst r), withStore (fun _ => snd r) w).

Definition deleteDocM (p : list string) : M unit :=
  modify (withStore (deleteDoc p)).

Fixpoint forEach {A : Type} (f : A -> M unit) (l : list A) : M unit :=
  match l with
  | [] => mret tt
  | x :: l' => f x;; forEach f l'
  end.

(** [navigator.mediaDevices.getUserMedia({ audio: true, video: false })]:
    a stream with one audio track, or a rejection when the microphone is
    denied or missing. *)
Definition getUserMedia : M (list nat) :=
  logCall GetUserMedia;;
  w ← get;
  if micGranted (media w)
  then t ← freshHandle; mret [t]
  else throw "NotAllowedError".

(** [new RTCPeerConnection(iceServers)] *)
Definition newPeerConnection : M nat :=
  h ← freshHandle;
  setPcs (insert h (mkPc false [] None None None []));;
  mret h.

(** [localStream.getTracks().forEach((track) => pc.addTrack(track, localStream))] *)
Definition addTracks (h : nat) (ts : list nat) : M unit :=
  setPcs (alter (fun p =>
    mkPc (pcClosed p) (senders p ++ ts)%list (localDescription p)
         (currentRemoteDescription p) (iceSink p) (remoteCandidates p)) h).

(** [pc.onicecandidate = ...]: the collection the local candidates go to. *)
Definition setOnIceCandidate (h : nat) (coll : list string) : M unit :=
  setPcs (alter (fun p =>
    mkPc (pcClosed p) (senders p) (localDescription p)
         (currentRemoteDescription p) (Some coll) (remoteCandidates p)) h).

Definition createOffer (h : nat) : M fval := mret (FDesc "offer" ("sdp-offer-" +:+ pretty h)).
Definition createAnswer (h : nat) : M fval := mret (FDesc "answer" ("sdp-answer-" +:+ pretty h)).

Definition setLocalDescription (h : nat) (d : fval) : M unit :=
  setPcs (alter (fun p =>
    mkPc (pcClosed p) (senders p) (Some d)
         (currentRemoteDescription p) (iceSink p) (remoteCandidates p)) h).

(** [pc.setRemoteDescription(new RTCSessionDescription(d))]: rejects a
    value that is not a description and a connection that is closed;
    otherwise [d] becomes [pc.currentRemoteDescription]. *)
Definition setRemoteDescription (h : nat) (d : option fval) : M unit :=
  match d with
  | Some (FDesc ty sdp) =>
      logCall (SetRemoteDescription h (FDesc ty sdp));;
      w ← get;
      match pcs (media w) !! h with
      | Some p =>
          if pcClosed p then throw "InvalidStateError"
          else setPcs (insert h (mkPc (pcClosed p) (senders p) (localDescription p)
                                      (Some (FDesc ty sdp)) (iceSink p) (remoteCandidates p)))
      | None => throw "InvalidStateError"
      end
  | _ => throw "TypeError"
  end.

(** The two ends of [await pc.setRemoteDescription(...)]: the call, made
    where the listener stands, and the operation settling later, which is
    when the description becomes [pc.currentRemoteDescription]. *)
Definition callSetRemoteDescription (h : nat) (d : option fval) : M fval :=
  match d with
  | Some (FDesc ty sdp) =>
      logCall (SetRemoteDescription h (FDesc ty sdp));;
      mret (FDesc ty sdp)
  | _ => throw "TypeError"
  end.

Definition settleSetRemoteDescription (h : nat) (d : fval) : M unit :=
  w ← get;
  match pcs (media w) !! h with
  | Some p =>
      if pcClosed p then throw "InvalidStateError"
      else setPcs (insert h (mkPc (pcClosed p) (senders p) (localDescription p)
                                  (Some d) (iceSink p) (remoteCandidates p)))
  | None => throw "InvalidStateError"
  end.

(** An invocation of an [async] listener of the call document, as far as
    it has run: ended, or suspended at [await pc.setRemoteDescription(...)]
    with the description it passed and the data of its snapshot. *)
Inductive Invocation : Type :=
| Ended
| AwaitingRemote (d : fval) (data : gmap string fval).

#[global] Instance Invocation_eq_dec : EqDecision Invocation.
Proof. solve_decision. Defined.

(** [pc.currentRemoteDescription] *)
Definition getCurrentRemoteDescription (h : nat) : M (option fval) :=
  w ← get; mret (p ← pcs (media w) !! h; currentRemoteDescription p).


(** [pc.close()] *)
Definition pcClose (h : nat) : M unit :=
  logCall (PcClose h);;
  setPcs (alter (fun p =>
    mkPc true (senders p) (localDescription p)
         (currentRemoteDescription p) (iceSink p) (remoteCandidates p)) h).

(** [t.stop()] *)
Definition trackStop (t : nat) : M unit :=
  logCall (TrackStop t);; stopTrackState t.

(** [user?.uid ?? null] *)
Definition uidOrNull (u : option User) : fval :=
  match u with
  | Some x => FStr (uid x)
  | None => FNull
  end.

(** [u.displayName ?? "utente"] *)
Definition nameOf (u : User) : fval := FStr (default "utente" (displayName u)).

End Prim.
Export Prim.

(* ===================================================================== *)
(** * The room page                                                        *)
(* ===================================================================== *)

Module RoomPage.

Definition roomRef (rid : string) : list string := ["rooms"; rid].
Definition memberRef (rid u : string) : list string := ["rooms"; rid; "members"; u].
Definition voiceRef (rid : string) : list string := ["rooms"; rid; "voice"; "current"].
Definition voiceMemberRef (rid u : string) : list string := ["rooms"; rid; "voiceMembers"; u].
Definition callsColl (rid : string) : list string := ["rooms"; rid; "calls"].
Definition callRef (rid c : string) : list string := ["rooms"; rid; "calls"; c].
Definition offerCandidates (rid c : string) : list string :=
  ["rooms"; rid; "calls"; c; "offerCandidates"].
Definition answerCandidates (rid c : string) : list string :=
  ["rooms"; rid; "calls"; c; "answerCandidates"].

(** ** Room load and member upsert *)

(** [if (typeof data0.k !== "boolean") patch.k = v] *)
Definition patchIfNotBoolean (data0 : gmap string fval) (k : string) (v : fval)
    (patch : gmap string fval) : gmap string fval :=
  if typeof_boolean (data0 !! k) then patch else <[k := v]> patch.

Definition settingsPatch (data0 : gmap string fval) : gmap string fval :=
  patchIfNotBoolean data0 "lockCalls" (FBool false)
    (patchIfNotBoolean data0 "lockChat" (FBool false)
      (patchIfNotBoolean data0 "defaultCanCall" (FBool true)
        (patchIfNotBoolean data0 "defaultCanChat" (FBool true) ∅))).

(** [data.adminUid === u.uid] *)
Definition isAdminOf (data : gmap string fval) (u : User) : bool :=
  strict_eq (data !! "adminUid") (Some (FStr (uid u))).

(** The object given to [setDoc] for the member, [data] being the room
    data after the backfill. *)
Definition memberPayload (data : gmap string fval) (u : User) : gmap string fval :=
  let isAdmin := isAdminOf data u in
  {[ "uid" := FStr (uid u);
     "name" := nameOf u;
     "role" := FStr (if isAdmin then "admin" else "member");
     "canChat" := if isAdmin then FBool true else coalesce (data !! "defaultCanChat") (FBool true);
     "canCall" := if isAdmin then FBool true else coalesce (data !! "defaultCanCall") (FBool true);
     "joinedAt" := FServerTimestamp ]}.

(** The body [run] of the room-load effect, over the member object it
    upserts.  The bookmark kept in [localStorage] is not part of the
    world and is left out. *)
Definition runLoad (payload : gmap string fval -> User -> gmap string fval) : M unit :=
  w ← get;
  let rid := roomId (ui w) in
  snap ← getDocM (roomRef rid);
  match snap with
  | None => setStatus "Room non trovata."
  | Some data0 =>
      let patch := settingsPatch data0 in
      when (negb (bool_decide (patch = ∅))) (updateDocM (roomRef rid) patch);;
      let data := patch ∪ data0 in
      setRoom (Some data);;
      setStatus "OK";;
      w1 ← get;
      match currentUser w1 with
      | Some u => setDocMergeM (memberRef rid (uid u)) (payload data u)
      | None => mret tt
      end
  end.

(** The effect itself: [if (!roomId) return; run().catch(...)]. *)
Definition loadRoomWith (payload : gmap string fval -> User -> gmap string fval) : M unit :=
  w ← get;
  if bool_decide (roomId (ui w) = "") then mret tt
  else catch (runLoad payload) (setStatus "Errore caricando la room.").

Definition loadRoom : M unit := loadRoomWith memberPayload.

(** ** Effective permissions of the page state *)

Definition canChatNow (w : World) : fval :=
  effectiveCanChat (user (ui w)) (room (ui w)) (myRole (ui w)) (myOverrides (ui w)).
Definition canCallNow (w : World) : fval :=
  effectiveCanCall (user (ui w)) (room (ui w)) (myRole (ui w)) (myOverrides (ui w)).

(** ** Teardown *)

Definition cleanupCall : M unit :=
  w ← get;
  tryCatch (match pcRef (media w) with
            | Some h => pcClose h
            | None => mret tt
            end);;
  setPcRef None;;
  w1 ← get;
  tryCatch (match localStreamRef (media w1) with
            | Some ts => forEach trackStop ts
            | None => mret tt
            end);;
  setLocalStreamRef None;;
  w2 ← get;
  tryCatch (when (remoteAudioMounted (media w2)) (setRemoteSrcObject None));;
  setInVoice false.

(** ** Listeners of the call paths *)

(** [pc.ontrack]: the remote stream, here under the handle of its
    connection, becomes the source of the audio element. *)
Definition onTrack (h : nat) : M unit :=
  w ← get;
  when (remoteAudioMounted (media w)) (setRemoteSrcObject (Some h)).

(** [pc.onicecandidate]: [None] is the final event without candidate. *)
Definition onIceCandidate (coll : list string) (cand : option (gmap string fval)) : M unit :=
  match cand with
  | Some c => _ ← addDocM coll c; mret tt
  | None => mret tt
  end.

(** The listener of the call document on the caller side.  Every
    [await] is taken at its settled value: a delivery is handled to its
    end before the next one. *)
Definition onCallerSnapshot (pc : nat) (snap : option (gmap string fval)) : M unit :=
  match snap with
  | None => mret tt
  | Some data =>
      crd ← getCurrentRemoteDescription pc;
      when (bool_decide (crd = None) && truthy (data !! "answer"))
        (setRemoteDescription pc (data !! "answer");;
         setVoiceStatus "Connesso ✅ (audio)");;
      when (strict_eq (data !! "status") (Some (FStr "ended")))
        (setVoiceStatus "Vocale chiuso.";;
         cleanupCall)
  end.

(** The same listener cut at its [await pc.setRemoteDescription(...)]:
    what an invocation runs when the snapshot is delivered, and what it
    runs once the application has settled.  The guard is read in the
    first part. *)
Definition onCallerSnapshotStart (pc : nat) (snap : option (gmap string fval)) : M Invocation :=
  match snap with
  | None => mret Ended
  | Some data =>
      crd ← getCurrentRemoteDescription pc;
      if bool_decide (crd = None) && truthy (data !! "answer")
      then
        d ← callSetRemoteDescription pc (data !! "answer");
        mret (AwaitingRemote d data)
      else
        when (strict_eq (data !! "status") (Some (FStr "ended")))
          (setVoiceStatus "Vocale chiuso.";;
           cleanupCall);;
        mret Ended
  end.

Definition onCallerSnapshotResume (pc : nat) (i : Invocation) : M unit :=
  match i with
  | Ended => mret tt
  | AwaitingRemote d data =>
      settleSetRemoteDescription pc d;;
      setVoiceStatus "Connesso ✅ (audio)";;
      when (strict_eq (data !! "status") (Some (FStr "ended")))
        (setVoiceStatus "Vocale chiuso.";;
         cleanupCall)
  end.

(** The listener of the call document on the callee side. *)
Definition onCalleeSnapshot (snap : option (gmap string fval)) : M unit :=
  match snap with
  | None => mret tt
  | Some data =>
      when (strict_eq (data !! "status") (Some (FStr "ended")))
        (setVoiceStatus "Vocale chiuso.";;
         cleanupCall)
  end.


(** ** Caller and callee paths *)

Definition createCallDoc : M string :=
  w ← get;
  match user (ui w) with
  | None => throw "Not logged"
  | Some u =>
      addDocM (callsColl (roomId (ui w)))
        {[ "createdAt" := FServerTimestamp;
           "createdByUid" := FStr (uid u);
           "status" := FStr "open" ]}
  end.

Definition startAsCaller (callId : string) : M unit :=
  w ← get;
  match user (ui w) with
  | None => mret tt
  | Some _ =>
      let rid := roomId (ui w) in
      setVoiceStatus "Entro in vocale… (creo sessione)";;
      localStream ← getUserMedia;
      setLocalStreamRef (Some localStream);;
      pc ← newPeerConnection;
      setPcRef (Some pc);;
      addTracks pc localStream;;
      setOnIceCandidate pc (offerCandidates rid callId);;
      offerDescription ← createOffer pc;
      setLocalDescription pc offerDescription;;
      updateDocM (callRef rid callId) {[ "offer" := offerDescription ]};;
      subscribe (SubCallerDoc pc callId);;
      subscribe (SubCandidates pc (answerCandidates rid callId));;
      setInVoice true;;
      setVoiceStatus "In vocale ✅"
  end.

Definition joinAsCallee (callId : string) : M unit :=
  w ← get;
  match user (ui w) with
  | None => mret tt
  | Some _ =>
      let rid := roomId (ui w) in
      setVoiceStatus "Entro in vocale… (mi unisco)";;
      callSnap ← getDocM (callRef rid callId);
      match callSnap with
      | None => setVoiceStatus "Sessione vocale non trovata."
      | Some callData =>
          if negb (truthy (callData !! "offer"))
          then setVoiceStatus "Sessione non pronta (manca offer). Riprova tra 2 secondi."
          else
            localStream ← getUserMedia;
            setLocalStreamRef (Some localStream);;
            pc ← newPeerConnection;
            setPcRef (Some pc);;
            addTracks pc localStream;;
            setOnIceCandidate pc (answerCandidates rid callId);;
            setRemoteDescription pc (callData !! "offer");;
            answerDesc ← createAnswer pc;
            setLocalDescription pc answerDesc;;
            updateDocM (callRef rid callId)
              {[ "answer" := answerDesc; "status" := FStr "connected" ]};;
            subscribe (SubCandidates pc (offerCandidates rid callId));;
            subscribe (SubCalleeDoc callId);;
            setInVoice true;;
            setVoiceStatus "In vocale ✅"
      end
  end.

(** ** The shared voice channel *)

Definition voiceReset (u : option User) : gmap string fval :=
  {[ "callId" := FNull; "updatedAt" := FServerTimestamp; "updatedByUid" := uidOrNull u ]}.

Definition ensureVoiceStateDoc : M unit :=
  w ← get;
  snap ← getDocM (voiceRef (roomId (ui w)));
  match snap with
  | None => setDocMergeM (voiceRef (roomId (ui w))) (voiceReset (user (ui w)))
  | Some _ => mret tt
  end.

(** A document path segment must be a string: [doc] throws on any other
    value, which the type of [callId] excludes. *)
Definition pathSegment (v : option fval) : M string :=
  match v with
  | Some (FStr s) => mret s
  | _ => throw "invalid-argument"
  end.

Definition enterVoice : M unit :=
  w ← get;
  match user (ui w) with
  | None => mret tt
  | Some u =>
      let rid := roomId (ui w) in
      if bool_decide (rid = "") then mret tt
      else if negb (truthy (Some (canCallNow w)))
      then setVoiceStatus "Non hai permessi per il vocale in questa room."
      else
        ensureVoiceStateDoc;;
        setDocMergeM (voiceMemberRef rid (uid u))
          {[ "uid" := FStr (uid u); "name" := nameOf u; "joinedAt" := FServerTimestamp ]};;
        snap ← getDocM (voiceRef rid);
        let data := default {[ "callId" := FNull ]} snap in
        if negb (truthy (data !! "callId"))
        then
          setVoiceStatus "Creo stanza vocale…";;
          newCallId ← createCallDoc;
          updateDocM (voiceRef rid)
            {[ "callId" := FStr newCallId;
               "updatedAt" := FServerTimestamp;
               "updatedByUid" := FStr (uid u) ]};;
          setVoiceCallId (Some newCallId);;
          startAsCaller newCallId
        else
          cid ← pathSegment (data !! "callId");
          setVoiceCallId (Some cid);;
          joinAsCallee cid
  end.

Definition exitVoice : M unit :=
  w ← get;
  match user (ui w) with
  | None => mret tt
  | Some u =>
      let rid := roomId (ui w) in
      if bool_decide (rid = "") then mret tt
      else
        tryCatch (deleteDocM (voiceMemberRef rid (uid u)));;
        cleanupCall;;
        setVoiceStatus "Sei uscito dal vocale."
  end.

Definition closeVoiceForAll : M unit :=
  w ← get;
  let rid := roomId (ui w) in
  if negb (isAdmin (myRole (ui w))) || bool_decide (rid = "") then mret tt
  else
    snap ← getDocM (voiceRef rid);
    when (truthy (data ← snap; data !! "callId"))
      (tryCatch (cid ← pathSegment (data ← snap; data !! "callId");
                 updateDocM (callRef rid cid) {[ "status" := FStr "ended" ]}));;
    setDocMergeM (voiceRef rid) (voiceReset (user (ui w)));;
    setVoiceCallId None;;
    setVoiceStatus "Vocale chiuso per tutti."
  .

End RoomPage.

(* ===================================================================== *)
(** * The older room page, with standalone calls                           *)
(* ===================================================================== *)

Module OlderRoomPage.

Import RoomPage.

(** The member object of the older page: no override field. *)
Definition memberPayload (data : gmap string fval) (u : User) : gmap string fval :=
  let isAdmin := isAdminOf data u in
  {[ "uid" := FStr (uid u);
     "name" := nameOf u;
     "role" := FStr (if isAdmin then "admin" else "member");
     "joinedAt" := FServerTimestamp ]}.

Definition loadRoom : M unit := loadRoomWith memberPayload.

Definition cleanupCall : M unit :=
  w ← get;
  tryCatch (match pcRef (media w) with
            | Some h => pcClose h
            | None => mret tt
            end);;
  setPcRef None;;
  w1 ← get;
  tryCatch (match localStreamRef (media w1) with
            | Some ts => forEach trackStop ts
            | None => mret tt
            end);;
  setLocalStreamRef None;;
  setCallStatus "Chiamata chiusa.".

(** The listener of the call document registered by [createCall]. *)
Definition onCallSnapshot (pc : nat) (snap : option (gmap string fval)) : M unit :=
  match snap with
  | None => mret tt
  | Some data =>
      crd ← getCurrentRemoteDescription pc;
      when (bool_decide (crd = None) && truthy (data !! "answer"))
        (setRemoteDescription pc (data !! "answer");;
         setCallStatus "Connesso ✅ (audio attivo)");;
      when (strict_eq (data !! "status") (Some (FStr "ended"))) cleanupCall
  end.

(** The same listener cut at its [await pc.setRemoteDescription(...)]. *)
Definition onCallSnapshotStart (pc : nat) (snap : option (gmap string fval)) : M Invocation :=
  match snap with
  | None => mret Ended
  | Some data =>
      crd ← getCurrentRemoteDescription pc;
      if bool_decide (crd = None) && truthy (data !! "answer")
      then
        d ← callSetRemoteDescription pc (data !! "answer");
        mret (AwaitingRemote d data)
      else
        when (strict_eq (data !! "status") (Some (FStr "ended"))) cleanupCall;;
        mret Ended
  end.

Definition onCallSnapshotResume (pc : nat) (i : Invocation) : M unit :=
  match i with
  | Ended => mret tt
  | AwaitingRemote d data =>
      settleSetRemoteDescription pc d;;
      setCallStatus "Connesso ✅ (audio attivo)";;
      when (strict_eq (data !! "status") (Some (FStr "ended"))) cleanupCall
  end.

(** The address bar is not part of the world: the [call] parameter the
    two paths write into it is left out. *)
Definition createCall : M unit :=
  w ← get;
  match user (ui w) with
  | None => mret tt
  | Some u =>
      let rid := roomId (ui w) in
      if negb (truthy (Some (canCallNow w)))
      then setCallStatus "Non hai i permessi per fare chiamate."
      else
        setCallStatus "Creo chiamata…";;
        localStream ← getUserMedia;
        setLocalStreamRef (Some localStream);;
        pc ← newPeerConnection;
        setPcRef (Some pc);;
        addTracks pc localStream;;
        newCallId ← addDocM (callsColl rid)
          {[ "createdAt" := FServerTimestamp;
             "createdByUid" := FStr (uid u);
             "status" := FStr "open" ]};
        setCallId newCallId;;
        setOnIceCandidate pc (offerCandidates rid newCallId);;
        offerDescription ← createOffer pc;
        setLocalDescription pc offerDescription;;
        updateDocM (callRef rid newCallId) {[ "offer" := offerDescription ]};;
        setCallStatus "Chiamata creata. Condividi il link o attendi che qualcuno si unisca.";;
        subscribe (SubCallerDoc pc newCallId);;
        subscribe (SubCandidates pc (answerCandidates rid newCallId))
  end.

Definition joinCall : M unit :=
  w ← get;
  match user (ui w) with
  | None => mret tt
  | Some _ =>
      let rid := roomId (ui w) in
      let cid := callId (ui w) in
      if negb (truthy (Some (canCallNow w)))
      then setCallStatus "Non hai i permessi per fare chiamate."
      else if bool_decide (cid = "") then mret tt
      else
        setCallStatus "Mi unisco alla chiamata…";;
        callSnap ← getDocM (callRef rid cid);
        match callSnap with
        | None => setCallStatus "Chiamata non trovata."
        | Some callData =>
            if negb (truthy (callData !! "offer"))
            then setCallStatus "Chiamata non pronta (manca offer)."
            else
              localStream ← getUserMedia;
              setLocalStreamRef (Some localStream);;
              pc ← newPeerConnection;
              setPcRef (Some pc);;
              addTracks pc localStream;;
              setOnIceCandidate pc (answerCandidates rid cid);;
              setRemoteDescription pc (callData !! "offer");;
              answerDesc ← createAnswer pc;
              setLocalDescription pc answerDesc;;
              updateDocM (callRef rid cid)
                {[ "answer" := answerDesc; "status" := FStr "connected" ]};;
              setCallStatus "Connesso ✅ (audio attivo)";;
              subscribe (SubCandidates pc (offerCandidates rid cid))
        end
  end.

Definition hangUp : M unit :=
  w ← get;
  let rid := roomId (ui w) in
  let cid := callId (ui w) in
  when (negb (bool_decide (rid = "")) && negb (bool_decide (cid = "")))
    (tryCatch (updateDocM (callRef rid cid) {[ "status" := FStr "ended" ]}));;
  cleanupCall.

End OlderRoomPage.

(* ===================================================================== *)
(** * Invite codes                                                         *)
(* ===================================================================== *)

Module Invite.

Local Open Scope char_scope.

(** Strings are sequences of code units.  [toUpperCase] and [trim] are
    exact on units below 128, the range of every input considered here;
    units from 128 on are left as they are. *)

Definition isLower (c : ascii) : bool :=
  (97 <=? nat_of_ascii c)%nat && (nat_of_ascii c <=? 122)%nat.

Definition upperChar (c : ascii) : ascii :=
  if isLower c then ascii_of_nat (nat_of_ascii c - 32) else c.

Definition lowerChar (c : ascii) : ascii :=
  if (65 <=? nat_of_ascii c)%nat && (nat_of_ascii c <=? 90)%nat
  then ascii_of_nat (nat_of_ascii c + 32) else c.

Fixpoint toUpperCase (s : string) : string :=
  match s with
  | EmptyString => EmptyString
  | String c s' => String (upperChar c) (toUpperCase s')
  end.

(** Tab, line feed, vertical tab, form feed, carriage return, space. *)
Definition isWhiteSpace (c : ascii) : bool :=
  let n := nat_of_ascii c in
  ((9 <=? n)%nat && (n <=? 13)%nat) || (n =? 32)%nat.

Fixpoint trimStart (s : string) : string :=
  match s with
  | EmptyString => EmptyString
  | String c s' => if isWhiteSpace c then trimStart s' else s
  end.

Fixpoint trimEnd (s : string) : string :=
  match s with
  | EmptyString => EmptyString
  | String c s' =>
      match trimEnd s' with
      | EmptyString => if isWhiteSpace c then EmptyString else String c EmptyString
      | r => String c r
      end
  end.

Definition trim (s : string) : string := trimEnd (trimStart s).

(** Every unit of [s] is below 128: the strings on which [toUpperCase]
    and [trim] are the functions of JavaScript. *)
Fixpoint asciiOnly (s : string) : bool :=
  match s with
  | EmptyString => true
  | String c s' => (nat_of_ascii c <? 128)%nat && asciiOnly s'
  end.

Local Close Scope char_scope.

Definition chars : string := "ABCDEFGHJKLMNPQRSTUVWXYZ23456789".

(** The generator behind [Math.random()]: the draws to come and how many
    were taken.  A draw is a number in [0, 1); its product by the length
    of [chars], a power of two, is exact. *)
Record Rng : Type := mkRng {
  draws : nat -> Q;
  taken : nat
}.

Definition mathRandom (g : Rng) : Q * Rng :=
  (draws g (taken g), mkRng (draws g) (S (taken g))).

(** [chars[i]] as [out += chars[i]] sees it: an index out of range reads
    [undefined], which appends as the text "undefined". *)
Definition charAt (i : Z) : string :=
  if (i <? 0)%Z then "undefined"
  else match String.get (Z.to_nat i) chars with
       | Some c => String c EmptyString
       | None => "undefined"
       end.

(** The loop of [randomCode], [n] iterations being left. *)
Fixpoint randomCodeLoop (n : nat) (out : string) (g : Rng) : string * Rng :=
  match n with
  | O => (out, g)
  | S n' =>
      let r := mathRandom g in
      let i := Qfloor (fst r * inject_Z (Z.of_nat (String.length chars))) in
      randomCodeLoop n' (out +:+ charAt i) (snd r)
  end.

Definition randomCode (len : nat) (g : Rng) : string * Rng := randomCodeLoop len "" g.

(** The room document written by [createRoom]. *)
Definition newRoomDoc (name code adminUid : string) : gmap string fval :=
  {[ "name" := FStr name;
     "joinCode" := FStr code;
     "adminUid" := FStr adminUid;
     "createdAt" := FServerTimestamp ]}.

(** [enterRoom] on the home page: the code it sends to the join page, or
    [None] when it asks for a code instead. *)
Definition enterRoom (joinCode : string) : option string :=
  let code := toUpperCase (trim joinCode) in
  if bool_decide (code = "") then None else Some code.

(** The join page: the code it looks up, from the [code] parameter of
    the address, or [None] when it reports a missing code. *)
Definition joinPageCode (param : option string) : option string :=
  let p := match param with
           | Some s => if bool_decide (s = "") then "" else s
           | None => ""
           end in
  let code := trim (toUpperCase p) in
  if bool_decide (code = "") then None else Some code.

(** [where("joinCode", "==", code)] on one room document. *)
Definition matchesJoinCode (code : string) (d : gmap string fval) : bool :=
  strict_eq (d !! "joinCode") (Some (FStr code)).

(** [v] is [c] with some of its letters in lower case. *)
Fixpoint caseVariant (v c : string) : bool :=
  match v, c with
  | EmptyString, EmptyString => true
  | String a v', String b c' =>
      (bool_decide (a = b) || bool_decide (a = lowerChar b)) && caseVariant v' c'
  | _, _ => false
  end.

Fixpoint allWhiteSpace (s : string) : bool :=
  match s with
  | EmptyString => true
  | String c s' => isWhiteSpace c && allWhiteSpace s'
  end.

(** [c] occurs in [s]. *)
Fixpoint mem (c : ascii) (s : string) : bool :=
  match s with
  | EmptyString => false
  | String a s' => Ascii.eqb c a || mem c s'
  end.

(** Every unit of [s] occurs in [alphabet]. *)
Fixpoint allIn (alphabet s : string) : bool :=
  match s with
  | EmptyString => true
  | String c s' => mem c alphabet && allIn alphabet s'
  end.

Fixpoint noWhiteSpace (s : string) : bool :=
  match s with
  | EmptyString => true
  | String c s' => negb (isWhiteSpace c) && noWhiteSpace s'
  end.

End Invite.

(* ===================================================================== *)
(** * Deliveries, observations and sample worlds                           *)
(* ===================================================================== *)

Module Observe.

Import RoomPage.

(** Successive invocations of a listener, one per delivery, each handled
    to its end before the next delivery arrives.  The rejection of one
    invocation is unhandled and does not stop the next. *)
Fixpoint deliver {A : Type} (h : A -> M unit) (snaps : list A) (w : World) : World :=
  match snaps with
  | [] => w
  | s :: rest => deliver h rest (snd (h s w))
  end.

(** Deliveries that arrive while the applications started by the former
    ones are still pending: nothing awaits a listener, so each invocation
    runs up to its [await] and is kept, in the order of the deliveries,
    until it is resumed.  An invocation that rejects is not kept. *)
Fixpoint deliverOverlapping {A : Type} (start : A -> M Invocation) (snaps : list A)
    (w : World) : list Invocation * World :=
  match snaps with
  | [] => ([], w)
  | s :: rest =>
      let r := start s w in
      let rs := deliverOverlapping start rest (snd r) in
      (match fst r with
       | Ok i => i :: fst rs
       | Throw _ => fst rs
       end, snd rs)
  end.

Definition isSetRemoteOn (pc : nat) (c : MediaCall) : bool :=
  match c with
  | SetRemoteDescription h _ => bool_decide (h = pc)
  | _ => false
  end.

(** How many times [pc.setRemoteDescription] was called on [pc]. *)
Definition remoteApplications (pc : nat) (w : World) : nat :=
  length (filter (fun c => isSetRemoteOn pc c = true) (mediaLog (media w))).

(** The remote description [pc] holds. *)
Definition remoteOf (pc : nat) (w : World) : option fval :=
  p ← pcs (media w) !! pc; currentRemoteDescription p.

(** A field of a document of the store. *)
Definition field (p : list string) (k : string) (w : World) : option fval :=
  d ← docs (store w) !! p; d !! k.

(** The member object leaves both overrides out. *)
Definition leavesOverridesUnset (payload : gmap string fval) : Prop :=
  payload !! "canChat" = None ∧ payload !! "canCall" = None.

(** The room default as the backfill settles it: the stored boolean, or
    [dflt] when the room has none. *)
Definition settled (data0 : gmap string fval) (k : string) (dflt : bool) : bool :=
  match data0 !! k with
  | Some (FBool b) => b
  | _ => dflt
  end.

End Observe.
Export Observe.

Module Sample.

Definition alice : User := mkUser "alice" (Some "Alice").
Definition bob : User := mkUser "bob" (Some "Bob").

(** A room of [alice] with the settings of a new room. *)
Definition room1 : gmap string fval :=
  {[ "name" := FStr "Reparto";
     "adminUid" := FStr "alice";
     "joinCode" := FStr "AB23CD";
     "defaultCanChat" := FBool true;
     "defaultCanCall" := FBool true;
     "lockChat" := FBool false;
     "lockCalls" := FBool false ]}.

Definition lockedRoom : gmap string fval :=
  <["lockChat" := FBool true]> (<["lockCalls" := FBool true]> room1).

Definition store1 : Store := mkStore {[ ["rooms"; "r1"] := room1 ]} 0 0.

Definition uiOf (u : User) (role : string) : Ui :=
  mkUi (Some u) "r1" (Some room1) "OK" role (mkOverrides None None)
       None "Vocale non attivo." false "" "Nessuna chiamata attiva.".

Definition mediaOf (mic : bool) : Media := mkMedia mic ∅ 0 ∅ None None true None [] [].

(** [bob], a member allowed to call, whose microphone is denied, in a
    room without voice session. *)
Definition bobNoMic : World := mkWorld store1 (Some bob) (uiOf bob "member") (mediaOf false).

(** [bob] with a working microphone. *)
Definition bobMic : World := mkWorld store1 (Some bob) (uiOf bob "member") (mediaOf true).

(** A call created by [alice] and referenced by the voice channel. *)
Definition openCall : gmap string fval :=
  {[ "createdAt" := FTime 0; "createdByUid" := FStr "alice"; "status" := FStr "open" ]}.
Definition offeredCall : gmap string fval := <["offer" := FDesc "offer" "sdp-a"]> openCall.
Definition answeredCall : gmap string fval :=
  <["answer" := FDesc "answer" "sdp-b"]> (<["status" := FStr "connected"]> offeredCall).

Definition store2 (call : gmap string fval) : Store :=
  mkStore {[ ["rooms"; "r1"] := room1;
             ["rooms"; "r1"; "voice"; "current"] :=
               {[ "callId" := FStr "c1"; "updatedAt" := FTime 1; "updatedByUid" := FStr "alice" ]};
             ["rooms"; "r1"; "calls"; "c1"] := call ]} 2 0.

Definition aliceAdmin : World :=
  mkWorld (store2 answeredCall) (Some alice) (uiOf alice "admin") (mediaOf true).

Definition bobJoining (call : gmap string fval) : World :=
  mkWorld (store2 call) (Some bob) (uiOf bob "member") (mediaOf true).

(** [alice] as caller, her connection 1 waiting for the answer. *)
Definition aliceCalling : World :=
  mkWorld (store2 offeredCall) (Some alice) (uiOf alice "admin")
    (mkMedia true {[ 1 := mkPc false [0] (Some (FDesc "offer" "sdp-a")) None
                              (Some ["rooms"; "r1"; "calls"; "c1"; "offerCandidates"]) [] ]}
             2 ∅ (Some 1) (Some [0]) true None
             [SubCallerDoc 1 "c1"] [GetUserMedia]).

(** Draws that are all one half. *)
Definition halves : Invite.Rng := Invite.mkRng (fun _ => 1 # 2)%Q 0.

End Sample.

(* ===================================================================== *)
(** * The rest of the room page                                            *)
(* ===================================================================== *)

Module RoomPageRest.

Import RoomPage.

Definition messagesColl (rid : string) : list string := ["rooms"; rid; "messages"].

(** The listener of the room document: a snapshot that does not exist is
    ignored. *)
Definition onRoomSnapshot (snap : option (gmap string fval)) : M unit :=
  match snap with
  | None => mret tt
  | Some data => setRoom (Some data)
  end.

(** The listener of [voice/current]. *)
Definition onVoiceSnapshot (snap : option (gmap string fval)) : M unit :=
  match snap with
  | None => setVoiceCallId None;; setVoiceStatus "Vocale non attivo."
  | Some data =>
      match coalesce (data !! "callId") FNull with
      | FStr cid => setVoiceCallId (Some cid);; setVoiceStatus "Vocale attivo."
      | _ => setVoiceCallId None;; setVoiceStatus "Vocale non attivo."
      end
  end.

(** The state [myOverrides] as the members listener fills it from the
    member document [me] of the user, if any:
    [{ canChat: me?.canChat, canCall: me?.canCall }]. *)
Definition overridesOf (me : option (gmap string fval)) : Overrides :=
  mkOverrides (d ← me; d !! "canChat") (d ← me; d !! "canCall").

(** [send], over the text of the input; the result is the text the
    input holds afterwards. *)
Definition send (text : string) : M string :=
  w ← get;
  match user (ui w) with
  | None => mret text
  | Some u =>
      if negb (truthy (Some (canChatNow w))) then mret text
      else
        let t := Invite.trim text in
        if bool_decide (t = "") then mret text
        else
          _ ← addDocM (messagesColl (roomId (ui w)))
                {[ "text" := FStr t;
                   "uid" := FStr (uid u);
                   "name" := nameOf u;
                   "createdAt" := FServerTimestamp ]};
          mret ""
  end.

(** [updateRoomSetting]; the result is the text of [savingSettings]
    when the call returns, [None] when it was not touched.  The timers
    that clear the text later are left out. *)
Definition updateRoomSetting (patch : gmap string fval) : M (option string) :=
  w ← get;
  if negb (isAdmin (myRole (ui w))) then mret None
  else if bool_decide (roomId (ui w) = "") then mret None
  else fun w0 =>
    match updateDocM (roomRef (roomId (ui w))) patch w0 with
    | (Ok _, w') => (Ok (Some "Salvato ✅"), w')
    | (Throw _, w') => (Ok (Some "Errore salvando."), w')
    end.

(** The object of a settings button: [{ k: !(room?.k ?? dflt) }]. *)
Definition toggled (r : option (gmap string fval)) (k : string) (dflt : bool) :
    gmap string fval :=
  {[ k := FBool (negb (truthy (Some (coalesce (d ← r; d !! k) (FBool dflt))))) ]}.

(** The four settings buttons. *)
Definition clickSetting (k : string) (dflt : bool) : M (option string) :=
  w ← get; updateRoomSetting (toggled (room (ui w)) k dflt).
Definition clickDefaultCanChat : M (option string) := clickSetting "defaultCanChat" true.
Definition clickDefaultCanCall : M (option string) := clickSetting "defaultCanCall" true.
Definition clickLockChat : M (option string) := clickSetting "lockChat" false.
Definition clickLockCalls : M (option string) := clickSetting "lockCalls" false.

(** The [beforeunload] handler. *)
Definition onBeforeUnload : M unit :=
  w ← get;
  tryCatch
    (match currentUser w with
     | Some u =>
         when (negb (bool_decide (roomId (ui w) = "")))
           (deleteDocM (voiceMemberRef (roomId (ui w)) (uid u)))
     | None => mret tt
     end).

End RoomPageRest.

Module OlderRoomPageRest.

Import RoomPage.

(** [typeof v === "boolean" ? !v : false] *)
Definition nextOverride (v : option fval) : bool :=
  match v with
  | Some (FBool b) => negb b
  | _ => false
  end.

(** The three buttons of a row of the members list, [m] being the member
    of the row. *)
Definition clickChatOverride (m : gmap string fval) : M unit :=
  if strict_eq (m !! "role") (Some (FStr "admin")) then mret tt
  else
    w ← get;
    u ← pathSegment (m !! "uid");
    updateDocM (memberRef (roomId (ui w)) u) {[ "canChat" := FBool (nextOverride (m !! "canChat")) ]}.

Definition clickCallOverride (m : gmap string fval) : M unit :=
  if strict_eq (m !! "role") (Some (FStr "admin")) then mret tt
  else
    w ← get;
    u ← pathSegment (m !! "uid");
    updateDocM (memberRef (roomId (ui w)) u) {[ "canCall" := FBool (nextOverride (m !! "canCall")) ]}.

Definition clickResetOverride (m : gmap string fval) : M unit :=
  if strict_eq (m !! "role") (Some (FStr "admin")) then mret tt
  else
    w ← get;
    u ← pathSegment (m !! "uid");
    updateDocM (memberRef (roomId (ui w)) u) {[ "canChat" := FNull; "canCall" := FNull ]}.

End OlderRoomPageRest.

(* ===================================================================== *)
(** * The browser: local storage                                           *)
(* ===================================================================== *)

Module Browser.

(** A value of a stored JSON object.  Numbers, arrays and objects are
    never looked into and are not told apart. *)
Inductive jval : Type :=
| JNull
| JBool (b : bool)
| JStr (s : string)
| JOther.

#[global] Instance jval_eq_dec : EqDecision jval.
Proof. solve_decision. Defined.

(** An element of a stored JSON array: an object, or anything else. *)
Inductive entry : Type :=
| EObj (o : gmap string jval)
| EOther.

#[global] Instance entry_eq_dec : EqDecision entry.
Proof. solve_decision. Defined.

(** The item [scouthub.rooms.v1]: absent, a text that is empty, is not
    JSON or is not an array, or the array it parses to.  What
    [JSON.stringify] writes is kept as what [JSON.parse] reads back. *)
Inductive roomsItem : Type :=
| Absent
| Unusable
| Parsed (l : list entry).

#[global] Instance roomsItem_eq_dec : EqDecision roomsItem.
Proof. solve_decision. Defined.

(** [localStorage], over the items the application uses.  Reading or
    writing throws when the storage is not readable or not writable. *)
Record LocalStorage : Type := mkLs {
  rooms : roomsItem;
  themeV1 : option string;
  themeOld : option string;
  readable : bool;
  writable : bool
}.

#[global] Instance LocalStorage_eq_dec : EqDecision LocalStorage.
Proof. solve_decision. Defined.

Definition withRooms (r : roomsItem) (ls : LocalStorage) : LocalStorage :=
  mkLs r (themeV1 ls) (themeOld ls) (readable ls) (writable ls).
Definition withThemeV1 (t : option string) (ls : LocalStorage) : LocalStorage :=
  mkLs (rooms ls) t (themeOld ls) (readable ls) (writable ls).
Definition withThemeOld (t : option string) (ls : LocalStorage) : LocalStorage :=
  mkLs (rooms ls) (themeV1 ls) t (readable ls) (writable ls).

End Browser.
Export Browser.

(* ===================================================================== *)
(** * Saved rooms                                                          *)
(* ===================================================================== *)

Module SavedRooms.

(** [x && typeof x.id === "string"] *)
Definition keeps (x : entry) : option (gmap string jval) :=
  match x with
  | EObj o =>
      match o !! "id" with
      | Some (JStr _) => Some o
      | _ => None
      end
  | EOther => None
  end.

Definition loadSavedRooms (ls : LocalStorage) : list (gmap string jval) :=
  if negb (readable ls) then []
  else match rooms ls with
       | Parsed l => omap keeps l
       | _ => []
       end.

Definition saveRooms (list : list (gmap string jval)) (ls : LocalStorage) : LocalStorage :=
  if writable ls then withRooms (Parsed (EObj <$> list)) ls else ls.

(** [r.id], a string for every room that [loadSavedRooms] returns. *)
Definition idOf (r : gmap string jval) : string :=
  match r !! "id" with
  | Some (JStr s) => s
  | _ => ""
  end.

(** [r] has a string under [id]. *)
Definition hasId (r : gmap string jval) : Prop := r !! "id" = Some (JStr (idOf r)).

(** A [Map] with string keys, in insertion order. *)
Fixpoint mapSet (k : string) (v : gmap string jval) (m : list (string * gmap string jval)) :
    list (string * gmap string jval) :=
  match m with
  | [] => [(k, v)]
  | (k', v') :: m' =>
      if bool_decide (k' = k) then (k, v) :: m' else (k', v') :: mapSet k v m'
  end.

Fixpoint mapGet (k : string) (m : list (string * gmap string jval)) :
    option (gmap string jval) :=
  match m with
  | [] => None
  | (k', v') :: m' => if bool_decide (k' = k) then Some v' else mapGet k m'
  end.

(** [cur.forEach((r) => byId.set(r.id, r))] from the empty map. *)
Definition byIdOf (cur : list (gmap string jval)) : list (string * gmap string jval) :=
  fold_left (fun m r => mapSet (idOf r) r m) cur [].

(** [upsertRoom({ id, ...rest })]: a property of [rest] whose value is
    [None] is present with the value [undefined]; it hides the property
    of the previous object and is dropped when the list is written. *)
Definition upsertRoom (id : string) (rest : gmap string (option jval)) (ls : LocalStorage) :
    LocalStorage :=
  let cur := loadSavedRooms ls in
  let byId := byIdOf cur in
  let prev := default {[ "id" := JStr id ]} (mapGet id byId) in
  let room := <["id" := Some (JStr id)]> rest in
  let merged := omap (fun v : option jval => v) (room ∪ (Some <$> prev)) in
  saveRooms (snd <$> mapSet id merged byId) ls.

(** [openRoom] and [forgetRoom] of the home page, on the storage. *)
Definition openRoom (id : string) (ls : LocalStorage) : LocalStorage := upsertRoom id ∅ ls.

Definition forgetRoom (id : string) (ls : LocalStorage) : LocalStorage :=
  saveRooms (filter (fun r => idOf r ≠ id) (loadSavedRooms ls)) ls.

(** A field of a room document as a property of a saved room. *)
Definition toJson (v : option fval) : option jval :=
  match v with
  | None => None
  | Some FNull => Some JNull
  | Some (FBool b) => Some (JBool b)
  | Some (FStr s) => Some (JStr s)
  | Some _ => Some JOther
  end.

End SavedRooms.

(* ===================================================================== *)
(** * The home page and the join page                                      *)
(* ===================================================================== *)

Module HomePage.

Import SavedRooms.

(** What [createRoom] leaves besides the store: the room it goes to,
    the generator and the storage. *)
Record Created : Type := mkCreated {
  createdId : string;
  createdCode : string;
  createdRng : Invite.Rng;
  createdStorage : LocalStorage
}.

Definition createRoom (roomName : string) (g : Invite.Rng) (ls : LocalStorage) :
    M (option Created) :=
  w ← get;
  match currentUser w with
  | None => mret None
  | Some u =>
      let r := Invite.randomCode 6 g in
      let code := fst r in
      let name := if bool_decide (Invite.trim roomName = "") then "Room"
                  else Invite.trim roomName in
      id ← addDocM ["rooms"] (Invite.newRoomDoc name code (uid u));
      mret (Some (mkCreated id code (snd r)
                    (upsertRoom id {[ "name" := Some (JStr name);
                                      "joinCode" := Some (JStr code) ]} ls)))
  end.

End HomePage.

Module JoinPage.

Import SavedRooms.

(** The id of a document of the collection [rooms]. *)
Definition roomIdOf (p : list string) : option string :=
  match p with
  | [c; id] => if bool_decide (c = "rooms") then Some id else None
  | _ => None
  end.

(** The documents of [query(collection(db, "rooms"), where("joinCode",
    "==", code))]. *)
Definition matchesOf (code : string) (st : Store) : list (string * gmap string fval) :=
  omap (fun pd : list string * gmap string fval =>
          id ← roomIdOf (fst pd);
          if Invite.matchesJoinCode code (snd pd) then Some (id, snd pd) else None)
       (map_to_list (docs st)).

Definition earlier (a b : string * gmap string fval) : string * gmap string fval :=
  if String.leb (fst a) (fst b) then a else b.

(** [snap.docs[0]]: the results come ordered by document id. *)
Definition firstOf (l : list (string * gmap string fval)) : option (string * gmap string fval) :=
  foldr (fun x acc => Some (match acc with
                            | None => x
                            | Some y => earlier x y
                            end)) None l.

Inductive Outcome : Type :=
| Status (msg : string)
| Go (roomId : string) (ls : LocalStorage).

(** The effect of the join page, from the [code] parameter of the
    address. *)
Definition run (param : option string) (ls : LocalStorage) : M Outcome :=
  match Invite.joinPageCode param with
  | None => mret (Status "Codice mancante.")
  | Some code =>
      w ← get;
      match firstOf (matchesOf code (store w)) with
      | None => mret (Status "Nessuna room trovata con questo codice.")
      | Some (roomId, data) =>
          mret (Go roomId
                  (upsertRoom roomId {[ "name" := toJson (data !! "name");
                                        "joinCode" := toJson (data !! "joinCode") ]} ls))
      end
  end.

End JoinPage.

(* ===================================================================== *)
(** * Theme                                                                *)
(* ===================================================================== *)

Module Theme.

(** The providers of the application: the state [theme] is ["light"] or
    ["dark"]. *)
Definition initial (prefersDark : bool) (ls : LocalStorage) : string :=
  let saved := if readable ls then themeV1 ls else None in
  match saved with
  | Some s =>
      if bool_decide (s = "light") || bool_decide (s = "dark") then s
      else if prefersDark then "dark" else "light"
  | None => if prefersDark then "dark" else "light"
  end.

(** The effect that runs whenever [theme] changes. *)
Definition persist (theme : string) (ls : LocalStorage) : LocalStorage :=
  if writable ls then withThemeV1 (Some theme) ls else ls.

Definition toggleTheme (p : string) : string :=
  if bool_decide (p = "dark") then "light" else "dark".

(** Mounting the providers: the first effect reads the theme to use, the
    second one runs for the state of the first render, ["light"], and
    again once the state holds the theme read. *)
Definition mount (prefersDark : bool) (ls : LocalStorage) : string * LocalStorage :=
  let t := initial prefersDark ls in
  (t, persist t (persist "light" ls)).

(** The older providers: one item, [scouthub.theme], and no system
    preference. *)
Definition initialOld (ls : LocalStorage) : string :=
  if negb (readable ls) then "light"
  else if bool_decide (themeOld ls = Some "dark") then "dark" else "light".

Definition setThemeOld (t : string) (ls : LocalStorage) : string * LocalStorage :=
  (t, if writable ls then withThemeOld (Some t) ls else ls).

Definition toggleThemeOld (theme : string) (ls : LocalStorage) : string * LocalStorage :=
  setThemeOld (if bool_decide (theme = "dark") then "light" else "dark") ls.

End Theme.

(* ===================================================================== *)
(** * The calendar page                                                    *)
(* ===================================================================== *)

Module Calendar.

Record Form : Type := mkForm {
  title : string;
  place : string;
  date : string;
  description : string
}.

#[global] Instance Form_eq_dec : EqDecision Form.
Proof. solve_decision. Defined.

Definition eventRef (id : string) : list string := ["events"; id].

(** [createEvent]: the form afterwards and the alert shown, if any. *)
Definition createEvent (f : Form) : M (Form * option string) :=
  w ← get;
  match user (ui w) with
  | None => mret (f, Some "Devi fare login per creare eventi.")
  | Some u =>
      if bool_decide (Invite.trim (title f) = "") || bool_decide (Invite.trim (date f) = "")
      then mret (f, Some "Titolo e data sono obbligatori.")
      else
        _ ← addDocM ["events"]
              {[ "title" := FStr (Invite.trim (title f));
                 "place" := FStr (Invite.trim (place f));
                 "date" := FStr (Invite.trim (date f));
                 "description" := FStr (Invite.trim (description f));
                 "createdAt" := FServerTimestamp;
                 "createdBy" := FStr (uid u) ]};
        mret (mkForm "" "" "" "", None)
  end.

(** [removeEvent], [confirmed] being the answer to the dialog. *)
Definition removeEvent (id : string) (confirmed : bool) : M unit :=
  w ← get;
  match user (ui w) with
  | None => mret tt
  | Some _ => if confirmed then deleteDocM (eventRef id) else mret tt
  end.

(** [v || ""] *)
Definition orEmpty (v : option fval) : fval :=
  match v with
  | Some x => if truthy v then x else FStr ""
  | None => FStr ""
  end.

(** An event of the list, from a document of the snapshot. *)
Record ScoutEvent : Type := mkEvent {
  evId : string;
  evTitle : fval;
  evPlace : fval;
  evDate : fval;
  evDescription : fval;
  evCreatedAt : option fval;
  evCreatedBy : option fval
}.

Definition eventOf (d : string * gmap string fval) : ScoutEvent :=
  mkEvent (fst d)
    (orEmpty (snd d !! "title")) (orEmpty (snd d !! "place"))
    (orEmpty (snd d !! "date")) (orEmpty (snd d !! "description"))
    (snd d !! "createdAt") (snd d !! "createdBy").

Definition onEventsSnapshot (docs : list (string * gmap string fval)) : list ScoutEvent :=
  eventOf <$> docs.

End Calendar.


(* ===================================================================== *)
(** * More sample worlds                                                   *)
(* ===================================================================== *)

Module Scenes.

Import RoomPage.

(** [alice] in the room once [bob] has entered the voice channel. *)
Definition aliceAfterBob : World :=
  mkWorld (store (snd (enterVoice Sample.bobMic))) (Some Sample.alice)
    (Sample.uiOf Sample.alice "admin") (Sample.mediaOf true).

(** [bob] in the room once [alice] has closed the voice channel. *)
Definition bobAfterClosing : World :=
  mkWorld (store (snd (closeVoiceForAll Sample.aliceAdmin))) (Some Sample.bob)
    (Sample.uiOf Sample.bob "member") (Sample.mediaOf true).

(** The member document of [bob] and his row of the members list. *)
Definition bobRow : gmap string fval :=
  {[ "uid" := FStr "bob"; "name" := FStr "Bob"; "role" := FStr "member";
     "canChat" := FBool true; "canCall" := FBool true ]}.

(** [alice] as administrator of a room that [bob] has joined. *)
Definition aliceWithBob : World :=
  mkWorld (mkStore (<[ ["rooms"; "r1"; "members"; "bob"] := bobRow ]> (docs Sample.store1)) 1 0)
    (Some Sample.alice) (Sample.uiOf Sample.alice "admin") (Sample.mediaOf true).

(** A device that has saved two rooms, with an element between them
    that is no room. *)
Definition savedR1 : gmap string jval := {[ "id" := JStr "r1"; "name" := JStr "Reparto" ]}.
Definition savedR2 : gmap string jval := {[ "id" := JStr "r2"; "joinCode" := JStr "AB23CD" ]}.
Definition device : LocalStorage :=
  mkLs (Parsed [EObj savedR1; EOther; EObj savedR2]) None None true true.

(** The form of the calendar page, filled in. *)
Definition form : Calendar.Form :=
  Calendar.mkForm " Uscita al lago " "Lago" "2026-06-01T09:00" "".

End Scenes.
(* ===================================================================== *)
(** * Permission resolution                                                *)
(* ===================================================================== *)

Section PermissionFacts.

Variables (u : User) (r : gmap string fval) (myRole : string) (ov : Overrides).

Lemma isAdmin_false : myRole ≠ "admin" → isAdmin myRole = false.
Proof. intros H. unfold isAdmin. by rewrite bool_decide_eq_false. Qed.

Lemma chat_of_member :
  myRole ≠ "admin" →
  effectiveCanChat (Some u) (Some r) myRole ov =
    if truthy (r !! "lockChat") then FBool false
    else match canChat ov with
         | Some (FBool b) => FBool b
         | _ => coalesce (r !! "defaultCanChat") (FBool true)
         end.
Proof. intros H. unfold effectiveCanChat. by rewrite (isAdmin_false H). Qed.

Lemma call_of_member :
  myRole ≠ "admin" →
  effectiveCanCall (Some u) (Some r) myRole ov =
    if truthy (r !! "lockCalls") then FBool false
    else match canCall ov with
         | Some (FBool b) => FBool b
         | _ => coalesce (r !! "defaultCanCall") (FBool true)
         end.
Proof. intros H. unfold effectiveCanCall. by rewrite (isAdmin_false H). Qed.

End PermissionFacts.

Lemma not_boolean_falls_through (o : option fval) (d : fval) :
  typeof_boolean o = false →
  match o with
  | Some (FBool b) => FBool b
  | _ => d
  end = d.
Proof. destruct o as [[]|]; simpl; congruence. Qed.

(** C3: for an authenticated user who is not the admin, in a room whose
    lock for the capability is off, the resolver returns the override
    when the override is a boolean, even against the room default, and
    the room default when the override is unset (absent or [null]); a
    room without stored default counts as [true]. *)
Theorem override_then_default_when_unlocked
    (u : User) (r : gmap string fval) (myRole : string) (ov : Overrides) :
  myRole ≠ "admin" →
  (truthy (r !! "lockCalls") = false →
     (∀ b, canCall ov = Some (FBool b) →
        effectiveCanCall (Some u) (Some r) myRole ov = FBool b) ∧
     (typeof_boolean (canCall ov) = false →
        effectiveCanCall (Some u) (Some r) myRole ov = coalesce (r !! "defaultCanCall") (FBool true)) ∧
     (∀ d, typeof_boolean (canCall ov) = false → r !! "defaultCanCall" = Some (FBool d) →
        effectiveCanCall (Some u) (Some r) myRole ov = FBool d)) ∧
  (truthy (r !! "lockChat") = false →
     (∀ b, canChat ov = Some (FBool b) →
        effectiveCanChat (Some u) (Some r) myRole ov = FBool b) ∧
     (typeof_boolean (canChat ov) = false →
        effectiveCanChat (Some u) (Some r) myRole ov = coalesce (r !! "defaultCanChat") (FBool true)) ∧
     (∀ d, typeof_boolean (canChat ov) = false → r !! "defaultCanChat" = Some (FBool d) →
        effectiveCanChat (Some u) (Some r) myRole ov = FBool d)).
Proof.
  intros Hrole. split; intros Hlock.
  - rewrite (call_of_member u r myRole ov Hrole), Hlock. split; [|split].
    + intros b ->. reflexivity.
    + apply not_boolean_falls_through.
    + intros d Hov Hd. rewrite (not_boolean_falls_through _ _ Hov), Hd. reflexivity.
  - rewrite (chat_of_member u r myRole ov Hrole), Hlock. split; [|split].
    + intros b ->. reflexivity.
    + apply not_boolean_falls_through.
    + intros d Hov Hd. rewrite (not_boolean_falls_through _ _ Hov), Hd. reflexivity.
Qed.

Lemma override_then_default_when_unlocked_witness :
  effectiveCanCall (Some Sample.bob) (Some Sample.room1) "member"
    (mkOverrides None (Some (FBool false))) = FBool false ∧
  effectiveCanCall (Some Sample.bob) (Some Sample.room1) "member"
    (mkOverrides None None) = FBool true ∧
  effectiveCanChat (Some Sample.bob) (Some (<["defaultCanChat" := FBool false]> Sample.room1))
    "member" (mkOverrides (Some FNull) None) = FBool false.
Proof.
  assert (Hm : "member" ≠ "admin") by discriminate.
  split; [|split].
  - destruct (override_then_default_when_unlocked Sample.bob Sample.room1 "member"
                (mkOverrides None (Some (FBool false))) Hm) as [Hcall _].
    destruct (Hcall eq_refl) as (Hov & _ & _). exact (Hov false eq_refl).
  - destruct (override_then_default_when_unlocked Sample.bob Sample.room1 "member"
                (mkOverrides None None) Hm) as [Hcall _].
    destruct (Hcall eq_refl) as (_ & _ & Hdef). exact (Hdef true eq_refl eq_refl).
  - destruct (override_then_default_when_unlocked Sample.bob
                (<["defaultCanChat" := FBool false]> Sample.room1) "member"
                (mkOverrides (Some FNull) None) Hm) as [_ Hchat].
    destruct (Hchat eq_refl) as (_ & _ & Hdef). exact (Hdef false eq_refl eq_refl).
Defined.

(** C4: with [lockChat] set, the chat capability of whoever is not the
    admin resolves to [false], whatever the override and the room
    default. *)
Theorem locked_chat_denies_members
    (user : option User) (r : gmap string fval) (myRole : string) (ov : Overrides) :
  r !! "lockChat" = Some (FBool true) →
  myRole ≠ "admin" →
  effectiveCanChat user (Some r) myRole ov = FBool false.
Proof.
  intros Hlock Hrole. destruct user as [u|]; [|reflexivity].
  rewrite (chat_of_member u r myRole ov Hrole), Hlock. reflexivity.
Qed.

Lemma locked_chat_denies_members_witness :
  effectiveCanChat (Some Sample.bob) (Some Sample.lockedRoom) "member"
    (mkOverrides (Some (FBool true)) None) = FBool false.
Proof.
  apply (locked_chat_denies_members (Some Sample.bob) Sample.lockedRoom "member").
  - reflexivity.
  - discriminate.
Defined.

(** C5: for the admin, signed in, in a loaded room, both capabilities
    resolve to [true], whatever the locks, the defaults and the
    overrides. *)
Theorem admin_always_allowed (u : User) (r : gmap string fval) (ov : Overrides) :
  effectiveCanChat (Some u) (Some r) "admin" ov = FBool true ∧
  effectiveCanCall (Some u) (Some r) "admin" ov = FBool true.
Proof. split; reflexivity. Qed.

(* ===================================================================== *)
(** * Teardown                                                             *)
(* ===================================================================== *)

Import RoomPage.

Ltac run :=
  unfold mbind, mret, M_bind, M_ret, get, modify, tryCatch, catch, when, throw in *.

Ltac setters :=
  unfold pcClose, logCall, stopTrackState, setPcs, setPcRef, setLocalStreamRef,
    setRemoteSrcObject, setInVoice, setCallStatus, setVoiceStatus, setVoiceCallId,
    setStatus, setRoom, setCallId in *.

(** Stopping the tracks of a stream never throws; it adds them to the
    stopped tracks and logs one call per track. *)
Lemma forEach_trackStop (ts : list nat) (w : World) :
  ∃ w', forEach trackStop ts w = (Ok tt, w') ∧
    store w' = store w ∧ currentUser w' = currentUser w ∧ ui w' = ui w ∧
    media w' = mkMedia (micGranted (media w)) (pcs (media w)) (nextHandle (media w))
                 (list_to_set ts ∪ stoppedTracks (media w)) (pcRef (media w))
                 (localStreamRef (media w)) (remoteAudioMounted (media w))
                 (remoteSrcObject (media w)) (subscriptions (media w))
                 (mediaLog (media w) ++ map TrackStop ts)%list.
Proof.
  revert w. induction ts as [|t ts IH]; intros w.
  - exists w. destruct w as [st cu u []]. simpl. repeat split.
    f_equal; [by rewrite (left_id_L ∅ (∪)) | by rewrite app_nil_r].
  - destruct (IH (snd (trackStop t w))) as (w' & Hrun & Hst & Hcu & Hui & Hm).
    exists w'. simpl. unfold mbind, M_bind at 1.
    destruct w as [st cu u []]. simpl in *.
    unfold trackStop in *. setters. run. simpl in *.
    rewrite Hrun. repeat split; try assumption.
    rewrite Hm. simpl. f_equal; [| by rewrite <- app_assoc].
    rewrite (assoc_L (∪)), (comm_L (∪) (list_to_set ts) {[t]}). reflexivity.
Qed.

Ltac stop_tracks :=
  try match goal with
      | |- context [forEach trackStop ?ts ?w] =>
          let w' := fresh "w" in
          let Hst := fresh "Hst" in
          let Hcu := fresh "Hcu" in
          let Hui := fresh "Hui" in
          let Hm := fresh "Hm" in
          destruct (forEach_trackStop ts w) as (w' & -> & Hst & Hcu & Hui & Hm);
          destruct w' as [? ? ? ?]; simpl in *; subst
      end.

(** What [cleanupCall] leaves: it never throws, closes the connection
    under [pcRef], stops the tracks under [localStreamRef], clears both
    refs and the remote audio source, and leaves voice. *)
Lemma cleanupCall_runs (w : World) :
  cleanupCall w =
    (Ok tt,
     mkWorld (store w) (currentUser w)
       (mkUi (user (ui w)) (roomId (ui w)) (room (ui w)) (status (ui w)) (myRole (ui w))
             (myOverrides (ui w)) (voiceCallId (ui w)) (voiceStatus (ui w)) false
             (callId (ui w)) (callStatus (ui w)))
       (mkMedia (micGranted (media w))
          (match pcRef (media w) with
           | Some h => alter (fun p => mkPc true (senders p) (localDescription p)
                                (currentRemoteDescription p) (iceSink p) (remoteCandidates p)) h
                         (pcs (media w))
           | None => pcs (media w)
           end)
          (nextHandle (media w))
          (list_to_set (default [] (localStreamRef (media w))) ∪ stoppedTracks (media w))
          None None (remoteAudioMounted (media w))
          (if remoteAudioMounted (media w) then None else remoteSrcObject (media w))
          (subscriptions (media w))
          (mediaLog (media w) ++ match pcRef (media w) with Some h => [PcClose h] | None => [] end
             ++ map TrackStop (default [] (localStreamRef (media w))))%list)).
Proof.
  destruct w as [st cu u [mic ps nh stopped pr ls mounted src subs log]].
  unfold cleanupCall. run. simpl.
  destruct pr as [h|]; simpl; setters; run; simpl.
  all: destruct ls as [ts|]; simpl; stop_tracks.
  all: destruct mounted; simpl;
    rewrite ?app_nil_r, ?(left_id_L ∅ (∪)), <- ?app_assoc; reflexivity.
Qed.

Lemma older_cleanupCall_runs (w : World) :
  OlderRoomPage.cleanupCall w =
    (Ok tt,
     mkWorld (store w) (currentUser w)
       (mkUi (user (ui w)) (roomId (ui w)) (room (ui w)) (status (ui w)) (myRole (ui w))
             (myOverrides (ui w)) (voiceCallId (ui w)) (voiceStatus (ui w)) (inVoice (ui w))
             (callId (ui w)) "Chiamata chiusa.")
       (mkMedia (micGranted (media w))
          (match pcRef (media w) with
           | Some h => alter (fun p => mkPc true (senders p) (localDescription p)
                                (currentRemoteDescription p) (iceSink p) (remoteCandidates p)) h
                         (pcs (media w))
           | None => pcs (media w)
           end)
          (nextHandle (media w))
          (list_to_set (default [] (localStreamRef (media w))) ∪ stoppedTracks (media w))
          None None (remoteAudioMounted (media w)) (remoteSrcObject (media w))
          (subscriptions (media w))
          (mediaLog (media w) ++ match pcRef (media w) with Some h => [PcClose h] | None => [] end
             ++ map TrackStop (default [] (localStreamRef (media w))))%list)).
Proof.
  destruct w as [st cu u [mic ps nh stopped pr ls mounted src subs log]].
  unfold OlderRoomPage.cleanupCall. run. simpl.
  destruct pr as [h|]; simpl; setters; run; simpl.
  all: destruct ls as [ts|]; simpl; stop_tracks.
  all: simpl; rewrite ?app_nil_r, ?(left_id_L ∅ (∪)), <- ?app_assoc; reflexivity.
Qed.

(** C7: teardown is idempotent.  The first call never throws, closes the
    connection and stops the tracks the refs hold, and clears the refs;
    a second call in succession never throws and leaves the whole world
    as the first left it, the log of calls made on the media objects
    included: nothing is closed or stopped a second time.  The same
    holds of the older page. *)
Theorem cleanupCall_idempotent (w : World) :
  (fst (cleanupCall w) = Ok tt ∧
   cleanupCall (snd (cleanupCall w)) = (Ok tt, snd (cleanupCall w)) ∧
   pcRef (media (snd (cleanupCall w))) = None ∧
   localStreamRef (media (snd (cleanupCall w))) = None ∧
   (∀ h p, pcRef (media w) = Some h → pcs (media w) !! h = Some p →
      pcClosed <$> pcs (media (snd (cleanupCall w))) !! h = Some true) ∧
   (∀ ts t, localStreamRef (media w) = Some ts → t ∈ ts →
      t ∈ stoppedTracks (media (snd (cleanupCall w))))) ∧
  (fst (OlderRoomPage.cleanupCall w) = Ok tt ∧
   OlderRoomPage.cleanupCall (snd (OlderRoomPage.cleanupCall w)) =
     (Ok tt, snd (OlderRoomPage.cleanupCall w)) ∧
   pcRef (media (snd (OlderRoomPage.cleanupCall w))) = None ∧
   localStreamRef (media (snd (OlderRoomPage.cleanupCall w))) = None ∧
   (∀ h p, pcRef (media w) = Some h → pcs (media w) !! h = Some p →
      pcClosed <$> pcs (media (snd (OlderRoomPage.cleanupCall w))) !! h = Some true) ∧
   (∀ ts t, localStreamRef (media w) = Some ts → t ∈ ts →
      t ∈ stoppedTracks (media (snd (OlderRoomPage.cleanupCall w))))).
Proof.
  split.
  - rewrite (cleanupCall_runs w). simpl. split; [reflexivity|]. split.
    { rewrite cleanupCall_runs. simpl.
      rewrite (left_id_L ∅ (∪)), app_nil_r. by destruct (remoteAudioMounted (media w)). }
    split; [reflexivity|]. split; [reflexivity|]. split.
    + intros h p -> Hp. by rewrite lookup_alter_eq, Hp.
    + intros ts t -> Ht. simpl. apply elem_of_union. left. by apply elem_of_list_to_set.
  - rewrite (older_cleanupCall_runs w). simpl. split; [reflexivity|]. split.
    { rewrite older_cleanupCall_runs. simpl.
      by rewrite (left_id_L ∅ (∪)), app_nil_r. }
    split; [reflexivity|]. split; [reflexivity|]. split.
    + intros h p -> Hp. by rewrite lookup_alter_eq, Hp.
    + intros ts t -> Ht. simpl. apply elem_of_union. left. by apply elem_of_list_to_set.
Qed.

Lemma cleanupCall_idempotent_witness :
  pcClosed <$> pcs (media (snd (cleanupCall Sample.aliceCalling))) !! 1 = Some true ∧
  0 ∈ stoppedTracks (media (snd (cleanupCall Sample.aliceCalling))) ∧
  cleanupCall (snd (cleanupCall Sample.aliceCalling)) =
    (Ok tt, snd (cleanupCall Sample.aliceCalling)).
Proof.
  destruct (cleanupCall_idempotent Sample.aliceCalling) as [(_ & Htwice & _ & _ & Hpc & Htr) _].
  split; [|split].
  - apply (Hpc 1 (mkPc false [0] (Some (FDesc "offer" "sdp-a")) None
                    (Some ["rooms"; "r1"; "calls"; "c1"; "offerCandidates"]) []));
      reflexivity.
  - apply (Htr [0] 0); [reflexivity | apply list_elem_of_here].
  - exact Htwice.
Defined.

(* ===================================================================== *)
(** * The answer on the caller side                                        *)
(* ===================================================================== *)

Lemma no_remote_in_stops (pc : nat) (ts : list nat) :
  filter (fun c => isSetRemoteOn pc c = true) (map TrackStop ts) = [].
Proof.
  induction ts as [|t ts IH]; [reflexivity|].
  simpl. rewrite filter_cons_False; [exact IH|]. simpl. discriminate.
Qed.

Lemma teardown_log_keeps_remote (pc : nat) (log : list MediaCall) (pr : option nat)
    (ts : list nat) :
  length (filter (fun c => isSetRemoteOn pc c = true)
            (log ++ match pr with Some h => [PcClose h] | None => [] end
                 ++ map TrackStop ts)%list) =
  length (filter (fun c => isSetRemoteOn pc c = true) log).
Proof.
  rewrite !filter_app, no_remote_in_stops, app_nil_r.
  destruct pr; simpl; [|by rewrite app_nil_r].
  rewrite filter_cons_False by (simpl; discriminate). by rewrite filter_nil, app_nil_r.
Qed.

Lemma close_keeps_remote (pc : nat) (pr : option nat) (ps : gmap nat PeerConnection) :
  (p ← match pr with
       | Some h => alter (fun p => mkPc true (senders p) (localDescription p)
                            (currentRemoteDescription p) (iceSink p) (remoteCandidates p)) h ps
       | None => ps
       end !! pc; currentRemoteDescription p) =
  (p ← ps !! pc; currentRemoteDescription p).
Proof.
  destruct pr as [h|]; [|reflexivity].
  destruct (decide (h = pc)) as [->|Hne].
  - rewrite lookup_alter_eq. by destruct (ps !! pc).
  - by rewrite lookup_alter_ne.
Qed.

(** Teardown neither applies a remote description nor forgets one. *)
Lemma cleanupCall_keeps_remote (pc : nat) (w : World) :
  remoteApplications pc (snd (cleanupCall w)) = remoteApplications pc w ∧
  remoteOf pc (snd (cleanupCall w)) = remoteOf pc w.
Proof.
  rewrite cleanupCall_runs. unfold remoteApplications, remoteOf. simpl. split.
  - apply teardown_log_keeps_remote.
  - apply close_keeps_remote.
Qed.

Lemma older_cleanupCall_keeps_remote (pc : nat) (w : World) :
  remoteApplications pc (snd (OlderRoomPage.cleanupCall w)) = remoteApplications pc w ∧
  remoteOf pc (snd (OlderRoomPage.cleanupCall w)) = remoteOf pc w.
Proof.
  rewrite older_cleanupCall_runs. unfold remoteApplications, remoteOf. simpl. split.
  - apply teardown_log_keeps_remote.
  - apply close_keeps_remote.
Qed.

(** Once the connection holds a remote description, a delivery applies
    nothing, whatever the snapshot. *)
Lemma onCallerSnapshot_settled (pc : nat) (snap : option (gmap string fval)) (w : World) :
  remoteOf pc w ≠ None →
  remoteApplications pc (snd (onCallerSnapshot pc snap w)) = remoteApplications pc w ∧
  remoteOf pc (snd (onCallerSnapshot pc snap w)) = remoteOf pc w.
Proof.
  intros Hcrd. unfold onCallerSnapshot. destruct snap as [data|]; [|by split].
  unfold getCurrentRemoteDescription. run. simpl.
  fold (remoteOf pc w). rewrite (bool_decide_eq_false_2 _ Hcrd). simpl.
  destruct (strict_eq (data !! "status") (Some (FStr "ended"))); [|by split].
  setters. run. simpl.
  match goal with
  | |- context [cleanupCall ?w0] => destruct (cleanupCall_keeps_remote pc w0) as [Ha Hr]
  end.
  split; assumption.
Qed.

Lemma older_onCallSnapshot_settled (pc : nat) (snap : option (gmap string fval)) (w : World) :
  remoteOf pc w ≠ None →
  remoteApplications pc (snd (OlderRoomPage.onCallSnapshot pc snap w)) = remoteApplications pc w ∧
  remoteOf pc (snd (OlderRoomPage.onCallSnapshot pc snap w)) = remoteOf pc w.
Proof.
  intros Hcrd. unfold OlderRoomPage.onCallSnapshot. destruct snap as [data|]; [|by split].
  unfold getCurrentRemoteDescription. run. simpl.
  fold (remoteOf pc w). rewrite (bool_decide_eq_false_2 _ Hcrd). simpl.
  destruct (strict_eq (data !! "status") (Some (FStr "ended"))); [|by split].
  apply older_cleanupCall_keeps_remote.
Qed.

Section Deliveries.

Variable h : option (gmap string fval) -> M unit.
Variable pc : nat.
Hypothesis h_settled : ∀ snap w,
  remoteOf pc w ≠ None →
  remoteApplications pc (snd (h snap w)) = remoteApplications pc w ∧
  remoteOf pc (snd (h snap w)) = remoteOf pc w.

Lemma deliver_settled (snaps : list (option (gmap string fval))) (w : World) :
  remoteOf pc w ≠ None →
  remoteApplications pc (deliver h snaps w) = remoteApplications pc w ∧
  remoteOf pc (deliver h snaps w) = remoteOf pc w.
Proof.
  revert w. induction snaps as [|s rest IH]; intros w Hcrd; [by split|].
  simpl. destruct (h_settled s w Hcrd) as [Ha Hr].
  destruct (IH (snd (h s w))) as [Ha' Hr']; [by rewrite Hr|].
  split; congruence.
Qed.

Lemma deliver_after_first (first : option (gmap string fval))
    (more : list (option (gmap string fval))) (d : fval) (w : World) :
  remoteApplications pc (snd (h first w)) = S (remoteApplications pc w) →
  remoteOf pc (snd (h first w)) = Some d →
  remoteApplications pc (deliver h (first :: more) w) = S (remoteApplications pc w) ∧
  remoteOf pc (deliver h (first :: more) w) = Some d.
Proof.
  intros Ha Hr. simpl.
  destruct (deliver_settled more (snd (h first w))) as [Ha' Hr']; [by rewrite Hr|].
  split; congruence.
Qed.

End Deliveries.

(** The state right after the first application. *)
Lemma applied_once (pc : nat) (p : PeerConnection) (d : fval) (w w1 : World) :
  media w1 =
    mkMedia (micGranted (media w))
      (<[pc := mkPc false (senders p) (localDescription p) (Some d) (iceSink p)
                 (remoteCandidates p)]> (pcs (media w)))
      (nextHandle (media w)) (stoppedTracks (media w)) (pcRef (media w))
      (localStreamRef (media w)) (remoteAudioMounted (media w)) (remoteSrcObject (media w))
      (subscriptions (media w)) (mediaLog (media w) ++ [SetRemoteDescription pc d])%list →
  remoteApplications pc w1 = S (remoteApplications pc w) ∧ remoteOf pc w1 = Some d.
Proof.
  intros Hm. unfold remoteApplications, remoteOf. rewrite Hm. simpl. split.
  - rewrite filter_app, length_app.
    rewrite filter_cons_True by (simpl; by rewrite bool_decide_eq_true_2).
    simpl. lia.
  - by rewrite lookup_insert_eq.
Qed.

(** The first delivery of an answer to a live connection without remote
    description applies it. *)
Lemma onCallerSnapshot_first (pc : nat) (p : PeerConnection) (data : gmap string fval)
    (ty sdp : string) (w : World) :
  pcs (media w) !! pc = Some p → pcClosed p = false → currentRemoteDescription p = None →
  data !! "answer" = Some (FDesc ty sdp) →
  remoteApplications pc (snd (onCallerSnapshot pc (Some data) w)) = S (remoteApplications pc w) ∧
  remoteOf pc (snd (onCallerSnapshot pc (Some data) w)) = Some (FDesc ty sdp).
Proof.
  intros Hp Hopen Hcrd Hans. unfold onCallerSnapshot, getCurrentRemoteDescription. run. simpl.
  rewrite Hp. simpl. rewrite Hcrd, Hans. simpl.
  unfold setRemoteDescription. setters. run. simpl. rewrite Hp, Hopen. simpl.
  destruct (strict_eq (data !! "status") (Some (FStr "ended"))); simpl.
  - match goal with
    | |- context [cleanupCall ?w0] =>
        destruct (cleanupCall_keeps_remote pc w0) as [Ha Hr];
        destruct (applied_once pc p (FDesc ty sdp) w w0 eq_refl) as [Ha0 Hr0]
    end.
    split; congruence.
  - by apply (applied_once pc p).
Qed.

Lemma older_onCallSnapshot_first (pc : nat) (p : PeerConnection) (data : gmap string fval)
    (ty sdp : string) (w : World) :
  pcs (media w) !! pc = Some p → pcClosed p = false → currentRemoteDescription p = None →
  data !! "answer" = Some (FDesc ty sdp) →
  remoteApplications pc (snd (OlderRoomPage.onCallSnapshot pc (Some data) w)) =
    S (remoteApplications pc w) ∧
  remoteOf pc (snd (OlderRoomPage.onCallSnapshot pc (Some data) w)) = Some (FDesc ty sdp).
Proof.
  intros Hp Hopen Hcrd Hans.
  unfold OlderRoomPage.onCallSnapshot, getCurrentRemoteDescription. run. simpl.
  rewrite Hp. simpl. rewrite Hcrd, Hans. simpl.
  unfold setRemoteDescription. setters. run. simpl. rewrite Hp, Hopen. simpl.
  destruct (strict_eq (data !! "status") (Some (FStr "ended"))); simpl.
  - match goal with
    | |- context [OlderRoomPage.cleanupCall ?w0] =>
        destruct (older_cleanupCall_keeps_remote pc w0) as [Ha Hr];
        destruct (applied_once pc p (FDesc ty sdp) w w0 eq_refl) as [Ha0 Hr0]
    end.
    split; congruence.
  - by apply (applied_once pc p).
Qed.

(** Deliveries handled one after the other.  On the caller side, when
    the snapshot that carries the answer is delivered to a live
    connection without remote description, once or any number of times
    over, and whatever snapshots follow, the answer is applied as remote
    description exactly once and stays the remote description, provided
    each delivery is handled to its end before the next arrives: every
    delivery after the first then finds the description set and applies
    nothing.  The same holds of the listener of the older page. *)
Theorem answer_applied_exactly_once
    (w : World) (pc : nat) (p : PeerConnection) (data : gmap string fval) (ty sdp : string) :
  pcs (media w) !! pc = Some p →
  pcClosed p = false →
  currentRemoteDescription p = None →
  data !! "answer" = Some (FDesc ty sdp) →
  (∀ n,
     remoteApplications pc (deliver (onCallerSnapshot pc) (replicate (S n) (Some data)) w) =
       S (remoteApplications pc w) ∧
     remoteOf pc (deliver (onCallerSnapshot pc) (replicate (S n) (Some data)) w) =
       Some (FDesc ty sdp)) ∧
  (∀ more,
     remoteApplications pc (deliver (onCallerSnapshot pc) (Some data :: more) w) =
       S (remoteApplications pc w) ∧
     remoteOf pc (deliver (onCallerSnapshot pc) (Some data :: more) w) =
       Some (FDesc ty sdp)) ∧
  (∀ more,
     remoteApplications pc (deliver (OlderRoomPage.onCallSnapshot pc) (Some data :: more) w) =
       S (remoteApplications pc w) ∧
     remoteOf pc (deliver (OlderRoomPage.onCallSnapshot pc) (Some data :: more) w) =
       Some (FDesc ty sdp)).
Proof.
  intros Hp Hopen Hcrd Hans.
  destruct (onCallerSnapshot_first pc p data ty sdp w Hp Hopen Hcrd Hans) as [Ha Hr].
  destruct (older_onCallSnapshot_first pc p data ty sdp w Hp Hopen Hcrd Hans) as [Ha' Hr'].
  split; [|split].
  - intros n. change (replicate (S n) (Some data)) with (Some data :: replicate n (Some data)).
    apply deliver_after_first; [apply onCallerSnapshot_settled | exact Ha | exact Hr].
  - intros more.
    apply deliver_after_first; [apply onCallerSnapshot_settled | exact Ha | exact Hr].
  - intros more.
    apply deliver_after_first; [apply older_onCallSnapshot_settled | exact Ha' | exact Hr'].
Qed.

Lemma answer_applied_exactly_once_witness :
  remoteApplications 1
    (deliver (onCallerSnapshot 1) (replicate 3 (Some Sample.answeredCall)) Sample.aliceCalling) = 1 ∧
  remoteOf 1
    (deliver (onCallerSnapshot 1) (replicate 3 (Some Sample.answeredCall)) Sample.aliceCalling) =
    Some (FDesc "answer" "sdp-b").
Proof.
  apply (answer_applied_exactly_once Sample.aliceCalling 1
           (mkPc false [0] (Some (FDesc "offer" "sdp-a")) None
              (Some ["rooms"; "r1"; "calls"; "c1"; "offerCandidates"]) [])
           Sample.answeredCall "answer" "sdp-b"); reflexivity.
Defined.

(** ** Deliveries that overlap *)

(** The two ends of [setRemoteDescription], one after the other, are the
    operation taken at its settled value. *)
Lemma setRemoteDescription_split (h : nat) (d : option fval) (w : World) :
  (x ← callSetRemoteDescription h d; settleSetRemoteDescription h x) w =
  setRemoteDescription h d w.
Proof.
  unfold callSetRemoteDescription, settleSetRemoteDescription, setRemoteDescription.
  destruct d as [[]|]; reflexivity.
Qed.

(** The listener cut at its [await], resumed at once, is the listener
    that handles a delivery to its end. *)
Lemma onCallerSnapshot_split (pc : nat) (snap : option (gmap string fval)) (w : World) :
  (i ← onCallerSnapshotStart pc snap; onCallerSnapshotResume pc i) w =
  onCallerSnapshot pc snap w.
Proof.
  destruct snap as [data|]; [|reflexivity].
  unfold onCallerSnapshotStart, onCallerSnapshotResume, onCallerSnapshot,
    getCurrentRemoteDescription. run. cbn [fst snd].
  destruct (bool_decide _ && truthy (data !! "answer")); cbn [fst snd].
  - pose proof (setRemoteDescription_split pc (data !! "answer") w) as Hsplit.
    unfold mbind, M_bind in Hsplit. rewrite <- Hsplit.
    destruct (callSetRemoteDescription pc (data !! "answer") w) as [[d|e] w1]; [|reflexivity].
    destruct (settleSetRemoteDescription pc d w1) as [[[]|e] w2]; reflexivity.
  - destruct (strict_eq (data !! "status") (Some (FStr "ended"))); [|reflexivity].
    setters. run. cbn [fst snd].
    match goal with
    | |- context [cleanupCall ?w0] => by destruct (cleanupCall w0) as [[[]|e] w1]
    end.
Qed.

Lemma older_onCallSnapshot_split (pc : nat) (snap : option (gmap string fval)) (w : World) :
  (i ← OlderRoomPage.onCallSnapshotStart pc snap; OlderRoomPage.onCallSnapshotResume pc i) w =
  OlderRoomPage.onCallSnapshot pc snap w.
Proof.
  destruct snap as [data|]; [|reflexivity].
  unfold OlderRoomPage.onCallSnapshotStart, OlderRoomPage.onCallSnapshotResume,
    OlderRoomPage.onCallSnapshot, getCurrentRemoteDescription. run. cbn [fst snd].
  destruct (bool_decide _ && truthy (data !! "answer")); cbn [fst snd].
  - pose proof (setRemoteDescription_split pc (data !! "answer") w) as Hsplit.
    unfold mbind, M_bind in Hsplit. rewrite <- Hsplit.
    destruct (callSetRemoteDescription pc (data !! "answer") w) as [[d|e] w1]; [|reflexivity].
    destruct (settleSetRemoteDescription pc d w1) as [[[]|e] w2]; reflexivity.
  - destruct (strict_eq (data !! "status") (Some (FStr "ended"))); [|reflexivity].
    run. cbn [fst snd]. by destruct (OlderRoomPage.cleanupCall w) as [[[]|e] w1].
Qed.

(** The call of [setRemoteDescription] is logged and changes nothing
    else: the connection is as it was. *)
Lemma callSetRemoteDescription_runs (pc : nat) (ty sdp : string) (w : World) :
  ∃ w1, callSetRemoteDescription pc (Some (FDesc ty sdp)) w = (Ok (FDesc ty sdp), w1) ∧
    pcs (media w1) = pcs (media w) ∧
    remoteApplications pc w1 = S (remoteApplications pc w) ∧
    remoteOf pc w1 = remoteOf pc w.
Proof.
  unfold callSetRemoteDescription, logCall. run. eexists. split; [reflexivity|].
  unfold remoteApplications, remoteOf. cbn [media withMedia pcs mediaLog].
  split; [reflexivity|]. split; [|reflexivity].
  rewrite filter_app, length_app.
  rewrite filter_cons_True by (simpl; by rewrite bool_decide_eq_true_2).
  simpl. lia.
Qed.

(** An invocation that finds no remote description calls
    [setRemoteDescription] and is suspended. *)
Lemma onCallerSnapshotStart_unset (pc : nat) (p : PeerConnection) (data : gmap string fval)
    (ty sdp : string) (w : World) :
  pcs (media w) !! pc = Some p → currentRemoteDescription p = None →
  data !! "answer" = Some (FDesc ty sdp) →
  ∃ w1, onCallerSnapshotStart pc (Some data) w = (Ok (AwaitingRemote (FDesc ty sdp) data), w1) ∧
    pcs (media w1) = pcs (media w) ∧
    remoteApplications pc w1 = S (remoteApplications pc w) ∧
    remoteOf pc w1 = remoteOf pc w.
Proof.
  intros Hp Hcrd Hans.
  destruct (callSetRemoteDescription_runs pc ty sdp w) as (w1 & Hcall & Hrest).
  exists w1. split; [|exact Hrest].
  unfold onCallerSnapshotStart, getCurrentRemoteDescription. run. cbn [fst snd].
  rewrite Hp. cbn [mbind option_bind]. rewrite Hcrd, Hans.
  rewrite bool_decide_eq_true_2 by reflexivity. cbn [truthy andb]. by rewrite Hcall.
Qed.

Lemma older_onCallSnapshotStart_unset (pc : nat) (p : PeerConnection)
    (data : gmap string fval) (ty sdp : string) (w : World) :
  pcs (media w) !! pc = Some p → currentRemoteDescription p = None →
  data !! "answer" = Some (FDesc ty sdp) →
  ∃ w1, OlderRoomPage.onCallSnapshotStart pc (Some data) w =
          (Ok (AwaitingRemote (FDesc ty sdp) data), w1) ∧
    pcs (media w1) = pcs (media w) ∧
    remoteApplications pc w1 = S (remoteApplications pc w) ∧
    remoteOf pc w1 = remoteOf pc w.
Proof.
  intros Hp Hcrd Hans.
  destruct (callSetRemoteDescription_runs pc ty sdp w) as (w1 & Hcall & Hrest).
  exists w1. split; [|exact Hrest].
  unfold OlderRoomPage.onCallSnapshotStart, getCurrentRemoteDescription. run. cbn [fst snd].
  rewrite Hp. cbn [mbind option_bind]. rewrite Hcrd, Hans.
  rewrite bool_decide_eq_true_2 by reflexivity. cbn [truthy andb]. by rewrite Hcall.
Qed.

(** The settling of [setRemoteDescription] logs no call. *)
Lemma settleSetRemoteDescription_quiet (pc : nat) (d : fval) (w : World) :
  remoteApplications pc (snd (settleSetRemoteDescription pc d w)) = remoteApplications pc w.
Proof.
  unfold settleSetRemoteDescription. setters. run. cbn [fst snd].
  destruct (pcs (media w) !! pc) as [p|]; [|reflexivity].
  by destruct (pcClosed p).
Qed.

Lemma onCallerSnapshotResume_quiet (pc : nat) (i : Invocation) (w : World) :
  remoteApplications pc (snd (onCallerSnapshotResume pc i w)) = remoteApplications pc w.
Proof.
  destruct i as [|d data]; [reflexivity|].
  unfold onCallerSnapshotResume. unfold mbind at 1. unfold M_bind at 1.
  pose proof (settleSetRemoteDescription_quiet pc d w) as Hsettle.
  destruct (settleSetRemoteDescription pc d w) as [[[]|e] w1]; cbn [snd] in *; [|exact Hsettle].
  setters. run. cbn [fst snd].
  destruct (strict_eq (data !! "status") (Some (FStr "ended"))); cbn [fst snd].
  - match goal with
    | |- context [cleanupCall ?w0] => destruct (cleanupCall_keeps_remote pc w0) as [Ha _]
    end.
    rewrite Ha. exact Hsettle.
  - exact Hsettle.
Qed.

Lemma older_onCallSnapshotResume_quiet (pc : nat) (i : Invocation) (w : World) :
  remoteApplications pc (snd (OlderRoomPage.onCallSnapshotResume pc i w)) =
  remoteApplications pc w.
Proof.
  destruct i as [|d data]; [reflexivity|].
  unfold OlderRoomPage.onCallSnapshotResume. unfold mbind at 1. unfold M_bind at 1.
  pose proof (settleSetRemoteDescription_quiet pc d w) as Hsettle.
  destruct (settleSetRemoteDescription pc d w) as [[[]|e] w1]; cbn [snd] in *; [|exact Hsettle].
  setters. run. cbn [fst snd].
  destruct (strict_eq (data !! "status") (Some (FStr "ended"))); cbn [fst snd].
  - match goal with
    | |- context [OlderRoomPage.cleanupCall ?w0] =>
        destruct (older_cleanupCall_keeps_remote pc w0) as [Ha _]
    end.
    rewrite Ha. exact Hsettle.
  - exact Hsettle.
Qed.

Section Overlap.

Variable start : option (gmap string fval) -> M Invocation.
Variable resume : Invocation -> M unit.
Variable pc : nat.
Variable p : PeerConnection.
Variable data : gmap string fval.
Variable d : fval.
Hypothesis start_unset : ∀ w,
  pcs (media w) !! pc = Some p →
  ∃ w1, start (Some data) w = (Ok (AwaitingRemote d data), w1) ∧
    pcs (media w1) = pcs (media w) ∧
    remoteApplications pc w1 = S (remoteApplications pc w) ∧
    remoteOf pc w1 = remoteOf pc w.
Hypothesis resume_quiet : ∀ i w,
  remoteApplications pc (snd (resume i w)) = remoteApplications pc w.

Lemma resumed_quiet (invs : list Invocation) (w : World) :
  remoteApplications pc (deliver resume invs w) = remoteApplications pc w.
Proof.
  revert w. induction invs as [|i invs IH]; intros w; [reflexivity|].
  cbn [deliver]. by rewrite IH, resume_quiet.
Qed.

Lemma overlapping_calls (n : nat) (w : World) :
  pcs (media w) !! pc = Some p →
  fst (deliverOverlapping start (replicate n (Some data)) w) =
    replicate n (AwaitingRemote d data) ∧
  remoteApplications pc (snd (deliverOverlapping start (replicate n (Some data)) w)) =
    n + remoteApplications pc w ∧
  remoteOf pc (snd (deliverOverlapping start (replicate n (Some data)) w)) = remoteOf pc w ∧
  remoteApplications pc
    (deliver resume (fst (deliverOverlapping start (replicate n (Some data)) w))
       (snd (deliverOverlapping start (replicate n (Some data)) w))) =
    n + remoteApplications pc w.
Proof.
  revert w. induction n as [|n IH]; intros w Hp; [by repeat split|].
  cbn [replicate deliverOverlapping].
  destruct (start_unset w Hp) as (w1 & -> & Hpcs & Happ & Hrem). cbn [fst snd].
  destruct (IH w1) as (Hfst & Hcount & Hremote & Hsettled); [by rewrite Hpcs|].
  rewrite resumed_quiet in *. rewrite Hfst, Hcount, Hremote, Happ, Hrem.
  split; [reflexivity|]. split; [lia|]. split; [reflexivity|]. lia.
Qed.

End Overlap.

(** C6: the guard of the listener does not hold the answer to one
    application when deliveries overlap.  On the caller side, with a
    connection that has no remote description yet, every delivery
    of the snapshot that carries the answer which arrives before the
    first application has settled finds the remote description unset and
    calls [setRemoteDescription] with the answer: [n] deliveries make [n]
    calls, one suspended invocation each, and settling them adds and
    removes none.  The same holds of the listener of the older page.
    Only deliveries that come after the application has settled apply
    nothing ([answer_applied_exactly_once]). *)
Theorem overlapping_deliveries_reapply_answer
    (w : World) (pc : nat) (p : PeerConnection) (data : gmap string fval) (ty sdp : string)
    (n : nat) :
  pcs (media w) !! pc = Some p →
  currentRemoteDescription p = None →
  data !! "answer" = Some (FDesc ty sdp) →
  (fst (deliverOverlapping (onCallerSnapshotStart pc) (replicate n (Some data)) w) =
     replicate n (AwaitingRemote (FDesc ty sdp) data) ∧
   remoteApplications pc
     (snd (deliverOverlapping (onCallerSnapshotStart pc) (replicate n (Some data)) w)) =
     n + remoteApplications pc w ∧
   remoteOf pc (snd (deliverOverlapping (onCallerSnapshotStart pc) (replicate n (Some data)) w)) =
     None ∧
   remoteApplications pc
     (deliver (onCallerSnapshotResume pc)
        (fst (deliverOverlapping (onCallerSnapshotStart pc) (replicate n (Some data)) w))
        (snd (deliverOverlapping (onCallerSnapshotStart pc) (replicate n (Some data)) w))) =
     n + remoteApplications pc w) ∧
  (fst (deliverOverlapping (OlderRoomPage.onCallSnapshotStart pc) (replicate n (Some data)) w) =
     replicate n (AwaitingRemote (FDesc ty sdp) data) ∧
   remoteApplications pc
     (snd (deliverOverlapping (OlderRoomPage.onCallSnapshotStart pc)
             (replicate n (Some data)) w)) =
     n + remoteApplications pc w ∧
   remoteOf pc
     (snd (deliverOverlapping (OlderRoomPage.onCallSnapshotStart pc)
             (replicate n (Some data)) w)) = None ∧
   remoteApplications pc
     (deliver (OlderRoomPage.onCallSnapshotResume pc)
        (fst (deliverOverlapping (OlderRoomPage.onCallSnapshotStart pc)
                (replicate n (Some data)) w))
        (snd (deliverOverlapping (OlderRoomPage.onCallSnapshotStart pc)
                (replicate n (Some data)) w))) =
     n + remoteApplications pc w).
Proof.
  intros Hp Hcrd Hans.
  assert (Hnone : remoteOf pc w = None) by (unfold remoteOf; by rewrite Hp).
  split.
  - destruct (overlapping_calls (onCallerSnapshotStart pc) (onCallerSnapshotResume pc)
                pc p data (FDesc ty sdp)
                (fun w0 H0 => onCallerSnapshotStart_unset pc p data ty sdp w0 H0 Hcrd Hans)
                (onCallerSnapshotResume_quiet pc) n w Hp) as (H1 & H2 & H3 & H4).
    rewrite Hnone in H3. by repeat split.
  - destruct (overlapping_calls (OlderRoomPage.onCallSnapshotStart pc)
                (OlderRoomPage.onCallSnapshotResume pc) pc p data (FDesc ty sdp)
                (fun w0 H0 => older_onCallSnapshotStart_unset pc p data ty sdp w0 H0 Hcrd Hans)
                (older_onCallSnapshotResume_quiet pc) n w Hp) as (H1 & H2 & H3 & H4).
    rewrite Hnone in H3. by repeat split.
Qed.

Lemma overlapping_deliveries_reapply_answer_witness :
  remoteApplications 1
    (snd (deliverOverlapping (onCallerSnapshotStart 1) (replicate 3 (Some Sample.answeredCall))
            Sample.aliceCalling)) = 3 ∧
  remoteApplications 1
    (snd (deliverOverlapping (OlderRoomPage.onCallSnapshotStart 1)
            (replicate 3 (Some Sample.answeredCall)) Sample.aliceCalling)) = 3.
Proof.
  destruct (overlapping_deliveries_reapply_answer Sample.aliceCalling 1
              (mkPc false [0] (Some (FDesc "offer" "sdp-a")) None
                 (Some ["rooms"; "r1"; "calls"; "c1"; "offerCandidates"]) [])
              Sample.answeredCall "answer" "sdp-b" 3)
    as ((_ & Hcur & _) & (_ & Hold & _)); [reflexivity | reflexivity | reflexivity |].
  split; [exact Hcur | exact Hold].
Defined.

(* ===================================================================== *)
(** * The callee path and the closing of the channel                       *)
(* ===================================================================== *)

(** C9: on the callee path, when the call document is absent the path
    reports that the session was not found, and when the document has no
    offer it reports that the session is not ready; either way it
    returns there, with the store as it was (no answer, status or
    candidate written) and the media state as it was (no microphone
    request, no connection).  The same holds of [joinCall] of the older
    page, with its own messages. *)
Theorem callee_stops_without_session_or_offer (w : World) (cid : string) (u : User) :
  user (ui w) = Some u →
  (docs (store w) !! callRef (roomId (ui w)) cid = None →
     fst (joinAsCallee cid w) = Ok tt ∧
     voiceStatus (ui (snd (joinAsCallee cid w))) = "Sessione vocale non trovata." ∧
     store (snd (joinAsCallee cid w)) = store w ∧
     media (snd (joinAsCallee cid w)) = media w) ∧
  (∀ cd, docs (store w) !! callRef (roomId (ui w)) cid = Some cd →
     truthy (cd !! "offer") = false →
     fst (joinAsCallee cid w) = Ok tt ∧
     voiceStatus (ui (snd (joinAsCallee cid w))) =
       "Sessione non pronta (manca offer). Riprova tra 2 secondi." ∧
     store (snd (joinAsCallee cid w)) = store w ∧
     media (snd (joinAsCallee cid w)) = media w) ∧
  (truthy (Some (canCallNow w)) = true → callId (ui w) = cid → cid ≠ "" →
     (docs (store w) !! callRef (roomId (ui w)) cid = None →
        fst (OlderRoomPage.joinCall w) = Ok tt ∧
        callStatus (ui (snd (OlderRoomPage.joinCall w))) = "Chiamata non trovata." ∧
        store (snd (OlderRoomPage.joinCall w)) = store w ∧
        media (snd (OlderRoomPage.joinCall w)) = media w) ∧
     (∀ cd, docs (store w) !! callRef (roomId (ui w)) cid = Some cd →
        truthy (cd !! "offer") = false →
        fst (OlderRoomPage.joinCall w) = Ok tt ∧
        callStatus (ui (snd (OlderRoomPage.joinCall w))) = "Chiamata non pronta (manca offer)." ∧
        store (snd (OlderRoomPage.joinCall w)) = store w ∧
        media (snd (OlderRoomPage.joinCall w)) = media w)).
Proof.
  intros Hu. split; [|split].
  - intros Hnone. unfold joinAsCallee, getDocM, getDoc. setters. run. simpl.
    rewrite Hu. simpl. rewrite Hnone. simpl. by destruct w.
  - intros cd Hcd Hoff. unfold joinAsCallee, getDocM, getDoc. setters. run. simpl.
    rewrite Hu. simpl. rewrite Hcd, Hoff. simpl. by destruct w.
  - intros Hcan Hcid Hne. split.
    + intros Hnone. unfold OlderRoomPage.joinCall, getDocM, getDoc. setters. run.
      rewrite Hu, Hcan, Hcid. rewrite (bool_decide_eq_false_2 _ Hne). simpl.
      rewrite Hnone. simpl. by destruct w.
    + intros cd Hcd Hoff. unfold OlderRoomPage.joinCall, getDocM, getDoc. setters. run.
      rewrite Hu, Hcan, Hcid. rewrite (bool_decide_eq_false_2 _ Hne). simpl.
      rewrite Hcd, Hoff. simpl. by destruct w.
Qed.


Lemma callee_stops_without_session_or_offer_witness :
  voiceStatus (ui (snd (joinAsCallee "zz" (Sample.bobJoining Sample.openCall)))) =
    "Sessione vocale non trovata." ∧
  voiceStatus (ui (snd (joinAsCallee "c1" (Sample.bobJoining Sample.openCall)))) =
    "Sessione non pronta (manca offer). Riprova tra 2 secondi." ∧
  store (snd (joinAsCallee "c1" (Sample.bobJoining Sample.openCall))) =
    Sample.store2 Sample.openCall.
Proof.
  destruct (callee_stops_without_session_or_offer (Sample.bobJoining Sample.openCall) "zz"
              Sample.bob eq_refl) as (Habsent & _ & _).
  destruct (callee_stops_without_session_or_offer (Sample.bobJoining Sample.openCall) "c1"
              Sample.bob eq_refl) as (_ & Hnooffer & _).
  destruct (Habsent eq_refl) as (_ & Hmsg & _ & _).
  destruct (Hnooffer Sample.openCall eq_refl eq_refl) as (_ & Hmsg' & Hstore & _).
  split; [exact Hmsg | split; [exact Hmsg' | exact Hstore]].
Defined.

(** C8: closing the channel for all.  For the admin, in a room whose
    voice state references a call that exists, the call gets the status
    [ended] and the voice state gets a [null] call id; for whoever is
    not the admin it returns at once without throwing and leaves the
    world as it was. *)
Theorem closeVoiceForAll_ends_session (w : World) :
  (∀ (vd cd : gmap string fval) (cid : string),
     myRole (ui w) = "admin" →
     roomId (ui w) ≠ "" →
     docs (store w) !! voiceRef (roomId (ui w)) = Some vd →
     vd !! "callId" = Some (FStr cid) →
     cid ≠ "" →
     docs (store w) !! callRef (roomId (ui w)) cid = Some cd →
     fst (closeVoiceForAll w) = Ok tt ∧
     field (callRef (roomId (ui w)) cid) "status" (snd (closeVoiceForAll w)) = Some (FStr "ended") ∧
     field (voiceRef (roomId (ui w))) "callId" (snd (closeVoiceForAll w)) = Some FNull ∧
     voiceCallId (ui (snd (closeVoiceForAll w))) = None) ∧
  (myRole (ui w) ≠ "admin" → closeVoiceForAll w = (Ok tt, w)).
Proof.
  split.
  - intros vd cd cid Hadmin Hrid Hvd Hcid Hne Hcd.
    unfold closeVoiceForAll, getDocM, getDoc, pathSegment, updateDocM, setDocMergeM, updateDoc. setters. run.
    rewrite Hadmin. rewrite (bool_decide_eq_false_2 _ Hrid). simpl.
    rewrite Hvd. simpl. rewrite Hcid. simpl. rewrite (bool_decide_eq_false_2 _ Hne). simpl.
    rewrite Hcd. simpl. unfold field, setDocMerge. simpl.
    assert (Hpaths : voiceRef (roomId (ui w)) ≠ callRef (roomId (ui w)) cid).
    { unfold voiceRef, callRef. congruence. }
    split; [reflexivity|]. split; [|split; [|reflexivity]].
    + rewrite lookup_insert_ne by exact Hpaths. rewrite lookup_insert_eq. simpl.
      unfold resolve. rewrite lookup_union_l'. 
      * rewrite lookup_fmap, lookup_singleton_eq. reflexivity.
      * rewrite lookup_fmap, lookup_singleton_eq. eauto.
    + rewrite lookup_insert_eq. simpl. unfold resolve, voiceReset.
      rewrite lookup_union_l'.
      * rewrite lookup_fmap. rewrite lookup_insert_eq. reflexivity.
      * rewrite lookup_fmap. rewrite lookup_insert_eq. eauto.
  - intros Hrole. unfold closeVoiceForAll. run.
    rewrite (isAdmin_false _ Hrole). reflexivity.
Qed.

Lemma closeVoiceForAll_ends_session_witness :
  field ["rooms"; "r1"; "calls"; "c1"] "status" (snd (closeVoiceForAll Sample.aliceAdmin)) =
    Some (FStr "ended") ∧
  field ["rooms"; "r1"; "voice"; "current"] "callId" (snd (closeVoiceForAll Sample.aliceAdmin)) =
    Some FNull ∧
  closeVoiceForAll (Sample.bobJoining Sample.answeredCall) =
    (Ok tt, Sample.bobJoining Sample.answeredCall).
Proof.
  destruct (closeVoiceForAll_ends_session Sample.aliceAdmin) as [Hadmin _].
  destruct (closeVoiceForAll_ends_session (Sample.bobJoining Sample.answeredCall)) as [_ Hother].
  destruct (Hadmin {[ "callId" := FStr "c1"; "updatedAt" := FTime 1;
                      "updatedByUid" := FStr "alice" ]} Sample.answeredCall "c1")
    as (_ & Hended & Hnull & _); try reflexivity; try discriminate.
  split; [exact Hended | split; [exact Hnull |]].
  apply Hother. discriminate.
Defined.

(* ===================================================================== *)
(** * Room entry                                                           *)
(* ===================================================================== *)

Lemma patch_lookup_ne (data0 : gmap string fval) (k k' : string) (v : fval)
    (patch : gmap string fval) :
  k ≠ k' → patchIfNotBoolean data0 k v patch !! k' = patch !! k'.
Proof.
  intros Hne. unfold patchIfNotBoolean.
  destruct (typeof_boolean (data0 !! k)); [reflexivity | by rewrite lookup_insert_ne].
Qed.

Lemma patch_lookup_eq (data0 : gmap string fval) (k : string) (v : fval)
    (patch : gmap string fval) :
  patchIfNotBoolean data0 k v patch !! k =
    if typeof_boolean (data0 !! k) then patch !! k else Some v.
Proof.
  unfold patchIfNotBoolean.
  destruct (typeof_boolean (data0 !! k)); [reflexivity | by rewrite lookup_insert_eq].
Qed.

Lemma patched_other (data0 : gmap string fval) (k : string) :
  k ≠ "defaultCanChat" → k ≠ "defaultCanCall" → k ≠ "lockChat" → k ≠ "lockCalls" →
  (settingsPatch data0 ∪ data0) !! k = data0 !! k.
Proof.
  intros H1 H2 H3 H4. apply lookup_union_r. unfold settingsPatch.
  rewrite !patch_lookup_ne by congruence. apply lookup_empty.
Qed.

Lemma settled_lookup (data0 : gmap string fval) (k : string) (dflt : bool) (o : option fval) :
  o = (if typeof_boolean (data0 !! k) then None else Some (FBool dflt)) →
  union_with (fun x _ => Some x) o (data0 !! k) = Some (FBool (settled data0 k dflt)).
Proof. intros ->. unfold settled. by destruct (data0 !! k) as [[]|]. Qed.

Lemma patched_setting (data0 : gmap string fval) :
  (settingsPatch data0 ∪ data0) !! "defaultCanChat" =
    Some (FBool (settled data0 "defaultCanChat" true)) ∧
  (settingsPatch data0 ∪ data0) !! "defaultCanCall" =
    Some (FBool (settled data0 "defaultCanCall" true)).
Proof.
  split; rewrite lookup_union; apply settled_lookup; unfold settingsPatch.
  - rewrite !patch_lookup_ne by discriminate. rewrite patch_lookup_eq. by rewrite lookup_empty.
  - rewrite !patch_lookup_ne by discriminate. rewrite patch_lookup_eq.
    rewrite patch_lookup_ne by discriminate. by rewrite lookup_empty.
Qed.

Lemma runLoad_member (payload : gmap string fval → User → gmap string fval)
    (w : World) (data0 : gmap string fval) (u : User) :
  docs (store w) !! roomRef (roomId (ui w)) = Some data0 →
  currentUser w = Some u →
  ∃ now,
    fst (runLoad payload w) = Ok tt ∧
    docs (store (snd (runLoad payload w))) !! memberRef (roomId (ui w)) (uid u) =
      Some (resolve now (payload (settingsPatch data0 ∪ data0) u)
            ∪ default ∅ (docs (store w) !! memberRef (roomId (ui w)) (uid u))).
Proof.
  intros Hroom Hu.
  assert (Hpaths : roomRef (roomId (ui w)) ≠ memberRef (roomId (ui w)) (uid u)).
  { unfold roomRef, memberRef. congruence. }
  unfold runLoad, getDocM, getDoc, updateDocM, updateDoc, setDocMergeM, setDocMerge.
  setters. run. rewrite Hroom.
  destruct (bool_decide (settingsPatch data0 = ∅)); simpl.
  - rewrite Hu. simpl. eexists. split; [reflexivity|]. by rewrite lookup_insert_eq.
  - rewrite Hroom. simpl. rewrite Hu. simpl. eexists. split; [reflexivity|].
    rewrite lookup_insert_eq. by rewrite lookup_insert_ne.
Qed.

Lemma loadRoomWith_member (payload : gmap string fval → User → gmap string fval)
    (w : World) (data0 : gmap string fval) (u : User) :
  roomId (ui w) ≠ "" →
  docs (store w) !! roomRef (roomId (ui w)) = Some data0 →
  currentUser w = Some u →
  ∃ now,
    fst (loadRoomWith payload w) = Ok tt ∧
    docs (store (snd (loadRoomWith payload w))) !! memberRef (roomId (ui w)) (uid u) =
      Some (resolve now (payload (settingsPatch data0 ∪ data0) u)
            ∪ default ∅ (docs (store w) !! memberRef (roomId (ui w)) (uid u))).
Proof.
  intros Hrid Hroom Hu.
  destruct (runLoad_member payload w data0 u Hroom Hu) as (now & Hok & Hdoc).
  exists now. unfold loadRoomWith. run. rewrite (bool_decide_eq_false_2 _ Hrid).
  destruct (runLoad payload w) as [[[]|e] w']; simpl in *; [by split | discriminate].
Qed.

Lemma isAdminOf_patched (data0 : gmap string fval) (u : User) :
  isAdminOf (settingsPatch data0 ∪ data0) u = isAdminOf data0 u.
Proof. unfold isAdminOf. by rewrite patched_other. Qed.

(** C1, as the code has it: on room entry the current page writes both
    override fields of the member as booleans, [true] for the admin and
    otherwise the room default as the backfill settles it (the stored
    boolean, or [true] when the room has none).  Only the older page
    leaves both fields out of the member object, so that the merge keeps
    what the member document held, nothing for a new member. *)
Theorem room_entry_writes_defaults_as_overrides
    (w : World) (data0 : gmap string fval) (u : User) :
  roomId (ui w) ≠ "" →
  docs (store w) !! roomRef (roomId (ui w)) = Some data0 →
  currentUser w = Some u →
  (fst (loadRoom w) = Ok tt ∧
   field (memberRef (roomId (ui w)) (uid u)) "canChat" (snd (loadRoom w)) =
     Some (FBool (isAdminOf data0 u || settled data0 "defaultCanChat" true)) ∧
   field (memberRef (roomId (ui w)) (uid u)) "canCall" (snd (loadRoom w)) =
     Some (FBool (isAdminOf data0 u || settled data0 "defaultCanCall" true))) ∧
  (fst (OlderRoomPage.loadRoom w) = Ok tt ∧
   leavesOverridesUnset (OlderRoomPage.memberPayload (settingsPatch data0 ∪ data0) u) ∧
   field (memberRef (roomId (ui w)) (uid u)) "canChat" (snd (OlderRoomPage.loadRoom w)) =
     field (memberRef (roomId (ui w)) (uid u)) "canChat" w ∧
   field (memberRef (roomId (ui w)) (uid u)) "canCall" (snd (OlderRoomPage.loadRoom w)) =
     field (memberRef (roomId (ui w)) (uid u)) "canCall" w).
Proof.
  intros Hrid Hroom Hu. split.
  - destruct (loadRoomWith_member memberPayload w data0 u Hrid Hroom Hu) as (now & Hok & Hdoc).
    fold loadRoom in Hok, Hdoc. split; [exact Hok|].
    unfold field. rewrite Hdoc. simpl.
    destruct (patched_setting data0) as [Hchat Hcall].
    unfold memberPayload. rewrite isAdminOf_patched, Hchat, Hcall. simpl.
    split; (rewrite lookup_union_l'; unfold resolve; rewrite lookup_fmap;
            [| simplify_map_eq; destruct (isAdminOf data0 u); simpl; eauto]);
      simplify_map_eq; by destruct (isAdminOf data0 u).
  - destruct (loadRoomWith_member OlderRoomPage.memberPayload w data0 u Hrid Hroom Hu)
      as (now & Hok & Hdoc).
    fold OlderRoomPage.loadRoom in Hok, Hdoc. split; [exact Hok|].
    split; [split; unfold OlderRoomPage.memberPayload; by simplify_map_eq|].
    unfold field. rewrite Hdoc. simpl.
    split; (rewrite lookup_union_r;
            [by destruct (docs (store w) !! memberRef (roomId (ui w)) (uid u))
            | unfold resolve, OlderRoomPage.memberPayload; rewrite lookup_fmap; by simplify_map_eq]).
Qed.

Lemma room_entry_writes_defaults_as_overrides_witness :
  field ["rooms"; "r1"; "members"; "bob"] "canChat" (snd (loadRoom Sample.bobMic)) =
    Some (FBool true) ∧
  field ["rooms"; "r1"; "members"; "bob"] "canChat" (snd (OlderRoomPage.loadRoom Sample.bobMic)) =
    None.
Proof.
  assert (Hrid : roomId (ui Sample.bobMic) ≠ "") by discriminate.
  destruct (room_entry_writes_defaults_as_overrides Sample.bobMic Sample.room1 Sample.bob
              Hrid eq_refl eq_refl) as [(_ & Hchat & _) (_ & _ & Hold & _)].
  split; [exact Hchat | exact Hold].
Defined.

(** C1, as stated, fails on the current page: [bob], who is not the
    admin, enters a room where he has no member document yet, and the
    member object and the stored document carry [true] in both override
    fields. *)
Lemma room_entry_leaves_overrides_unset_counterexample :
  isAdminOf Sample.room1 Sample.bob = false ∧
  field ["rooms"; "r1"; "members"; "bob"] "canChat" Sample.bobMic = None ∧
  ¬ leavesOverridesUnset
      (memberPayload (settingsPatch Sample.room1 ∪ Sample.room1) Sample.bob) ∧
  field ["rooms"; "r1"; "members"; "bob"] "canChat" (snd (loadRoom Sample.bobMic)) =
    Some (FBool true) ∧
  field ["rooms"; "r1"; "members"; "bob"] "canCall" (snd (loadRoom Sample.bobMic)) =
    Some (FBool true).
Proof.
  split; [reflexivity|]. split; [reflexivity|]. split.
  - intros [Hchat _]. vm_compute in Hchat. discriminate.
  - split; vm_compute; reflexivity.
Qed.

(* ===================================================================== *)
(** * Entering the voice channel without microphone                        *)
(* ===================================================================== *)

Lemma merged_field (now : nat) (d old : gmap string fval) (k : string) (v : fval) :
  d !! k = Some v → (resolve now d ∪ old) !! k = Some (resolveField now v).
Proof.
  intros Hk. unfold resolve.
  rewrite lookup_union_l'; rewrite lookup_fmap, Hk; [reflexivity | eauto].
Qed.

Ltac proj :=
  cbn [store currentUser ui media withStore withUi withMedia fst snd docs clock nextId
       user roomId room status myRole myOverrides voiceCallId voiceStatus inVoice callId
       callStatus micGranted pcs nextHandle stoppedTracks pcRef localStreamRef
       remoteAudioMounted remoteSrcObject subscriptions mediaLog] in *.

(** C2, on the code: a user allowed to call enters the voice channel of
    a room without session while the microphone is denied.  The new
    call is created and published before the microphone is asked for,
    and the rejection is not caught: [enterVoice] throws, the voice
    state references the new call, whose status is [open], the presence
    of the user stays, and the status line is still the progress
    message.  Only the media state is as before, one request apart. *)
Theorem enterVoice_mic_denied_leaves_session (w : World) (u : User) :
  user (ui w) = Some u →
  roomId (ui w) ≠ "" →
  truthy (Some (canCallNow w)) = true →
  truthy (field (voiceRef (roomId (ui w))) "callId" w) = false →
  micGranted (media w) = false →
  fst (enterVoice w) = Throw "NotAllowedError" ∧
  field (voiceRef (roomId (ui w))) "callId" (snd (enterVoice w)) =
    Some (FStr (autoId (nextId (store w)))) ∧
  field (callRef (roomId (ui w)) (autoId (nextId (store w)))) "status" (snd (enterVoice w)) =
    Some (FStr "open") ∧
  voiceCallId (ui (snd (enterVoice w))) = Some (autoId (nextId (store w))) ∧
  voiceStatus (ui (snd (enterVoice w))) = "Entro in vocale… (creo sessione)" ∧
  field (voiceMemberRef (roomId (ui w)) (uid u)) "uid" (snd (enterVoice w)) = Some (FStr (uid u)) ∧
  media (snd (enterVoice w)) =
    mkMedia false (pcs (media w)) (nextHandle (media w)) (stoppedTracks (media w))
      (pcRef (media w)) (localStreamRef (media w)) (remoteAudioMounted (media w))
      (remoteSrcObject (media w)) (subscriptions (media w))
      (mediaLog (media w) ++ [GetUserMedia])%list.
Proof.
  intros Hu Hrid Hcan Hptr Hmic.
  assert (Hvm : voiceMemberRef (roomId (ui w)) (uid u) ≠ voiceRef (roomId (ui w))).
  { unfold voiceRef, voiceMemberRef. congruence. }
  assert (Hcv : ∀ id, (callsColl (roomId (ui w)) ++ [id])%list ≠ voiceRef (roomId (ui w))).
  { intros id. unfold voiceRef, callsColl. simpl. congruence. }
  assert (Hvc : ∀ id, voiceRef (roomId (ui w)) ≠ callRef (roomId (ui w)) id).
  { intros id. unfold voiceRef, callRef. congruence. }
  assert (Hmc : ∀ id, (callsColl (roomId (ui w)) ++ [id])%list ≠
                      voiceMemberRef (roomId (ui w)) (uid u)).
  { intros id. unfold voiceMemberRef, callsColl. simpl. congruence. }
  unfold field in Hptr.
  unfold enterVoice, ensureVoiceStateDoc, createCallDoc, startAsCaller, getUserMedia,
    getDocM, getDoc, addDocM, addDoc, updateDocM, updateDoc, setDocMergeM, setDocMerge.
  setters. run. rewrite Hu, Hcan. rewrite (bool_decide_eq_false_2 _ Hrid). cbn [negb]. proj.
  destruct (docs (store w) !! voiceRef (roomId (ui w))) as [vd|] eqn:Hvd.
  - proj. rewrite lookup_insert_ne by exact Hvm. rewrite Hvd.
    cbn [default from_option id mbind option_bind] in *. rewrite Hptr. cbn [negb]. proj.
    rewrite Hu. proj.
    rewrite lookup_insert_ne by apply Hcv.
    rewrite lookup_insert_ne by exact Hvm. rewrite Hvd. proj.
    rewrite Hu. proj. rewrite Hmic.
    unfold field. proj.
    split; [reflexivity|]. split.
    { rewrite lookup_insert_eq. cbn [mbind option_bind]. erewrite merged_field by reflexivity; reflexivity. }
    split.
    { rewrite lookup_insert_ne by apply Hvc.
      change (callRef (roomId (ui w)) (autoId (nextId (store w)))) with
        (callsColl (roomId (ui w)) ++ [autoId (nextId (store w))])%list.
      rewrite lookup_insert_eq. cbn [mbind option_bind].
      unfold resolve. rewrite lookup_fmap. by simplify_map_eq. }
    split; [reflexivity|]. split; [reflexivity|]. split.
    { rewrite lookup_insert_ne by (apply not_eq_sym, Hvm).
      rewrite lookup_insert_ne by apply Hmc.
      rewrite lookup_insert_eq. cbn [mbind option_bind]. erewrite merged_field by reflexivity; reflexivity. }
    destruct w as [? ? ? []]. proj. by subst.
  - proj. rewrite lookup_insert_ne by exact Hvm. rewrite lookup_insert_eq.
    cbn [default from_option id mbind option_bind] in *.
    erewrite (merged_field _ _ _ "callId") by reflexivity.
    cbn [resolveField truthy negb]. proj.
    rewrite Hu. proj.
    rewrite lookup_insert_ne by apply Hcv.
    rewrite lookup_insert_ne by exact Hvm. rewrite lookup_insert_eq. proj.
    rewrite Hu. proj. rewrite Hmic.
    unfold field. proj.
    split; [reflexivity|]. split.
    { rewrite lookup_insert_eq. cbn [mbind option_bind]. erewrite merged_field by reflexivity; reflexivity. }
    split.
    { rewrite lookup_insert_ne by apply Hvc.
      change (callRef (roomId (ui w)) (autoId (nextId (store w)))) with
        (callsColl (roomId (ui w)) ++ [autoId (nextId (store w))])%list.
      rewrite lookup_insert_eq. cbn [mbind option_bind].
      unfold resolve. rewrite lookup_fmap. by simplify_map_eq. }
    split; [reflexivity|]. split; [reflexivity|]. split.
    { rewrite lookup_insert_ne by (apply not_eq_sym, Hvm).
      rewrite lookup_insert_ne by apply Hmc.
      rewrite lookup_insert_eq. cbn [mbind option_bind]. erewrite merged_field by reflexivity; reflexivity. }
    destruct w as [? ? ? []]. proj. by subst.
Qed.

Lemma enterVoice_mic_denied_leaves_session_witness :
  fst (enterVoice Sample.bobNoMic) = Throw "NotAllowedError" ∧
  field ["rooms"; "r1"; "voice"; "current"] "callId" (snd (enterVoice Sample.bobNoMic)) =
    Some (FStr "auto0") ∧
  field ["rooms"; "r1"; "calls"; "auto0"] "status" (snd (enterVoice Sample.bobNoMic)) =
    Some (FStr "open") ∧
  voiceStatus (ui (snd (enterVoice Sample.bobNoMic))) = "Entro in vocale… (creo sessione)".
Proof.
  assert (Hrid : roomId (ui Sample.bobNoMic) ≠ "") by discriminate.
  destruct (enterVoice_mic_denied_leaves_session Sample.bobNoMic Sample.bob
              eq_refl Hrid eq_refl eq_refl eq_refl)
    as (Hthrow & Hptr & Hopen & _ & Hmsg & _).
  split; [exact Hthrow | split; [exact Hptr | split; [exact Hopen | exact Hmsg]]].
Defined.

(** The older page asks for the microphone before it creates the call:
    the same denial leaves the store as it was. *)
Lemma older_createCall_mic_denied :
  fst (OlderRoomPage.createCall Sample.bobNoMic) = Throw "NotAllowedError" ∧
  store (snd (OlderRoomPage.createCall Sample.bobNoMic)) = store Sample.bobNoMic.
Proof. split; reflexivity. Qed.

(** Neither does the callee path write before it has the microphone. *)
Lemma joinAsCallee_mic_denied :
  fst (joinAsCallee "c1" (mkWorld (Sample.store2 Sample.offeredCall) (Some Sample.bob)
         (Sample.uiOf Sample.bob "member") (Sample.mediaOf false))) = Throw "NotAllowedError" ∧
  store (snd (joinAsCallee "c1" (mkWorld (Sample.store2 Sample.offeredCall) (Some Sample.bob)
           (Sample.uiOf Sample.bob "member") (Sample.mediaOf false)))) =
    Sample.store2 Sample.offeredCall.
Proof. split; reflexivity. Qed.

(* ===================================================================== *)
(** * Invite codes                                                         *)
(* ===================================================================== *)

Import Invite.

Lemma alphabet_char (c : ascii) :
  mem c chars = true →
  isWhiteSpace c = false ∧ upperChar c = c ∧
  isWhiteSpace (lowerChar c) = false ∧ upperChar (lowerChar c) = c.
Proof.
  destruct c as [[] [] [] [] [] [] [] []]; vm_compute; intros H;
    first [discriminate H | repeat split].
Qed.

Lemma whitespace_upper (c : ascii) : isWhiteSpace c = true → upperChar c = c.
Proof.
  destruct c as [[] [] [] [] [] [] [] []]; vm_compute; intros H;
    first [discriminate H | reflexivity].
Qed.

Lemma alphabet_get (n : nat) :
  n < 32 → ∃ c, String.get n chars = Some c ∧ mem c chars = true.
Proof.
  intros Hn.
  do 32 (destruct n as [|n]; [eexists; split; reflexivity|]).
  lia.
Qed.

Lemma index_in_range (q : Q) :
  (0 <= q)%Q → (q < 1)%Q →
  (0 <= Qfloor (q * inject_Z (Z.of_nat (String.length chars))) < 32)%Z.
Proof.
  intros H0 H1. change (Z.of_nat (String.length chars)) with 32%Z. split.
  - rewrite <- (Qfloor_Z 0). apply Qfloor_resp_le.
    change (inject_Z 0) with (0 * inject_Z 32)%Q. apply Qmult_le_compat_r; [exact H0 | discriminate].
  - apply Z.lt_nge. intros Hge.
    assert (Hlt : (q * inject_Z 32 < inject_Z 32)%Q).
    { rewrite <- (Qmult_1_l (inject_Z 32)) at 2. apply Qmult_lt_compat_r; [reflexivity | exact H1]. }
    apply (Qlt_not_le _ _ Hlt).
    apply Qle_trans with (inject_Z (Qfloor (q * inject_Z 32))); [| apply Qfloor_le].
    rewrite <- Zle_Qle. exact Hge.
Qed.

Lemma charAt_in_alphabet (i : Z) :
  (0 <= i < 32)%Z → ∃ c, charAt i = String c EmptyString ∧ mem c chars = true.
Proof.
  intros Hi. unfold charAt.
  destruct (i <? 0)%Z eqn:Hneg; [apply Z.ltb_lt in Hneg; lia|].
  destruct (alphabet_get (Z.to_nat i)) as (c & Hget & Hmem); [lia|].
  exists c. by rewrite Hget.
Qed.

Lemma length_snoc (s : string) (c : ascii) :
  String.length (s +:+ String c EmptyString) = S (String.length s).
Proof. induction s as [|a s IH]; simpl; [reflexivity | by rewrite IH]. Qed.

Lemma allIn_snoc (alphabet s : string) (c : ascii) :
  allIn alphabet (s +:+ String c EmptyString) = allIn alphabet s && mem c alphabet.
Proof.
  induction s as [|a s IH]; simpl.
  - by rewrite andb_true_r.
  - rewrite IH. by rewrite andb_assoc.
Qed.

Lemma randomCodeLoop_spec (n : nat) (out : string) (g : Rng) :
  (∀ k, (0 <= draws g k)%Q ∧ (draws g k < 1)%Q) →
  String.length (fst (randomCodeLoop n out g)) = String.length out + n ∧
  allIn chars (fst (randomCodeLoop n out g)) = allIn chars out ∧
  snd (randomCodeLoop n out g) = mkRng (draws g) (taken g + n).
Proof.
  revert out g. induction n as [|n IH]; intros out g Hg.
  - simpl. destruct g. simpl. rewrite !Nat.add_0_r. by repeat split.
  - cbn [randomCodeLoop mathRandom fst snd].
    destruct (Hg (taken g)) as [H0 H1].
    destruct (charAt_in_alphabet _ (index_in_range _ H0 H1)) as (c & -> & Hmem).
    destruct (IH (out +:+ String c EmptyString) (mkRng (draws g) (S (taken g))))
      as (Hlen & Hall & Hrng); [exact Hg|].
    rewrite Hlen, Hall, Hrng, length_snoc, allIn_snoc, Hmem, andb_true_r. simpl.
    repeat split; [lia | f_equal; lia].
Qed.

Lemma toUpperCase_app (a b : string) :
  toUpperCase (a +:+ b) = toUpperCase a +:+ toUpperCase b.
Proof. induction a as [|c a IH]; simpl; [reflexivity | by rewrite IH]. Qed.

Lemma toUpperCase_whitespace (s : string) :
  allWhiteSpace s = true → toUpperCase s = s.
Proof.
  induction s as [|c s IH]; simpl; [reflexivity|].
  intros [Hc Hs]%andb_true_iff. by rewrite (whitespace_upper c Hc), IH.
Qed.

Lemma caseVariant_upper (v code : string) :
  allIn chars code = true → caseVariant v code = true →
  toUpperCase v = code ∧ noWhiteSpace v = true.
Proof.
  revert code. induction v as [|a v IH]; intros [|b code]; simpl; try discriminate.
  - by split.
  - intros [Hb Hall]%andb_true_iff [Hab Hv]%andb_true_iff.
    destruct (IH code Hall Hv) as [-> ->].
    destruct (alphabet_char b Hb) as (Hws & Hup & Hwsl & Hupl).
    apply orb_true_iff in Hab as [Hab|Hab]; apply bool_decide_eq_true in Hab; subst a.
    + by rewrite Hup, Hws.
    + by rewrite Hupl, Hwsl.
Qed.

Lemma allIn_noWhiteSpace (s : string) : allIn chars s = true → noWhiteSpace s = true.
Proof.
  induction s as [|c s IH]; simpl; [reflexivity|].
  intros [Hc Hs]%andb_true_iff. destruct (alphabet_char c Hc) as (-> & _). by rewrite IH.
Qed.

Lemma trimStart_whitespace (l s : string) :
  allWhiteSpace l = true → trimStart (l +:+ s) = trimStart s.
Proof.
  induction l as [|c l IH]; simpl; [reflexivity|].
  intros [-> Hl]%andb_true_iff. by apply IH.
Qed.

Lemma trimStart_solid (s r : string) :
  noWhiteSpace s = true → s ≠ "" → trimStart (s +:+ r) = s +:+ r.
Proof.
  destruct s as [|c s]; [done|]. simpl.
  intros [Hc _]%andb_true_iff _. apply negb_true_iff in Hc. by rewrite Hc.
Qed.

Lemma trimEnd_whitespace (r : string) : allWhiteSpace r = true → trimEnd r = "".
Proof.
  induction r as [|c r IH]; simpl; [reflexivity|].
  intros [Hc Hr]%andb_true_iff. by rewrite (IH Hr), Hc.
Qed.

Lemma trimEnd_solid (s r : string) :
  noWhiteSpace s = true → allWhiteSpace r = true → trimEnd (s +:+ r) = s.
Proof.
  intros Hs Hr. induction s as [|c s IH]; simpl in *.
  - by apply trimEnd_whitespace.
  - apply andb_true_iff in Hs as [Hc Hs]. apply negb_true_iff in Hc.
    rewrite (IH Hs). destruct s; [by rewrite Hc | reflexivity].
Qed.

Lemma trim_padded (l s r : string) :
  allWhiteSpace l = true → allWhiteSpace r = true → noWhiteSpace s = true → s ≠ "" →
  trim (l +:+ s +:+ r) = s.
Proof.
  intros Hl Hr Hs Hne. unfold trim.
  rewrite (trimStart_whitespace l _ Hl), (trimStart_solid s r Hs Hne).
  by apply trimEnd_solid.
Qed.

Lemma caseVariant_refl (s : string) : caseVariant s s = true.
Proof.
  induction s as [|c s IH]; simpl; [reflexivity|].
  by rewrite bool_decide_eq_true_2, IH.
Qed.

Lemma append_empty_r (s : string) : s +:+ "" = s.
Proof.
  induction s as [|c s IH]; [reflexivity|].
  change (String c (s +:+ "") = String c s). by rewrite IH.
Qed.

Lemma nonempty_of_length (s : string) (n : nat) : String.length s = S n → s ≠ "".
Proof. by destruct s. Qed.

Lemma caseVariant_nonempty (v code : string) : caseVariant v code = true → code ≠ "" → v ≠ "".
Proof. destruct v, code; simpl; congruence. Qed.

(** C10: whatever the draws of the generator, the code of a new room
    has 6 characters, all of them from the alphabet, which holds none of
    0, O, 1 and I and no lower-case letter, and the room document
    matches a lookup of that code.  An input made of the code with any
    of its letters in lower case, between any white space, is turned
    back into the code by the code-entry action (trim, then upper case)
    and by the join page (upper case, then trim), also one after the
    other. *)
Theorem invite_code_round_trip (g : Rng) (name adminUid : string) :
  (∀ k, (0 <= draws g k)%Q ∧ (draws g k < 1)%Q) →
  String.length (fst (randomCode 6 g)) = 6 ∧
  allIn chars (fst (randomCode 6 g)) = true ∧
  (mem "0"%char chars = false ∧ mem "O"%char chars = false ∧
   mem "1"%char chars = false ∧ mem "I"%char chars = false ∧
   toUpperCase chars = chars) ∧
  matchesJoinCode (fst (randomCode 6 g)) (newRoomDoc name (fst (randomCode 6 g)) adminUid) = true ∧
  (∀ l v r,
     allWhiteSpace l = true → allWhiteSpace r = true →
     caseVariant v (fst (randomCode 6 g)) = true →
     enterRoom (l +:+ v +:+ r) = Some (fst (randomCode 6 g)) ∧
     joinPageCode (Some (l +:+ v +:+ r)) = Some (fst (randomCode 6 g)) ∧
     joinPageCode (enterRoom (l +:+ v +:+ r)) = Some (fst (randomCode 6 g))).
Proof.
  intros Hg. unfold randomCode.
  destruct (randomCodeLoop_spec 6 "" g Hg) as (Hlen & Hall & _).
  set (code := fst (randomCodeLoop 6 "" g)) in *. simpl in Hlen, Hall.
  assert (Hne : code ≠ "") by exact (nonempty_of_length code 5 Hlen).
  assert (Hjoin : ∀ l v r, allWhiteSpace l = true → allWhiteSpace r = true →
            caseVariant v code = true → joinPageCode (Some (l +:+ v +:+ r)) = Some code).
  { intros l v r Hl Hr Hv.
    destruct (caseVariant_upper v code Hall Hv) as [Hup Hsolid].
    unfold joinPageCode.
    assert (Hp : (if bool_decide (l +:+ v +:+ r = "") then "" else l +:+ v +:+ r) = l +:+ v +:+ r)
      by (case_bool_decide as Hemp; [by rewrite Hemp | reflexivity]).
    rewrite Hp, !toUpperCase_app, Hup, (toUpperCase_whitespace l Hl), (toUpperCase_whitespace r Hr).
    rewrite (trim_padded l code r Hl Hr (allIn_noWhiteSpace code Hall) Hne).
    by rewrite (bool_decide_eq_false_2 _ Hne). }
  split; [exact Hlen|]. split; [exact Hall|]. split; [by repeat split|]. split.
  { unfold matchesJoinCode, strict_eq, newRoomDoc. apply bool_decide_eq_true. by simplify_map_eq. }
  intros l v r Hl Hr Hv.
  destruct (caseVariant_upper v code Hall Hv) as [Hup Hsolid].
  assert (Henter : enterRoom (l +:+ v +:+ r) = Some code).
  { unfold enterRoom.
    rewrite (trim_padded l v r Hl Hr Hsolid (caseVariant_nonempty v code Hv Hne)), Hup.
    by rewrite (bool_decide_eq_false_2 _ Hne). }
  split; [exact Henter|]. split; [by apply Hjoin|].
  rewrite Henter.
  pose proof (Hjoin "" code "" eq_refl eq_refl (caseVariant_refl code)) as Hagain.
  cbn [String.append] in Hagain. by rewrite append_empty_r in Hagain.
Qed.

Lemma invite_code_round_trip_witness :
  fst (randomCode 6 Sample.halves) = "SSSSSS" ∧
  enterRoom ("  ssSsSs" +:+ String (ascii_of_nat 10) "") = Some "SSSSSS" ∧
  joinPageCode (Some ("  ssSsSs" +:+ String (ascii_of_nat 10) "")) = Some "SSSSSS".
Proof.
  assert (Hg : ∀ k, (0 <= draws Sample.halves k)%Q ∧ (draws Sample.halves k < 1)%Q).
  { intros k. split; [discriminate | reflexivity]. }
  destruct (invite_code_round_trip Sample.halves "Reparto" "alice" Hg) as (_ & _ & _ & _ & Hround).
  destruct (Hround "  " "ssSsSs" (String (ascii_of_nat 10) "") eq_refl eq_refl eq_refl)
    as (Henter & Hjoin & _).
  split; [reflexivity | split; [exact Henter | exact Hjoin]].
Defined.

(* ===================================================================== *)
(** * Entering and leaving the voice channel                               *)
(* ===================================================================== *)

Import RoomPageRest.

Ltac voice_paths w u :=
  assert (Hvm : voiceMemberRef (roomId (ui w)) (uid u) ≠ voiceRef (roomId (ui w)))
    by (unfold voiceRef, voiceMemberRef; congruence);
  assert (Hcv : ∀ id, (callsColl (roomId (ui w)) ++ [id])%list ≠ voiceRef (roomId (ui w)))
    by (intros ?; unfold voiceRef, callsColl; simpl; congruence);
  assert (Hvc : ∀ id, voiceRef (roomId (ui w)) ≠ callRef (roomId (ui w)) id)
    by (intros ?; unfold voiceRef, callRef; congruence);
  assert (Hmc : ∀ id, (callsColl (roomId (ui w)) ++ [id])%list ≠
                      voiceMemberRef (roomId (ui w)) (uid u))
    by (intros ?; unfold voiceMemberRef, callsColl; simpl; congruence);
  assert (Hcm : ∀ id, callRef (roomId (ui w)) id ≠ voiceMemberRef (roomId (ui w)) (uid u))
    by (intros ?; unfold voiceMemberRef, callRef; congruence).

Ltac enter_voice :=
  unfold enterVoice, ensureVoiceStateDoc, createCallDoc, startAsCaller, joinAsCallee,
    getUserMedia, newPeerConnection, addTracks, setOnIceCandidate, createOffer, createAnswer,
    setLocalDescription, setRemoteDescription, freshHandle, subscribe, pathSegment,
    getDocM, getDoc, addDocM, addDoc, updateDocM, updateDoc, setDocMergeM, setDocMerge;
  setters; run.

Lemma merged_field_old (now : nat) (d old : gmap string fval) (k : string) :
  d !! k = None → (resolve now d ∪ old) !! k = old !! k.
Proof.
  intros Hk. apply lookup_union_r. unfold resolve. by rewrite lookup_fmap, Hk.
Qed.

Lemma resolved_field (now : nat) (d : gmap string fval) (k : string) (v : fval) :
  d !! k = Some v → resolve now d !! k = Some (resolveField now v).
Proof. intros Hk. unfold resolve. by rewrite lookup_fmap, Hk. Qed.

Lemma resolved_none (now : nat) (d : gmap string fval) (k : string) :
  d !! k = None → resolve now d !! k = None.
Proof. intros Hk. unfold resolve. by rewrite lookup_fmap, Hk. Qed.

Ltac paths :=
  unfold roomRef, memberRef, voiceRef, voiceMemberRef, callsColl, callRef, offerCandidates,
    answerCandidates, messagesColl in *;
  cbn [app] in *.

Ltac look :=
  repeat first
    [ rewrite lookup_insert_eq
    | rewrite lookup_insert_ne by congruence
    | rewrite lookup_alter_eq
    | rewrite lookup_delete_eq
    | rewrite lookup_delete_ne by congruence ].

Ltac fld :=
  cbn [mbind option_bind];
  repeat first
    [ erewrite merged_field by reflexivity
    | rewrite merged_field_old by reflexivity
    | erewrite resolved_field by reflexivity
    | rewrite resolved_none by reflexivity ];
  try reflexivity.

Ltac caller_done :=
  repeat match goal with
  | |- _ ∧ _ => split
  end;
  paths; look; fld; try reflexivity; try (by rewrite <- app_assoc).

(** X1: [enterVoice] does nothing without a signed-in user or without
    a room.  For a user who may not call it only shows that the
    permission is missing: the store and the media state stay as they
    are, so no session, presence or microphone request is made. *)
Theorem enterVoice_refused_writes_nothing (w : World) :
  (user (ui w) = None ∨ roomId (ui w) = "" → enterVoice w = (Ok tt, w)) ∧
  (∀ u, user (ui w) = Some u → roomId (ui w) ≠ "" →
     truthy (Some (canCallNow w)) = false →
     fst (enterVoice w) = Ok tt ∧
     store (snd (enterVoice w)) = store w ∧
     media (snd (enterVoice w)) = media w ∧
     voiceStatus (ui (snd (enterVoice w))) = "Non hai permessi per il vocale in questa room.").
Proof.
  split.
  - intros Hno. unfold enterVoice. run.
    destruct (user (ui w)) as [u|]; [|reflexivity].
    destruct Hno as [Hno|Hno]; [discriminate|]. by rewrite Hno.
  - intros u Hu Hrid Hcan. unfold enterVoice. setters. run.
    rewrite Hu, Hcan, (bool_decide_eq_false_2 _ Hrid). by destruct w.
Qed.

Lemma enterVoice_caller_spec (w : World) (u : User) :
  user (ui w) = Some u →
  roomId (ui w) ≠ "" →
  truthy (Some (canCallNow w)) = true →
  truthy (field (voiceRef (roomId (ui w))) "callId" w) = false →
  micGranted (media w) = true →
  fst (enterVoice w) = Ok tt ∧
  field (voiceRef (roomId (ui w))) "callId" (snd (enterVoice w)) =
    Some (FStr (autoId (nextId (store w)))) ∧
  field (callRef (roomId (ui w)) (autoId (nextId (store w)))) "status" (snd (enterVoice w)) =
    Some (FStr "open") ∧
  field (callRef (roomId (ui w)) (autoId (nextId (store w)))) "offer" (snd (enterVoice w)) =
    Some (FDesc "offer" ("sdp-offer-" +:+ pretty (S (nextHandle (media w))))) ∧
  field (callRef (roomId (ui w)) (autoId (nextId (store w)))) "answer" (snd (enterVoice w)) =
    None ∧
  field (voiceMemberRef (roomId (ui w)) (uid u)) "uid" (snd (enterVoice w)) =
    Some (FStr (uid u)) ∧
  voiceCallId (ui (snd (enterVoice w))) = Some (autoId (nextId (store w))) ∧
  inVoice (ui (snd (enterVoice w))) = true ∧
  pcRef (media (snd (enterVoice w))) = Some (S (nextHandle (media w))) ∧
  localStreamRef (media (snd (enterVoice w))) = Some [nextHandle (media w)] ∧
  pcs (media (snd (enterVoice w))) !! S (nextHandle (media w)) =
    Some (mkPc false [nextHandle (media w)]
            (Some (FDesc "offer" ("sdp-offer-" +:+ pretty (S (nextHandle (media w))))))
            None
            (Some (offerCandidates (roomId (ui w)) (autoId (nextId (store w))))) []) ∧
  subscriptions (media (snd (enterVoice w))) =
    (subscriptions (media w) ++
     [SubCallerDoc (S (nextHandle (media w))) (autoId (nextId (store w)));
      SubCandidates (S (nextHandle (media w)))
        (answerCandidates (roomId (ui w)) (autoId (nextId (store w))))])%list.
Proof.
  intros Hu Hrid Hcan Hptr Hmic. voice_paths w u.
  unfold field in *. enter_voice.
  change (callRef (roomId (ui w)) (autoId (nextId (store w)))) with
    (callsColl (roomId (ui w)) ++ [autoId (nextId (store w))])%list in *.
  rewrite Hu, Hcan. rewrite (bool_decide_eq_false_2 _ Hrid). cbn [negb]. proj.
  destruct (docs (store w) !! voiceRef (roomId (ui w))) as [vd|] eqn:Hvd.
  - proj. rewrite lookup_insert_ne by exact Hvm. rewrite Hvd.
    cbn [default from_option id mbind option_bind] in *. rewrite Hptr. cbn [negb]. proj.
    rewrite Hu. proj.
    rewrite lookup_insert_ne by apply Hcv.
    rewrite lookup_insert_ne by exact Hvm. rewrite Hvd. proj.
    rewrite Hu. proj. rewrite Hmic. proj.
    rewrite lookup_insert_ne by (apply not_eq_sym, Hcv). rewrite lookup_insert_eq. proj.
    caller_done.
  - proj. rewrite lookup_insert_ne by exact Hvm. rewrite lookup_insert_eq.
    cbn [default from_option id mbind option_bind] in *.
    erewrite (merged_field _ _ _ "callId") by reflexivity.
    cbn [resolveField truthy negb]. proj.
    rewrite Hu. proj.
    rewrite lookup_insert_ne by apply Hcv.
    rewrite lookup_insert_ne by exact Hvm. rewrite lookup_insert_eq. proj.
    rewrite Hu. proj. rewrite Hmic. proj.
    rewrite lookup_insert_ne by (apply not_eq_sym, Hcv). rewrite lookup_insert_eq. proj.
    caller_done.
Qed.

Ltac voice_done :=
  repeat match goal with
  | |- _ ∧ _ => split
  end;
  unfold field; proj; paths; look; fld;
  try reflexivity; try assumption; try (by rewrite <- app_assoc).

Lemma enterVoice_callee_spec
    (w : World) (u : User) (vd cd : gmap string fval) (cid ty sdp : string) :
  user (ui w) = Some u →
  roomId (ui w) ≠ "" →
  truthy (Some (canCallNow w)) = true →
  docs (store w) !! voiceRef (roomId (ui w)) = Some vd →
  vd !! "callId" = Some (FStr cid) →
  cid ≠ "" →
  docs (store w) !! callRef (roomId (ui w)) cid = Some cd →
  cd !! "offer" = Some (FDesc ty sdp) →
  micGranted (media w) = true →
  fst (enterVoice w) = Ok tt ∧
  field (callRef (roomId (ui w)) cid) "answer" (snd (enterVoice w)) =
    Some (FDesc "answer" ("sdp-answer-" +:+ pretty (S (nextHandle (media w))))) ∧
  field (callRef (roomId (ui w)) cid) "status" (snd (enterVoice w)) = Some (FStr "connected") ∧
  field (callRef (roomId (ui w)) cid) "offer" (snd (enterVoice w)) = Some (FDesc ty sdp) ∧
  docs (store (snd (enterVoice w))) !! voiceRef (roomId (ui w)) = Some vd ∧
  field (voiceMemberRef (roomId (ui w)) (uid u)) "uid" (snd (enterVoice w)) =
    Some (FStr (uid u)) ∧
  voiceCallId (ui (snd (enterVoice w))) = Some cid ∧
  inVoice (ui (snd (enterVoice w))) = true ∧
  pcRef (media (snd (enterVoice w))) = Some (S (nextHandle (media w))) ∧
  localStreamRef (media (snd (enterVoice w))) = Some [nextHandle (media w)] ∧
  pcs (media (snd (enterVoice w))) !! S (nextHandle (media w)) =
    Some (mkPc false [nextHandle (media w)]
            (Some (FDesc "answer" ("sdp-answer-" +:+ pretty (S (nextHandle (media w))))))
            (Some (FDesc ty sdp))
            (Some (answerCandidates (roomId (ui w)) cid)) []) ∧
  subscriptions (media (snd (enterVoice w))) =
    (subscriptions (media w) ++
     [SubCandidates (S (nextHandle (media w))) (offerCandidates (roomId (ui w)) cid);
      SubCalleeDoc cid])%list.
Proof.
  intros Hu Hrid Hcan Hvd Hcid Hne Hcd Hoffer Hmic. voice_paths w u.
  assert (Hptr : truthy (vd !! "callId") = true).
  { rewrite Hcid. simpl. by rewrite (bool_decide_eq_false_2 _ Hne). }
  enter_voice.
  rewrite Hu, Hcan. rewrite (bool_decide_eq_false_2 _ Hrid). cbn [negb]. proj.
  rewrite Hvd. proj. rewrite lookup_insert_ne by exact Hvm. rewrite Hvd.
  cbn [default from_option id mbind option_bind] in *. rewrite Hptr. cbn [negb]. rewrite Hcid.
  proj. rewrite Hu. proj.
  rewrite lookup_insert_ne by (apply not_eq_sym, Hcm). rewrite Hcd, Hoffer.
  cbn [truthy negb]. proj. rewrite Hmic. proj.
  rewrite ?Hoffer. proj. rewrite !lookup_alter_eq, lookup_insert_eq. cbn [fmap option_fmap option_map pcClosed]. proj.
  rewrite lookup_insert_ne by (apply not_eq_sym, Hcm). rewrite Hcd. proj.
  voice_done.
Qed.

(** Entering when the referenced call is missing or has no offer. *)
Lemma enterVoice_callee_stops
    (w : World) (u : User) (vd : gmap string fval) (cid : string) :
  user (ui w) = Some u →
  roomId (ui w) ≠ "" →
  truthy (Some (canCallNow w)) = true →
  docs (store w) !! voiceRef (roomId (ui w)) = Some vd →
  vd !! "callId" = Some (FStr cid) →
  cid ≠ "" →
  truthy (field (callRef (roomId (ui w)) cid) "offer" w) = false →
  fst (enterVoice w) = Ok tt ∧
  field (voiceMemberRef (roomId (ui w)) (uid u)) "uid" (snd (enterVoice w)) =
    Some (FStr (uid u)) ∧
  docs (store (snd (enterVoice w))) !! callRef (roomId (ui w)) cid =
    docs (store w) !! callRef (roomId (ui w)) cid ∧
  docs (store (snd (enterVoice w))) !! voiceRef (roomId (ui w)) = Some vd ∧
  media (snd (enterVoice w)) = media w ∧
  inVoice (ui (snd (enterVoice w))) = inVoice (ui w) ∧
  voiceCallId (ui (snd (enterVoice w))) = Some cid ∧
  voiceStatus (ui (snd (enterVoice w))) =
    match docs (store w) !! callRef (roomId (ui w)) cid with
    | None => "Sessione vocale non trovata."
    | Some _ => "Sessione non pronta (manca offer). Riprova tra 2 secondi."
    end.
Proof.
  intros Hu Hrid Hcan Hvd Hcid Hne Hoff. voice_paths w u.
  assert (Hptr : truthy (vd !! "callId") = true).
  { rewrite Hcid. simpl. by rewrite (bool_decide_eq_false_2 _ Hne). }
  unfold field in Hoff. enter_voice.
  rewrite Hu, Hcan. rewrite (bool_decide_eq_false_2 _ Hrid). cbn [negb]. proj.
  rewrite Hvd. proj. rewrite lookup_insert_ne by exact Hvm. rewrite Hvd.
  cbn [default from_option id mbind option_bind] in *. rewrite Hptr. cbn [negb]. rewrite Hcid.
  proj. rewrite Hu. proj.
  rewrite lookup_insert_ne by (apply not_eq_sym, Hcm).
  destruct (docs (store w) !! callRef (roomId (ui w)) cid) as [cd|] eqn:Hcd.
  - cbn [mbind option_bind] in Hoff. rewrite Hoff. cbn [negb]. voice_done.
    all: try (by destruct w).
  - voice_done. all: try (by destruct w).
Qed.

(** X2: [exitVoice] by a signed-in user deletes the presence document
    of that user and no other document, so the session stays open for
    the others; it stops the local tracks, drops the connection and the
    stream and shows that the user has left. *)
Theorem exitVoice_leaves_channel (w : World) (u : User) :
  user (ui w) = Some u →
  roomId (ui w) ≠ "" →
  fst (exitVoice w) = Ok tt ∧
  docs (store (snd (exitVoice w))) =
    delete (voiceMemberRef (roomId (ui w)) (uid u)) (docs (store w)) ∧
  pcRef (media (snd (exitVoice w))) = None ∧
  localStreamRef (media (snd (exitVoice w))) = None ∧
  inVoice (ui (snd (exitVoice w))) = false ∧
  voiceStatus (ui (snd (exitVoice w))) = "Sei uscito dal vocale." ∧
  stoppedTracks (media (snd (exitVoice w))) =
    list_to_set (default [] (localStreamRef (media w))) ∪ stoppedTracks (media w).
Proof.
  intros Hu Hrid. unfold exitVoice, deleteDocM, deleteDoc. setters. run.
  rewrite Hu, (bool_decide_eq_false_2 _ Hrid). proj.
  match goal with
  | |- context [cleanupCall ?w0] => rewrite (cleanupCall_runs w0)
  end.
  proj. by repeat split.
Qed.

Lemma exitVoice_leaves_channel_witness :
  fst (exitVoice Sample.aliceCalling) = Ok tt ∧
  inVoice (ui (snd (exitVoice Sample.aliceCalling))) = false.
Proof.
  destruct (exitVoice_leaves_channel Sample.aliceCalling Sample.alice)
    as (Hok & _ & _ & _ & Hout & _); [reflexivity | discriminate |].
  split; [exact Hok | exact Hout].
Defined.

Ltac close_finish w Hvd :=
  run; proj;
  split; [reflexivity|];
  split; [unfold field; proj; paths; look; fld|];
  split; [reflexivity|];
  split; [by destruct w|];
  split; [reflexivity|];
  split;
  [ intros c Hc; paths; look; try exact Hc
  | intros c cd Hptr Hne Hcd; unfold field in Hptr; paths; rewrite Hvd in Hptr;
    cbn [mbind option_bind] in Hptr ].

(** Closing the channel, whatever the voice state. *)
Lemma closeVoiceForAll_admin_spec (w : World) :
  myRole (ui w) = "admin" →
  roomId (ui w) ≠ "" →
  fst (closeVoiceForAll w) = Ok tt ∧
  field (voiceRef (roomId (ui w))) "callId" (snd (closeVoiceForAll w)) = Some FNull ∧
  voiceCallId (ui (snd (closeVoiceForAll w))) = None ∧
  media (snd (closeVoiceForAll w)) = media w ∧
  nextId (store (snd (closeVoiceForAll w))) = nextId (store w) ∧
  (∀ cid, docs (store w) !! callRef (roomId (ui w)) cid = None →
     docs (store (snd (closeVoiceForAll w))) !! callRef (roomId (ui w)) cid = None) ∧
  (∀ cid cd, field (voiceRef (roomId (ui w))) "callId" w = Some (FStr cid) → cid ≠ "" →
     docs (store w) !! callRef (roomId (ui w)) cid = Some cd →
     docs (store (snd (closeVoiceForAll w))) !! callRef (roomId (ui w)) cid =
       Some (<["status" := FStr "ended"]> cd)).
Proof.
  intros Hadmin Hrid.
  unfold closeVoiceForAll, getDocM, getDoc, pathSegment, updateDocM, setDocMergeM, updateDoc,
    setDocMerge.
  setters. run.
  rewrite Hadmin. change (isAdmin "admin") with true.
  rewrite (bool_decide_eq_false_2 _ Hrid). cbn [negb orb]. proj.
  destruct (docs (store w) !! voiceRef (roomId (ui w))) as [vd|] eqn:Hvd;
    cbn [mbind option_bind].
  - destruct (vd !! "callId") as [[| [] |cid| | |]|] eqn:Hcid; cbn [truthy].
    + close_finish w Hvd. congruence.
    + close_finish w Hvd. congruence.
    + close_finish w Hvd. congruence.
    + destruct (decide (cid = "")) as [->|Hcne].
      * change (bool_decide ("" = "")) with true. cbn [negb]. close_finish w Hvd. congruence.
      * rewrite (bool_decide_eq_false_2 _ Hcne). cbn [negb]. proj.
        destruct (docs (store w) !! callRef (roomId (ui w)) cid) as [cd0|] eqn:Hcd0.
        -- close_finish w Hvd.
           assert (c = cid) as -> by congruence.
           rewrite lookup_insert_ne by congruence. rewrite lookup_insert_eq.
           unfold resolve. rewrite map_fmap_singleton, <- insert_union_singleton_l.
           cbn [resolveField]. congruence.
        -- close_finish w Hvd. assert (c = cid) as -> by congruence. congruence.
    + close_finish w Hvd. congruence.
    + close_finish w Hvd. congruence.
    + close_finish w Hvd. congruence.
    + close_finish w Hvd. congruence.
  - cbn [truthy]. close_finish w Hvd. congruence.
Qed.

(* ===================================================================== *)
(** * Listeners                                                            *)
(* ===================================================================== *)

(** The callee-side listener tears down on [ended] and only then. *)
Lemma onCalleeSnapshot_spec (snap : option (gmap string fval)) (w : World) :
  (snap = None ∨ (∀ data, snap = Some data → data !! "status" ≠ Some (FStr "ended")) →
     onCalleeSnapshot snap w = (Ok tt, w)) ∧
  (∀ data, snap = Some data → data !! "status" = Some (FStr "ended") →
     fst (onCalleeSnapshot snap w) = Ok tt ∧
     pcRef (media (snd (onCalleeSnapshot snap w))) = None ∧
     localStreamRef (media (snd (onCalleeSnapshot snap w))) = None ∧
     inVoice (ui (snd (onCalleeSnapshot snap w))) = false ∧
     voiceStatus (ui (snd (onCalleeSnapshot snap w))) = "Vocale chiuso." ∧
     store (snd (onCalleeSnapshot snap w)) = store w ∧
     (∀ h p, pcRef (media w) = Some h → pcs (media w) !! h = Some p →
        pcClosed <$> pcs (media (snd (onCalleeSnapshot snap w))) !! h = Some true) ∧
     stoppedTracks (media (snd (onCalleeSnapshot snap w))) =
       list_to_set (default [] (localStreamRef (media w))) ∪ stoppedTracks (media w)).
Proof.
  split.
  - intros Hno. destruct snap as [data|]; [|reflexivity].
    unfold onCalleeSnapshot, strict_eq. run.
    destruct Hno as [Hno|Hno]; [discriminate|].
    by rewrite (bool_decide_eq_false_2 _ (Hno data eq_refl)).
  - intros data -> Hended. unfold onCalleeSnapshot, strict_eq. setters. run.
    rewrite (bool_decide_eq_true_2 _ Hended).
    match goal with
    | |- context [cleanupCall ?w0] => rewrite (cleanupCall_runs w0)
    end.
    proj. repeat match goal with |- _ ∧ _ => split end; try reflexivity.
    intros h p -> Hp. by rewrite lookup_alter_eq, Hp.
Qed.

(** X3: on the side of the caller, a snapshot of the call document
    with the status [ended] and no answer left to apply ends the local
    call: connection and stream are dropped, the user is no longer in
    voice, and nothing is written to the store. *)
Theorem caller_tears_down_on_ended (pc : nat) (data : gmap string fval) (w : World) :
  data !! "status" = Some (FStr "ended") →
  remoteOf pc w ≠ None ∨ truthy (data !! "answer") = false →
  fst (onCallerSnapshot pc (Some data) w) = Ok tt ∧
  pcRef (media (snd (onCallerSnapshot pc (Some data) w))) = None ∧
  localStreamRef (media (snd (onCallerSnapshot pc (Some data) w))) = None ∧
  inVoice (ui (snd (onCallerSnapshot pc (Some data) w))) = false ∧
  voiceStatus (ui (snd (onCallerSnapshot pc (Some data) w))) = "Vocale chiuso." ∧
  store (snd (onCallerSnapshot pc (Some data) w)) = store w.
Proof.
  intros Hended Hquiet. unfold onCallerSnapshot, getCurrentRemoteDescription, strict_eq.
  run. proj.
  match goal with
  | |- context [bool_decide (?o = None)] => change o with (remoteOf pc w)
  end.
  assert (Hskip : bool_decide (remoteOf pc w = None) && truthy (data !! "answer") = false).
  { destruct Hquiet as [Hset|Hno].
    - by rewrite (bool_decide_eq_false_2 _ Hset).
    - rewrite Hno. apply andb_false_r. }
  rewrite Hskip, (bool_decide_eq_true_2 _ Hended). setters. run.
  match goal with
  | |- context [cleanupCall ?w0] => rewrite (cleanupCall_runs w0)
  end.
  proj. by repeat split.
Qed.

Lemma caller_tears_down_on_ended_witness :
  pcRef (media (snd (onCallerSnapshot 1
           (Some (<["status" := FStr "ended"]> Sample.offeredCall)) Sample.aliceCalling))) = None.
Proof.
  destruct (caller_tears_down_on_ended 1 (<["status" := FStr "ended"]> Sample.offeredCall)
              Sample.aliceCalling) as (_ & Href & _); [reflexivity | right; reflexivity |].
  exact Href.
Defined.



(** The listener of the voice state. *)
Lemma onVoiceSnapshot_spec (snap : option (gmap string fval)) (w : World) :
  fst (onVoiceSnapshot snap w) = Ok tt ∧
  store (snd (onVoiceSnapshot snap w)) = store w ∧
  media (snd (onVoiceSnapshot snap w)) = media w ∧
  voiceCallId (ui (snd (onVoiceSnapshot snap w))) =
    match d ← snap; d !! "callId" with
    | Some (FStr cid) => Some cid
    | _ => None
    end ∧
  voiceStatus (ui (snd (onVoiceSnapshot snap w))) =
    match d ← snap; d !! "callId" with
    | Some (FStr cid) => "Vocale attivo."
    | _ => "Vocale non attivo."
    end.
Proof.
  unfold onVoiceSnapshot. setters. run.
  destruct snap as [data|]; cbn [mbind option_bind]; [|by destruct w].
  destruct (data !! "callId") as [[]|]; cbn [coalesce]; by destruct w.
Qed.

(** X5: [ensureVoiceStateDoc] writes the voice state document, with
    no session in it, only when the document is missing; an existing
    document is left as it is, and a second run changes nothing. *)
Theorem voice_state_created_once (w : World) :
  fst (ensureVoiceStateDoc w) = Ok tt ∧
  (∀ vd, docs (store w) !! voiceRef (roomId (ui w)) = Some vd → ensureVoiceStateDoc w = (Ok tt, w)) ∧
  (docs (store w) !! voiceRef (roomId (ui w)) = None →
     field (voiceRef (roomId (ui w))) "callId" (snd (ensureVoiceStateDoc w)) = Some FNull) ∧
  ensureVoiceStateDoc (snd (ensureVoiceStateDoc w)) = (Ok tt, snd (ensureVoiceStateDoc w)).
Proof.
  unfold ensureVoiceStateDoc, getDocM, getDoc, setDocMergeM, setDocMerge, field. run. proj.
  destruct (docs (store w) !! voiceRef (roomId (ui w))) as [vd|] eqn:Hvd; proj.
  - repeat split; try done. by rewrite Hvd.
  - split; [reflexivity|]. split; [done|]. split.
    + intros _. paths. look. fld.
    + by rewrite lookup_insert_eq.
Qed.

(* ===================================================================== *)
(** * The voice channel across clients                                     *)
(* ===================================================================== *)

Lemma autoId_nonempty (n : nat) : autoId n ≠ "".
Proof. unfold autoId. intros H. discriminate H. Qed.

Lemma field_some (p : list string) (k : string) (v : fval) (w : World) :
  field p k w = Some v → ∃ d, docs (store w) !! p = Some d ∧ d !! k = Some v.
Proof.
  unfold field. destruct (docs (store w) !! p) as [d|]; [|discriminate].
  intros Hk. by exists d.
Qed.

(** X6: a first user enters an empty voice channel and a second user
    of the same room enters after that.  The second one answers the
    session of the first: the channel still points to that session, its
    status is [connected], the second holds the offer of the first as
    its remote description, and the listener of the first, on the
    document the second has written, applies the answer, once. *)
Theorem voice_round_trip (w1 w2 : World) (u1 u2 : User) :
  user (ui w1) = Some u1 →
  roomId (ui w1) ≠ "" →
  truthy (Some (canCallNow w1)) = true →
  truthy (field (voiceRef (roomId (ui w1))) "callId" w1) = false →
  micGranted (media w1) = true →
  user (ui w2) = Some u2 →
  roomId (ui w2) = roomId (ui w1) →
  truthy (Some (canCallNow w2)) = true →
  micGranted (media w2) = true →
  store w2 = store (snd (enterVoice w1)) →
  fst (enterVoice w1) = Ok tt ∧
  fst (enterVoice w2) = Ok tt ∧
  field (voiceRef (roomId (ui w1))) "callId" (snd (enterVoice w2)) =
    Some (FStr (autoId (nextId (store w1)))) ∧
  field (callRef (roomId (ui w1)) (autoId (nextId (store w1)))) "status" (snd (enterVoice w2)) =
    Some (FStr "connected") ∧
  remoteOf (S (nextHandle (media w2))) (snd (enterVoice w2)) =
    Some (FDesc "offer" ("sdp-offer-" +:+ pretty (S (nextHandle (media w1))))) ∧
  remoteOf (S (nextHandle (media w1)))
    (snd (onCallerSnapshot (S (nextHandle (media w1)))
            (docs (store (snd (enterVoice w2))) !!
               callRef (roomId (ui w1)) (autoId (nextId (store w1))))
            (snd (enterVoice w1)))) =
    Some (FDesc "answer" ("sdp-answer-" +:+ pretty (S (nextHandle (media w2))))) ∧
  remoteApplications (S (nextHandle (media w1)))
    (snd (onCallerSnapshot (S (nextHandle (media w1)))
            (docs (store (snd (enterVoice w2))) !!
               callRef (roomId (ui w1)) (autoId (nextId (store w1))))
            (snd (enterVoice w1)))) =
    S (remoteApplications (S (nextHandle (media w1))) (snd (enterVoice w1))).
Proof.
  intros Hu1 Hrid1 Hcan1 Hptr1 Hmic1 Hu2 Hrid2 Hcan2 Hmic2 Hstore.
  destruct (enterVoice_caller_spec w1 u1 Hu1 Hrid1 Hcan1 Hptr1 Hmic1)
    as (Hok1 & Hcall & _ & Hoffer & _ & _ & _ & _ & _ & _ & Hpc1 & _).
  destruct (field_some _ _ _ _ Hcall) as (vd & Hvd & Hcid).
  destruct (field_some _ _ _ _ Hoffer) as (cd & Hcd & Hoff).
  rewrite <- Hstore, <- Hrid2 in Hvd, Hcd.
  assert (Hrid2' : roomId (ui w2) ≠ "") by (by rewrite Hrid2).
  destruct (enterVoice_callee_spec w2 u2 vd cd (autoId (nextId (store w1))) _ _
              Hu2 Hrid2' Hcan2 Hvd Hcid (autoId_nonempty _) Hcd Hoff Hmic2)
    as (Hok2 & Hanswer & Hstatus & _ & Hptr2 & _ & _ & _ & _ & _ & Hpc2 & _).
  rewrite Hrid2 in *.
  destruct (field_some _ _ _ _ Hanswer) as (data & Hdata & Hans).
  split; [exact Hok1|]. split; [exact Hok2|]. split.
  { unfold field. rewrite Hptr2. exact Hcid. }
  split; [exact Hstatus|]. split.
  { unfold remoteOf. by rewrite Hpc2. }
  rewrite Hdata.
  destruct (onCallerSnapshot_first _ _ data _ _ (snd (enterVoice w1)) Hpc1 eq_refl eq_refl Hans)
    as [Happ Hrem].
  split; [exact Hrem | exact Happ].
Qed.

Lemma voice_round_trip_witness :
  fst (enterVoice Scenes.aliceAfterBob) = Ok tt ∧
  field (callRef "r1" (autoId 0)) "status" (snd (enterVoice Scenes.aliceAfterBob)) =
    Some (FStr "connected").
Proof.
  destruct (voice_round_trip Sample.bobMic Scenes.aliceAfterBob Sample.bob Sample.alice)
    as (_ & Hok & _ & Hstatus & _);
    [reflexivity | discriminate | reflexivity | reflexivity | reflexivity | reflexivity
    | reflexivity | reflexivity | reflexivity | vm_compute; reflexivity |].
  split; [exact Hok | exact Hstatus].
Defined.

(** X7: once the administrator has closed the voice channel, a
    participant whose listener receives the call document ends its local
    call, and a client whose listener receives the voice state document
    sees no active session. *)
Theorem closing_reaches_every_client (wa wc : World) (cid : string) (cd : gmap string fval) :
  myRole (ui wa) = "admin" →
  roomId (ui wa) ≠ "" →
  field (voiceRef (roomId (ui wa))) "callId" wa = Some (FStr cid) →
  cid ≠ "" →
  docs (store wa) !! callRef (roomId (ui wa)) cid = Some cd →
  (pcRef (media (snd (onCalleeSnapshot
      (docs (store (snd (closeVoiceForAll wa))) !! callRef (roomId (ui wa)) cid) wc))) = None ∧
   localStreamRef (media (snd (onCalleeSnapshot
      (docs (store (snd (closeVoiceForAll wa))) !! callRef (roomId (ui wa)) cid) wc))) = None ∧
   inVoice (ui (snd (onCalleeSnapshot
      (docs (store (snd (closeVoiceForAll wa))) !! callRef (roomId (ui wa)) cid) wc))) = false) ∧
  (voiceCallId (ui (snd (onVoiceSnapshot
      (docs (store (snd (closeVoiceForAll wa))) !! voiceRef (roomId (ui wa))) wc))) = None ∧
   voiceStatus (ui (snd (onVoiceSnapshot
      (docs (store (snd (closeVoiceForAll wa))) !! voiceRef (roomId (ui wa))) wc))) =
     "Vocale non attivo.").
Proof.
  intros Hadmin Hrid Hptr Hne Hcd.
  destruct (closeVoiceForAll_admin_spec wa Hadmin Hrid) as (_ & Hnull & _ & _ & _ & _ & Hended).
  rewrite (Hended cid cd Hptr Hne Hcd). split.
  - destruct (onCalleeSnapshot_spec (Some (<["status":=FStr "ended"]> cd)) wc) as [_ Hdown].
    destruct (Hdown _ eq_refl (lookup_insert_eq _ _ _)) as (_ & Hpc & Hls & Hin & _).
    by repeat split.
  - destruct (onVoiceSnapshot_spec
                (docs (store (snd (closeVoiceForAll wa))) !! voiceRef (roomId (ui wa))) wc)
      as (_ & _ & _ & Hid & Hmsg).
    unfold field in Hnull. rewrite Hid, Hmsg, Hnull. by split.
Qed.

Lemma closing_reaches_every_client_witness :
  inVoice (ui (snd (onCalleeSnapshot
    (docs (store (snd (closeVoiceForAll Sample.aliceAdmin))) !! callRef "r1" "c1")
    (Sample.bobJoining Sample.answeredCall)))) = false.
Proof.
  destruct (closing_reaches_every_client Sample.aliceAdmin (Sample.bobJoining Sample.answeredCall)
              "c1" Sample.answeredCall) as ((_ & _ & Hout) & _);
    [reflexivity | discriminate | reflexivity | discriminate | reflexivity |].
  exact Hout.
Defined.

(** What the caller path leaves alone. *)
Lemma enterVoice_caller_frame (w : World) (u : User) (q : list string) :
  user (ui w) = Some u →
  roomId (ui w) ≠ "" →
  truthy (Some (canCallNow w)) = true →
  truthy (field (voiceRef (roomId (ui w))) "callId" w) = false →
  micGranted (media w) = true →
  q ≠ voiceRef (roomId (ui w)) →
  q ≠ voiceMemberRef (roomId (ui w)) (uid u) →
  q ≠ callRef (roomId (ui w)) (autoId (nextId (store w))) →
  docs (store (snd (enterVoice w))) !! q = docs (store w) !! q.
Proof.
  intros Hu Hrid Hcan Hptr Hmic Hq1 Hq2 Hq3. voice_paths w u.
  unfold field in *. enter_voice.
  change (callRef (roomId (ui w)) (autoId (nextId (store w)))) with
    (callsColl (roomId (ui w)) ++ [autoId (nextId (store w))])%list in *.
  rewrite Hu, Hcan. rewrite (bool_decide_eq_false_2 _ Hrid). cbn [negb]. proj.
  destruct (docs (store w) !! voiceRef (roomId (ui w))) as [vd|] eqn:Hvd.
  - proj. rewrite lookup_insert_ne by exact Hvm. rewrite Hvd.
    cbn [default from_option id mbind option_bind] in *. rewrite Hptr. cbn [negb]. proj.
    rewrite Hu. proj.
    rewrite lookup_insert_ne by apply Hcv.
    rewrite lookup_insert_ne by exact Hvm. rewrite Hvd. proj.
    rewrite Hu. proj. rewrite Hmic. proj.
    rewrite lookup_insert_ne by (apply not_eq_sym, Hcv). rewrite lookup_insert_eq. proj.
    paths. look. reflexivity.
  - proj. rewrite lookup_insert_ne by exact Hvm. rewrite lookup_insert_eq.
    cbn [default from_option id mbind option_bind] in *.
    erewrite (merged_field _ _ _ "callId") by reflexivity.
    cbn [resolveField truthy negb]. proj.
    rewrite Hu. proj.
    rewrite lookup_insert_ne by apply Hcv.
    rewrite lookup_insert_ne by exact Hvm. rewrite lookup_insert_eq. proj.
    rewrite Hu. proj. rewrite Hmic. proj.
    rewrite lookup_insert_ne by (apply not_eq_sym, Hcv). rewrite lookup_insert_eq. proj.
    paths. look. reflexivity.
Qed.
(** X8: after the administrator has closed the voice channel, the
    next user who enters does not join the closed session but opens a
    new one.  With an automatic id that is not in use, as the ids of
    Firestore are, the new session is under an id other than that of the
    closed session, the channel points to it and its status is [open],
    while the closed session keeps the status [ended]. *)
Theorem closing_then_entering_starts_anew (wa w : World) (u : User) :
  myRole (ui wa) = "admin" →
  roomId (ui wa) ≠ "" →
  docs (store wa) !! callRef (roomId (ui wa)) (autoId (nextId (store wa))) = None →
  user (ui w) = Some u →
  roomId (ui w) = roomId (ui wa) →
  truthy (Some (canCallNow w)) = true →
  micGranted (media w) = true →
  store w = store (snd (closeVoiceForAll wa)) →
  fst (enterVoice w) = Ok tt ∧
  field (voiceRef (roomId (ui wa))) "callId" (snd (enterVoice w)) =
    Some (FStr (autoId (nextId (store wa)))) ∧
  field (callRef (roomId (ui wa)) (autoId (nextId (store wa)))) "status" (snd (enterVoice w)) =
    Some (FStr "open") ∧
  inVoice (ui (snd (enterVoice w))) = true ∧
  (∀ cid cd,
     field (voiceRef (roomId (ui wa))) "callId" wa = Some (FStr cid) → cid ≠ "" →
     docs (store wa) !! callRef (roomId (ui wa)) cid = Some cd →
     autoId (nextId (store wa)) ≠ cid ∧
     docs (store (snd (enterVoice w))) !! callRef (roomId (ui wa)) cid =
       Some (<["status" := FStr "ended"]> cd)).
Proof.
  intros Hadmin Hrid Hfree Hu Hsame Hcan Hmic Hstore.
  destruct (closeVoiceForAll_admin_spec wa Hadmin Hrid)
    as (_ & Hnull & _ & _ & Hid & _ & Hended).
  assert (Hrid' : roomId (ui w) ≠ "") by (by rewrite Hsame).
  assert (Hptr : truthy (field (voiceRef (roomId (ui w))) "callId" w) = false).
  { unfold field in *. by rewrite Hstore, Hsame, Hnull. }
  destruct (enterVoice_caller_spec w u Hu Hrid' Hcan Hptr Hmic)
    as (Hok & Hcall & Hopen & _ & _ & _ & _ & Hin & _).
  rewrite Hsame, Hstore, Hid in Hcall, Hopen.
  split; [exact Hok|]. split; [exact Hcall|]. split; [exact Hopen|]. split; [exact Hin|].
  intros cid cd Hcid Hne Hcd.
  assert (Hnew : autoId (nextId (store wa)) ≠ cid) by (intros Heq; rewrite Heq in Hfree; congruence).
  split; [exact Hnew|].
  rewrite (enterVoice_caller_frame w u (callRef (roomId (ui wa)) cid) Hu Hrid' Hcan Hptr Hmic).
  - rewrite Hstore. by apply Hended.
  - rewrite Hsame. unfold callRef, voiceRef. congruence.
  - rewrite Hsame. unfold callRef, voiceMemberRef. congruence.
  - rewrite Hsame, Hstore, Hid. unfold callRef. congruence.
Qed.

Lemma closing_then_entering_starts_anew_witness :
  fst (enterVoice Scenes.bobAfterClosing) = Ok tt ∧
  autoId 0 ≠ "c1" ∧
  docs (store (snd (enterVoice Scenes.bobAfterClosing))) !! callRef "r1" "c1" =
    Some (<["status" := FStr "ended"]> Sample.answeredCall).
Proof.
  destruct (closing_then_entering_starts_anew Sample.aliceAdmin Scenes.bobAfterClosing Sample.bob)
    as (Hok & _ & _ & _ & Hclosed);
    [reflexivity | discriminate | vm_compute; reflexivity | reflexivity | reflexivity
    | reflexivity | reflexivity | vm_compute; reflexivity |].
  destruct (Hclosed "c1" Sample.answeredCall) as (Hnew & Hdoc);
    [reflexivity | discriminate | reflexivity |].
  split; [exact Hok|]. split; [exact Hnew | exact Hdoc].
Defined.

(* ===================================================================== *)
(** * Chat, settings and overrides                                         *)
(* ===================================================================== *)

Import OlderRoomPageRest.

(** X9: for a text of units below 128, where [trim] is that of
    JavaScript: [send] writes nothing and keeps the text without a user,
    without the permission to chat, or when the text is blank.
    Otherwise, the automatic id not being in use, it adds exactly one
    message, under that id, with the trimmed text, the user, the display
    name and the server time, empties the text and changes nothing
    else. *)
Theorem send_writes_one_trimmed_message (text : string) (w : World) :
  Invite.asciiOnly text = true →
  (user (ui w) = None ∨ truthy (Some (canChatNow w)) = false ∨ Invite.trim text = "" →
     send text w = (Ok text, w)) ∧
  (∀ u, user (ui w) = Some u → truthy (Some (canChatNow w)) = true →
     Invite.trim text ≠ "" →
     docs (store w) !! (messagesColl (roomId (ui w)) ++ [autoId (nextId (store w))])%list =
       None →
     fst (send text w) = Ok "" ∧
     docs (store (snd (send text w))) =
       <[(messagesColl (roomId (ui w)) ++ [autoId (nextId (store w))])%list :=
           {[ "text" := FStr (Invite.trim text);
              "uid" := FStr (uid u);
              "name" := nameOf u;
              "createdAt" := FTime (clock (store w)) ]}]> (docs (store w)) ∧
     ui (snd (send text w)) = ui w ∧
     media (snd (send text w)) = media w).
Proof.
  intros _. split.
  - intros Hno. unfold send. run.
    destruct (user (ui w)) as [u|] eqn:Hu; [|reflexivity].
    destruct (truthy (Some (canChatNow w))) eqn:Hcan; [|reflexivity]. cbn [negb].
    destruct Hno as [Hno|[Hno|Hno]]; try discriminate.
    by rewrite Hno.
  - intros u Hu Hcan Htext _. unfold send, addDocM, addDoc. run.
    rewrite Hu, Hcan. cbn [negb]. rewrite (bool_decide_eq_false_2 _ Htext). proj.
    split; [reflexivity|]. split; [|by destruct w].
    by f_equal.
Qed.

Lemma send_writes_one_trimmed_message_witness :
  fst (send "  ciao a tutti " Sample.bobMic) = Ok "" ∧
  docs (store (snd (send "  ciao a tutti " Sample.bobMic))) !! ["rooms"; "r1"; "messages"; autoId 0] =
    Some {[ "text" := FStr "ciao a tutti"; "uid" := FStr "bob"; "name" := FStr "Bob";
            "createdAt" := FTime 0 ]}.
Proof.
  destruct (send_writes_one_trimmed_message "  ciao a tutti " Sample.bobMic) as [_ Hsend];
    [reflexivity|].
  destruct (Hsend Sample.bob) as (Hok & Hdocs & _);
    [reflexivity | reflexivity | by vm_compute | vm_compute; reflexivity |].
  split; [exact Hok|]. rewrite Hdocs. vm_compute. reflexivity.
Defined.

Lemma updateRoomSetting_spec (patch : gmap string fval) (w : World) :
  (myRole (ui w) ≠ "admin" ∨ roomId (ui w) = "" → updateRoomSetting patch w = (Ok None, w)) ∧
  (myRole (ui w) = "admin" → roomId (ui w) ≠ "" →
     (∀ rd, docs (store w) !! roomRef (roomId (ui w)) = Some rd →
        fst (updateRoomSetting patch w) = Ok (Some "Salvato ✅") ∧
        docs (store (snd (updateRoomSetting patch w))) =
          <[roomRef (roomId (ui w)) := resolve (clock (store w)) patch ∪ rd]> (docs (store w)) ∧
        ui (snd (updateRoomSetting patch w)) = ui w ∧
        media (snd (updateRoomSetting patch w)) = media w) ∧
     (docs (store w) !! roomRef (roomId (ui w)) = None →
        updateRoomSetting patch w = (Ok (Some "Errore salvando."), w))).
Proof.
  split.
  - intros Hno. unfold updateRoomSetting. run.
    destruct Hno as [Hno|Hno].
    + by rewrite (isAdmin_false _ Hno).
    + rewrite Hno. by destruct (isAdmin (myRole (ui w))).
  - intros Hadmin Hrid. unfold updateRoomSetting, updateDocM, updateDoc. run.
    rewrite Hadmin. change (isAdmin "admin") with true.
    rewrite (bool_decide_eq_false_2 _ Hrid). cbn [negb]. split.
    + intros rd Hrd. rewrite Hrd. proj. by destruct w.
    + intros Hrd. by rewrite Hrd.
Qed.

(** X10: when the administrator switches the lock on calls on, the
    room document holds [lockCalls] true and the save is reported; a
    client that receives the room document may then call exactly when it
    is the administrator. *)
Theorem locking_calls_reaches_members (wa wm : World) (rd : gmap string fval) (um : User) :
  myRole (ui wa) = "admin" →
  roomId (ui wa) ≠ "" →
  docs (store wa) !! roomRef (roomId (ui wa)) = Some rd →
  truthy (d ← room (ui wa); d !! "lockCalls") = false →
  user (ui wm) = Some um →
  fst (clickLockCalls wa) = Ok (Some "Salvato ✅") ∧
  field (roomRef (roomId (ui wa))) "lockCalls" (snd (clickLockCalls wa)) = Some (FBool true) ∧
  canCallNow (snd (onRoomSnapshot
                     (docs (store (snd (clickLockCalls wa))) !! roomRef (roomId (ui wa))) wm)) =
    (if isAdmin (myRole (ui wm)) then FBool true else FBool false).
Proof.
  intros Hadmin Hrid Hrd Hunlocked Hum.
  unfold clickLockCalls, clickSetting. unfold mbind at 1 2 3, M_bind at 1 2 3, get. proj.
  destruct (updateRoomSetting_spec (toggled (room (ui wa)) "lockCalls" false) wa) as [_ Hupd].
  destruct (Hupd Hadmin Hrid) as [Hok _].
  destruct (Hok rd Hrd) as (Hres & Hdocs & _).
  assert (Hpatch : toggled (room (ui wa)) "lockCalls" false !! "lockCalls" = Some (FBool true)).
  { unfold toggled. rewrite lookup_singleton_eq. do 2 f_equal.
    apply negb_true_iff.
    by destruct (d ← room (ui wa); d !! "lockCalls") as [[]|]. }
  split; [exact Hres|]. split.
  - unfold field. rewrite Hdocs, lookup_insert_eq. cbn [mbind option_bind].
    by erewrite merged_field by exact Hpatch.
  - rewrite Hdocs, lookup_insert_eq. unfold onRoomSnapshot, canCallNow. setters. run. proj.
    rewrite Hum. unfold effectiveCanCall.
    destruct (isAdmin (myRole (ui wm))); [reflexivity|].
    by erewrite merged_field by exact Hpatch.
Qed.

Lemma locking_calls_reaches_members_witness :
  field (roomRef "r1") "lockCalls" (snd (clickLockCalls Sample.aliceAdmin)) = Some (FBool true) ∧
  canCallNow (snd (onRoomSnapshot
                     (docs (store (snd (clickLockCalls Sample.aliceAdmin))) !! roomRef "r1")
                     Sample.bobMic)) = FBool false.
Proof.
  destruct (locking_calls_reaches_members Sample.aliceAdmin Sample.bobMic Sample.room1 Sample.bob)
    as (_ & Hlock & Hcan);
    [reflexivity | discriminate | reflexivity | reflexivity | reflexivity |].
  split; [exact Hlock | exact Hcan].
Defined.

Import OlderRoomPageRest.

Lemma single_override_merge (now : nat) (k : string) (v : fval) (old : gmap string fval) :
  v ≠ FServerTimestamp → resolve now {[ k := v ]} ∪ old = <[k := v]> old.
Proof.
  intros Hv. unfold resolve. rewrite map_fmap_singleton, <- insert_union_singleton_l.
  by destruct v.
Qed.

Lemma override_button
    (payload : gmap string fval) (m : gmap string fval) (uidm : string)
    (old : gmap string fval) (w : World) :
  m !! "role" ≠ Some (FStr "admin") →
  m !! "uid" = Some (FStr uidm) →
  docs (store w) !! memberRef (roomId (ui w)) uidm = Some old →
  (if strict_eq (m !! "role") (Some (FStr "admin")) then mret tt
   else w0 ← get; u ← pathSegment (m !! "uid");
        updateDocM (memberRef (roomId (ui w0)) u) payload) w =
    (Ok tt,
     withStore (fun st =>
       mkStore (<[memberRef (roomId (ui w)) uidm := resolve (clock st) payload ∪ old]> (docs st))
               (S (clock st)) (nextId st)) w).
Proof.
  intros Hrole Huid Hold. unfold strict_eq, pathSegment, updateDocM, updateDoc. run.
  rewrite (bool_decide_eq_false_2 _ Hrole), Huid. proj. by rewrite Hold.
Qed.

(** X11: in the members list of the older room page, for a member
    who is no administrator, the chat and call buttons write the negation
    of the value of the row (false when the row has none) to that field
    of the member document alone, and the reset button writes null to
    both.  In a room without locks the permission of that member is then
    the value written, or the default of the room after a reset. *)
Theorem override_buttons_drive_resolution
    (m old r : gmap string fval) (uidm myRole : string) (u : User) (w : World) :
  m !! "role" ≠ Some (FStr "admin") →
  m !! "uid" = Some (FStr uidm) →
  docs (store w) !! memberRef (roomId (ui w)) uidm = Some old →
  myRole ≠ "admin" →
  truthy (r !! "lockChat") = false →
  truthy (r !! "lockCalls") = false →
  (fst (clickChatOverride m w) = Ok tt ∧
   docs (store (snd (clickChatOverride m w))) !! memberRef (roomId (ui w)) uidm =
     Some (<["canChat" := FBool (nextOverride (m !! "canChat"))]> old) ∧
   effectiveCanChat (Some u) (Some r) myRole
     (overridesOf (docs (store (snd (clickChatOverride m w))) !! memberRef (roomId (ui w)) uidm)) =
     FBool (nextOverride (m !! "canChat"))) ∧
  (fst (clickCallOverride m w) = Ok tt ∧
   docs (store (snd (clickCallOverride m w))) !! memberRef (roomId (ui w)) uidm =
     Some (<["canCall" := FBool (nextOverride (m !! "canCall"))]> old) ∧
   effectiveCanCall (Some u) (Some r) myRole
     (overridesOf (docs (store (snd (clickCallOverride m w))) !! memberRef (roomId (ui w)) uidm)) =
     FBool (nextOverride (m !! "canCall"))) ∧
  (fst (clickResetOverride m w) = Ok tt ∧
   docs (store (snd (clickResetOverride m w))) !! memberRef (roomId (ui w)) uidm =
     Some (<["canChat" := FNull]> (<["canCall" := FNull]> old)) ∧
   effectiveCanChat (Some u) (Some r) myRole
     (overridesOf (docs (store (snd (clickResetOverride m w))) !! memberRef (roomId (ui w)) uidm)) =
     coalesce (r !! "defaultCanChat") (FBool true) ∧
   effectiveCanCall (Some u) (Some r) myRole
     (overridesOf (docs (store (snd (clickResetOverride m w))) !! memberRef (roomId (ui w)) uidm)) =
     coalesce (r !! "defaultCanCall") (FBool true)).
Proof.
  intros Hrole Huid Hold Hme Hchat Hcall.
  split; [|split].
  - unfold clickChatOverride. rewrite (override_button _ m uidm old w Hrole Huid Hold). proj.
    rewrite lookup_insert_eq, single_override_merge by discriminate.
    split; [reflexivity|]. split; [reflexivity|].
    rewrite (chat_of_member u r myRole _ Hme), Hchat.
    unfold overridesOf. cbn [mbind option_bind canChat]. by rewrite lookup_insert_eq.
  - unfold clickCallOverride. rewrite (override_button _ m uidm old w Hrole Huid Hold). proj.
    rewrite lookup_insert_eq, single_override_merge by discriminate.
    split; [reflexivity|]. split; [reflexivity|].
    rewrite (call_of_member u r myRole _ Hme), Hcall.
    unfold overridesOf. cbn [mbind option_bind canCall]. by rewrite lookup_insert_eq.
  - unfold clickResetOverride. rewrite (override_button _ m uidm old w Hrole Huid Hold). proj.
    rewrite lookup_insert_eq.
    assert (Hmerge : resolve (clock (store w)) {["canChat" := FNull; "canCall" := FNull]} ∪ old =
                     <["canChat" := FNull]> (<["canCall" := FNull]> old)).
    { unfold resolve. rewrite fmap_insert, map_fmap_singleton. cbn [resolveField].
      by rewrite <- insert_union_l, <- insert_union_singleton_l. }
    rewrite Hmerge. split; [reflexivity|]. split; [reflexivity|].
    rewrite (chat_of_member u r myRole _ Hme), (call_of_member u r myRole _ Hme), Hchat, Hcall.
    unfold overridesOf. cbn [mbind option_bind canChat canCall].
    rewrite lookup_insert_eq, lookup_insert_ne, lookup_insert_eq by discriminate. by split.
Qed.

Lemma override_buttons_drive_resolution_witness :
  docs (store (snd (clickChatOverride Scenes.bobRow Scenes.aliceWithBob))) !! memberRef "r1" "bob" =
    Some (<["canChat" := FBool false]> Scenes.bobRow).
Proof.
  destruct (override_buttons_drive_resolution Scenes.bobRow Scenes.bobRow Sample.room1
              "bob" "member" Sample.bob Scenes.aliceWithBob) as ((_ & Hdoc & _) & _);
    [discriminate | reflexivity | reflexivity | discriminate | reflexivity | reflexivity |].
  exact Hdoc.
Defined.

(** X12: the three buttons do nothing on the row of an administrator;
    for a member whose document is missing the update fails and nothing
    is written. *)
Theorem override_buttons_spare_admin_and_unknown (m : gmap string fval) (w : World) :
  (m !! "role" = Some (FStr "admin") →
     clickChatOverride m w = (Ok tt, w) ∧ clickCallOverride m w = (Ok tt, w) ∧
     clickResetOverride m w = (Ok tt, w)) ∧
  (∀ uidm, m !! "role" ≠ Some (FStr "admin") → m !! "uid" = Some (FStr uidm) →
     docs (store w) !! memberRef (roomId (ui w)) uidm = None →
     clickChatOverride m w = (Throw "not-found", w) ∧
     clickCallOverride m w = (Throw "not-found", w) ∧
     clickResetOverride m w = (Throw "not-found", w)).
Proof.
  split.
  - intros Hadmin. unfold clickChatOverride, clickCallOverride, clickResetOverride, strict_eq.
    rewrite (bool_decide_eq_true_2 _ Hadmin). by repeat split.
  - intros uidm Hrole Huid Hnone.
    unfold clickChatOverride, clickCallOverride, clickResetOverride, strict_eq, pathSegment,
      updateDocM, updateDoc. run.
    rewrite (bool_decide_eq_false_2 _ Hrole), Huid. proj. rewrite Hnone. by repeat split.
Qed.

(* ===================================================================== *)
(** * Room load                                                            *)
(* ===================================================================== *)

Lemma patched_locks (data0 : gmap string fval) :
  (settingsPatch data0 ∪ data0) !! "lockChat" = Some (FBool (settled data0 "lockChat" false)) ∧
  (settingsPatch data0 ∪ data0) !! "lockCalls" = Some (FBool (settled data0 "lockCalls" false)).
Proof.
  split; rewrite lookup_union; apply settled_lookup; unfold settingsPatch.
  - rewrite !patch_lookup_ne by discriminate. rewrite patch_lookup_eq.
    rewrite !patch_lookup_ne by discriminate. by rewrite lookup_empty.
  - rewrite patch_lookup_eq.
    rewrite !patch_lookup_ne by discriminate. by rewrite lookup_empty.
Qed.

Lemma settingsPatch_booleans (data0 : gmap string fval) (k : string) (v : fval) :
  settingsPatch data0 !! k = Some v → ∃ b, v = FBool b.
Proof.
  unfold settingsPatch, patchIfNotBoolean.
  repeat match goal with
  | |- context [typeof_boolean ?o] => destruct (typeof_boolean o)
  end;
  intros Hk;
  repeat match type of Hk with
  | <[?k' := _]> _ !! _ = _ =>
      destruct (decide (k' = k)) as [<-|?];
      [rewrite lookup_insert_eq in Hk; inversion Hk; eauto
      | rewrite lookup_insert_ne in Hk by assumption]
  end;
  try (rewrite lookup_empty in Hk; discriminate).
Qed.

Lemma resolve_settingsPatch (now : nat) (data0 : gmap string fval) :
  resolve now (settingsPatch data0) = settingsPatch data0.
Proof.
  apply map_eq. intros k. unfold resolve. rewrite lookup_fmap.
  destruct (settingsPatch data0 !! k) as [v|] eqn:Hk; [|reflexivity].
  destruct (settingsPatch_booleans data0 k v Hk) as [b ->]. reflexivity.
Qed.

Lemma settingsPatch_settled (data0 : gmap string fval) :
  settingsPatch (settingsPatch data0 ∪ data0) = ∅.
Proof.
  destruct (patched_setting data0) as [H1 H2]. destruct (patched_locks data0) as [H3 H4].
  unfold settingsPatch at 1. unfold patchIfNotBoolean. by rewrite H1, H2, H3, H4.
Qed.

Lemma runLoad_room (payload : gmap string fval → User → gmap string fval)
    (w : World) (data0 : gmap string fval) :
  roomId (ui w) ≠ "" →
  docs (store w) !! roomRef (roomId (ui w)) = Some data0 →
  fst (loadRoomWith payload w) = Ok tt ∧
  docs (store (snd (loadRoomWith payload w))) !! roomRef (roomId (ui w)) =
    Some (settingsPatch data0 ∪ data0) ∧
  room (ui (snd (loadRoomWith payload w))) = Some (settingsPatch data0 ∪ data0) ∧
  status (ui (snd (loadRoomWith payload w))) = "OK" ∧
  media (snd (loadRoomWith payload w)) = media w ∧
  (currentUser w = None →
     ∀ p, p ≠ roomRef (roomId (ui w)) →
       docs (store (snd (loadRoomWith payload w))) !! p = docs (store w) !! p).
Proof.
  intros Hrid Hroom.
  unfold loadRoomWith, runLoad, getDocM, getDoc, updateDocM, updateDoc, setDocMergeM, setDocMerge.
  setters. run. rewrite (bool_decide_eq_false_2 _ Hrid). proj. rewrite Hroom.
  destruct (bool_decide_reflect (settingsPatch data0 = ∅)) as [Hempty|Hpatch]; cbn [negb]; run; proj.
  - destruct (currentUser w) as [u|] eqn:Hu; proj.
    + assert (Hpaths : memberRef (roomId (ui w)) (uid u) ≠ roomRef (roomId (ui w)))
        by (unfold roomRef, memberRef; congruence).
      rewrite lookup_insert_ne by exact Hpaths. rewrite Hroom, Hempty, (left_id_L ∅ (∪)).
      split; [reflexivity|]. split; [reflexivity|]. split; [reflexivity|].
      split; [reflexivity|]. split; [by destruct w | discriminate].
    + rewrite Hroom, Hempty, (left_id_L ∅ (∪)).
      split; [reflexivity|]. split; [reflexivity|]. split; [reflexivity|].
      split; [reflexivity|]. split; [by destruct w | done].
  - rewrite Hroom. proj. destruct (currentUser w) as [u|] eqn:Hu; proj.
    + assert (Hpaths : memberRef (roomId (ui w)) (uid u) ≠ roomRef (roomId (ui w)))
        by (unfold roomRef, memberRef; congruence).
      rewrite lookup_insert_ne by exact Hpaths. rewrite lookup_insert_eq, resolve_settingsPatch.
      split; [reflexivity|]. split; [reflexivity|]. split; [reflexivity|].
      split; [reflexivity|]. split; [by destruct w | discriminate].
    + rewrite lookup_insert_eq, resolve_settingsPatch.
      split; [reflexivity|]. split; [reflexivity|]. split; [reflexivity|].
      split; [reflexivity|]. split; [by destruct w |].
      intros _ p Hp. by rewrite lookup_insert_ne.
Qed.

(** X13: opening a room whose document exists writes each of the four
    settings that is not a boolean with its default (chat and calls
    allowed, no lock), keeps the booleans there are and every other
    field, shows the completed document, and is the same in the older
    page; opening the room again changes the document no more. *)
Theorem loadRoom_backfills_settings (w : World) (data0 : gmap string fval) :
  roomId (ui w) ≠ "" →
  docs (store w) !! roomRef (roomId (ui w)) = Some data0 →
  ∃ data,
    docs (store (snd (loadRoom w))) !! roomRef (roomId (ui w)) = Some data ∧
    docs (store (snd (OlderRoomPage.loadRoom w))) !! roomRef (roomId (ui w)) = Some data ∧
    room (ui (snd (loadRoom w))) = Some data ∧
    status (ui (snd (loadRoom w))) = "OK" ∧
    data !! "defaultCanChat" = Some (FBool (settled data0 "defaultCanChat" true)) ∧
    data !! "defaultCanCall" = Some (FBool (settled data0 "defaultCanCall" true)) ∧
    data !! "lockChat" = Some (FBool (settled data0 "lockChat" false)) ∧
    data !! "lockCalls" = Some (FBool (settled data0 "lockCalls" false)) ∧
    (∀ k, k ≠ "defaultCanChat" → k ≠ "defaultCanCall" → k ≠ "lockChat" → k ≠ "lockCalls" →
       data !! k = data0 !! k) ∧
    docs (store (snd (loadRoom (snd (loadRoom w))))) !! roomRef (roomId (ui w)) = Some data.
Proof.
  intros Hrid Hroom. exists (settingsPatch data0 ∪ data0).
  destruct (runLoad_room memberPayload w data0 Hrid Hroom) as (_ & Hdoc & Hstate & Hst & _).
  destruct (runLoad_room OlderRoomPage.memberPayload w data0 Hrid Hroom) as (_ & Hdoc' & _).
  fold loadRoom in *. fold OlderRoomPage.loadRoom in *.
  destruct (patched_setting data0) as [H1 H2]. destruct (patched_locks data0) as [H3 H4].
  assert (Hrid2 : roomId (ui (snd (loadRoom w))) = roomId (ui w)).
  { unfold loadRoom, loadRoomWith, runLoad, getDocM, getDoc, updateDocM, updateDoc,
      setDocMergeM, setDocMerge. setters. run.
    rewrite (bool_decide_eq_false_2 _ Hrid). proj. rewrite Hroom.
    destruct (bool_decide (settingsPatch data0 = ∅)); cbn [negb]; run; proj;
      rewrite ?Hroom; proj; by destruct (currentUser w). }
  split; [exact Hdoc|]. split; [exact Hdoc'|]. split; [exact Hstate|]. split; [exact Hst|].
  split; [exact H1|]. split; [exact H2|]. split; [exact H3|]. split; [exact H4|]. split.
  - intros k ? ? ? ?. by apply patched_other.
  - rewrite <- Hrid2 in Hdoc, Hrid.
    destruct (runLoad_room memberPayload (snd (loadRoom w)) _ Hrid Hdoc) as (_ & Hagain & _).
    fold loadRoom in Hagain. rewrite Hrid2 in Hagain. rewrite Hagain.
    by rewrite settingsPatch_settled, (left_id_L ∅ (∪)).
Qed.

Lemma loadRoom_backfills_settings_witness :
  ∃ data, docs (store (snd (loadRoom Sample.bobMic))) !! roomRef "r1" = Some data ∧
          data !! "lockCalls" = Some (FBool false).
Proof.
  destruct (loadRoom_backfills_settings Sample.bobMic Sample.room1)
    as (data & Hdoc & _ & _ & _ & _ & _ & _ & Hlock & _); [discriminate | reflexivity |].
  exists data. split; [exact Hdoc | exact Hlock].
Defined.

(** X14: opening a page without room id does nothing; opening a room
    whose document is missing writes nothing, keeps the room shown and
    reports that the room was not found. *)
Theorem loadRoom_unknown_room (w : World) :
  (roomId (ui w) = "" → loadRoom w = (Ok tt, w)) ∧
  (roomId (ui w) ≠ "" → docs (store w) !! roomRef (roomId (ui w)) = None →
     fst (loadRoom w) = Ok tt ∧
     store (snd (loadRoom w)) = store w ∧
     room (ui (snd (loadRoom w))) = room (ui w) ∧
     status (ui (snd (loadRoom w))) = "Room non trovata.").
Proof.
  split.
  - intros Hrid. unfold loadRoom, loadRoomWith. run. by rewrite Hrid.
  - intros Hrid Hnone. unfold loadRoom, loadRoomWith, runLoad, getDocM, getDoc. setters. run.
    rewrite (bool_decide_eq_false_2 _ Hrid). proj. rewrite Hnone. by destruct w.
Qed.

(** X15: opening an existing room as a signed-in user writes the
    member document of that user with the uid, the display name
    (["utente"] without one) and the role: [admin] exactly for the user
    the room names as administrator, in both pages.  Fields of the
    document other than the six written are kept. *)
Theorem loadRoom_registers_member (w : World) (data0 : gmap string fval) (u : User) :
  roomId (ui w) ≠ "" →
  docs (store w) !! roomRef (roomId (ui w)) = Some data0 →
  currentUser w = Some u →
  field (memberRef (roomId (ui w)) (uid u)) "uid" (snd (loadRoom w)) = Some (FStr (uid u)) ∧
  field (memberRef (roomId (ui w)) (uid u)) "name" (snd (loadRoom w)) =
    Some (FStr (default "utente" (displayName u))) ∧
  field (memberRef (roomId (ui w)) (uid u)) "role" (snd (loadRoom w)) =
    Some (FStr (if bool_decide (data0 !! "adminUid" = Some (FStr (uid u)))
                then "admin" else "member")) ∧
  field (memberRef (roomId (ui w)) (uid u)) "role" (snd (OlderRoomPage.loadRoom w)) =
    Some (FStr (if bool_decide (data0 !! "adminUid" = Some (FStr (uid u)))
                then "admin" else "member")) ∧
  (∀ k, k ≠ "uid" → k ≠ "name" → k ≠ "role" → k ≠ "canChat" → k ≠ "canCall" → k ≠ "joinedAt" →
     field (memberRef (roomId (ui w)) (uid u)) k (snd (loadRoom w)) =
       field (memberRef (roomId (ui w)) (uid u)) k w).
Proof.
  intros Hrid Hroom Hu.
  destruct (loadRoomWith_member memberPayload w data0 u Hrid Hroom Hu) as (now & _ & Hdoc).
  destruct (loadRoomWith_member OlderRoomPage.memberPayload w data0 u Hrid Hroom Hu)
    as (now' & _ & Hdoc').
  fold loadRoom in Hdoc. fold OlderRoomPage.loadRoom in Hdoc'.
  unfold field. rewrite Hdoc, Hdoc'. cbn [mbind option_bind].
  unfold memberPayload, OlderRoomPage.memberPayload. rewrite isAdminOf_patched.
  unfold isAdminOf, strict_eq, nameOf.
  split; [by erewrite merged_field by reflexivity|].
  split; [by erewrite merged_field by reflexivity|].
  split; [by erewrite merged_field by reflexivity|].
  split; [by erewrite merged_field by reflexivity|].
  intros k ? ? ? ? ? ?. rewrite merged_field_old.
  - by destruct (docs (store w) !! memberRef (roomId (ui w)) (uid u)).
  - by rewrite !lookup_insert_ne, lookup_singleton_ne by congruence.
Qed.

Lemma loadRoom_registers_member_witness :
  field (memberRef "r1" "bob") "role" (snd (loadRoom Sample.bobMic)) = Some (FStr "member").
Proof.
  destruct (loadRoom_registers_member Sample.bobMic Sample.room1 Sample.bob)
    as (_ & _ & Hrole & _); [discriminate | reflexivity | reflexivity |].
  exact Hrole.
Defined.

(* ===================================================================== *)
(** * Saved rooms                                                          *)
(* ===================================================================== *)

Import SavedRooms.

Lemma keeps_hasId (x : entry) (o : gmap string jval) : keeps x = Some o → hasId o.
Proof.
  unfold keeps, hasId, idOf. destruct x as [o'|]; [|discriminate].
  destruct (o' !! "id") as [[]|] eqn:Hid; try discriminate.
  intros [= <-]. by rewrite Hid.
Qed.

Lemma keeps_of_hasId (o : gmap string jval) : hasId o → keeps (EObj o) = Some o.
Proof. unfold keeps, hasId. by intros ->. Qed.

Lemma loadSavedRooms_hasId (ls : LocalStorage) : Forall hasId (loadSavedRooms ls).
Proof.
  unfold loadSavedRooms. destruct (readable ls); [|constructor].
  destruct (rooms ls) as [| |l]; try constructor. cbn [negb].
  apply Forall_forall. intros o Ho. apply list_elem_of_omap in Ho as (x & _ & Hx).
  by apply (keeps_hasId x).
Qed.

Lemma load_after_save (l : list (gmap string jval)) (ls : LocalStorage) :
  readable ls = true → writable ls = true → Forall hasId l →
  loadSavedRooms (saveRooms l ls) = l.
Proof.
  intros Hr Hw Hl. unfold loadSavedRooms, saveRooms, withRooms. rewrite Hw.
  cbn [readable rooms]. rewrite Hr. cbn [negb].
  induction Hl as [|o l Ho Hl IH]; [reflexivity|].
  rewrite fmap_cons. cbn [omap list_omap]. rewrite (keeps_of_hasId o Ho).
  fold (omap keeps (EObj <$> l)). by rewrite IH.
Qed.

Lemma mapGet_mapSet (k k' : string) (v : gmap string jval)
    (m : list (string * gmap string jval)) :
  mapGet k' (mapSet k v m) = if bool_decide (k = k') then Some v else mapGet k' m.
Proof.
  induction m as [|[k0 v0] m IH]; cbn.
  - reflexivity.
  - destruct (bool_decide_reflect (k0 = k)) as [->|Hk0]; cbn.
    + by destruct (bool_decide_reflect (k = k')).
    + rewrite IH. destruct (bool_decide_reflect (k0 = k')) as [->|?]; [|reflexivity].
      by rewrite bool_decide_eq_false_2 by congruence.
Qed.

Lemma mapSet_keys (k : string) (v : gmap string jval) (m : list (string * gmap string jval)) :
  (fst <$> mapSet k v m) = if bool_decide (k ∈ (fst <$> m)) then fst <$> m else ((fst <$> m) ++ [k])%list.
Proof.
  induction m as [|[k0 v0] m IH]; cbn.
  - by rewrite bool_decide_eq_false_2 by apply not_elem_of_nil.
  - destruct (bool_decide_reflect (k0 = k)) as [->|Hk0]; cbn.
    + by rewrite bool_decide_eq_true_2 by apply list_elem_of_here.
    + rewrite IH. destruct (bool_decide_reflect (k ∈ (fst <$> m))) as [Hin|Hout].
      * by rewrite bool_decide_eq_true_2 by (by apply list_elem_of_further).
      * rewrite bool_decide_eq_false_2; [reflexivity|].
        intros [?|?]%elem_of_cons; congruence.
Qed.

Lemma mapSet_NoDup (k : string) (v : gmap string jval) (m : list (string * gmap string jval)) :
  NoDup (fst <$> m) → NoDup (fst <$> mapSet k v m).
Proof.
  intros Hm. rewrite mapSet_keys. case_bool_decide as Hin; [exact Hm|].
  apply NoDup_app. split; [exact Hm|]. split; [|apply NoDup_singleton].
  intros x Hx [->|[]%elem_of_nil]%elem_of_cons. by apply Hin.
Qed.

Lemma mapSet_values (P : string → gmap string jval → Prop) (k : string) (v : gmap string jval)
    (m : list (string * gmap string jval)) :
  P k v → Forall (fun kv => P (fst kv) (snd kv)) m →
  Forall (fun kv => P (fst kv) (snd kv)) (mapSet k v m).
Proof.
  intros Hv Hm. induction Hm as [|[k0 v0] m H0 Hm IH]; cbn.
  - by repeat constructor.
  - case_bool_decide; constructor; try assumption.
Qed.

Lemma byIdOf_acc (cur : list (gmap string jval)) (acc : list (string * gmap string jval)) :
  NoDup (fst <$> acc) →
  Forall (fun kv => idOf (snd kv) = fst kv ∧ hasId (snd kv)) acc →
  Forall hasId cur →
  NoDup (fst <$> fold_left (fun m r => mapSet (idOf r) r m) cur acc) ∧
  Forall (fun kv => idOf (snd kv) = fst kv ∧ hasId (snd kv))
    (fold_left (fun m r => mapSet (idOf r) r m) cur acc).
Proof.
  revert acc. induction cur as [|r cur IH]; intros acc Hnd Hacc Hcur; cbn.
  - by split.
  - inversion Hcur as [|? ? Hr Hcur']; subst. apply IH; [by apply mapSet_NoDup | | exact Hcur'].
    by apply (mapSet_values (fun k v => idOf v = k ∧ hasId v)).
Qed.

Lemma mapSet_fresh (k : string) (v : gmap string jval) (m : list (string * gmap string jval)) :
  k ∉ (fst <$> m) → mapSet k v m = (m ++ [(k, v)])%list.
Proof.
  induction m as [|[k0 v0] m IH]; cbn; [reflexivity|].
  intros Hk. rewrite bool_decide_eq_false_2.
  - rewrite IH; [reflexivity|]. intros ?. apply Hk. by apply list_elem_of_further.
  - intros ->. apply Hk. apply list_elem_of_here.
Qed.

Lemma byIdOf_distinct_acc (cur : list (gmap string jval))
    (acc : list (string * gmap string jval)) :
  NoDup ((fst <$> acc) ++ (idOf <$> cur))%list →
  fold_left (fun m r => mapSet (idOf r) r m) cur acc =
    (acc ++ ((fun r => (idOf r, r)) <$> cur))%list.
Proof.
  revert acc. induction cur as [|r cur IH]; intros acc Hnd; cbn.
  - by rewrite app_nil_r.
  - apply NoDup_app in Hnd as (Hacc & Hdisj & Hcur). cbn in Hcur, Hdisj.
    apply NoDup_cons in Hcur as [Hr Hcur].
    rewrite mapSet_fresh.
    + rewrite IH; [by rewrite <- app_assoc|].
      rewrite fmap_app. cbn. rewrite <- app_assoc. cbn.
      apply NoDup_app. split; [exact Hacc|]. split; [|by apply NoDup_cons].
      intros x Hx. by apply Hdisj.
    + intros Hin. apply (Hdisj _ Hin). apply list_elem_of_here.
Qed.

Lemma byIdOf_distinct (cur : list (gmap string jval)) :
  NoDup (idOf <$> cur) → byIdOf cur = (fun r => (idOf r, r)) <$> cur.
Proof. intros Hnd. unfold byIdOf. by rewrite byIdOf_distinct_acc. Qed.

Lemma mapGet_elem (k : string) (v : gmap string jval) (m : list (string * gmap string jval)) :
  mapGet k m = Some v → (k, v) ∈ m.
Proof.
  induction m as [|[k0 v0] m IH]; cbn; [discriminate|].
  case_bool_decide as Hk; [intros [= <-]; subst; apply list_elem_of_here|].
  intros Hm. apply list_elem_of_further. by apply IH.
Qed.

Lemma mapGet_of_elem (k : string) (v : gmap string jval) (m : list (string * gmap string jval)) :
  NoDup (fst <$> m) → (k, v) ∈ m → mapGet k m = Some v.
Proof.
  induction m as [|[k0 v0] m IH]; cbn; [by intros _ ?%elem_of_nil|].
  intros [Hk0 Hnd]%NoDup_cons [[= -> ->]|Hin]%elem_of_cons.
  - by rewrite bool_decide_eq_true_2.
  - rewrite bool_decide_eq_false_2; [by apply IH|].
    intros ->. apply Hk0. apply list_elem_of_fmap. by exists (k, v).
Qed.

Lemma mapSet_again (k : string) (v : gmap string jval) (m : list (string * gmap string jval)) :
  mapSet k v (mapSet k v m) = mapSet k v m.
Proof.
  induction m as [|[k0 v0] m IH]; cbn.
  - by rewrite bool_decide_eq_true_2.
  - case_bool_decide as Hk; cbn.
    + by rewrite bool_decide_eq_true_2.
    + by rewrite bool_decide_eq_false_2, IH.
Qed.

Lemma mapSet_others (k : string) (v : gmap string jval) (m : list (string * gmap string jval)) :
  Forall (fun kv => idOf (snd kv) = fst kv) m → idOf v = k →
  filter (fun r => idOf r ≠ k) (snd <$> mapSet k v m) =
  filter (fun r => idOf r ≠ k) (snd <$> m).
Proof.
  intros Hm Hv. induction Hm as [|[k0 v0] m H0 Hm IH]; cbn [mapSet fmap list_fmap snd fst] in *.
  - rewrite filter_cons_False by (intros ?; congruence). reflexivity.
  - case_bool_decide as Hk; cbn [fmap list_fmap snd fst].
    + rewrite !filter_cons_False by (intros ?; congruence). reflexivity.
    + rewrite !filter_cons_True by congruence. by rewrite IH.
Qed.

Lemma pairs_back (m : list (string * gmap string jval)) :
  Forall (fun kv => idOf (snd kv) = fst kv) m →
  (fun r => (idOf r, r)) <$> (snd <$> m) = m.
Proof.
  intros Hm. induction Hm as [|[k v] m Hk Hm IH]; cbn in *; [reflexivity|].
  by rewrite Hk, IH.
Qed.

Lemma snd_pairs (l : list (gmap string jval)) :
  snd <$> ((fun r => (idOf r, r)) <$> l) = l.
Proof. induction l as [|r l IH]; cbn; [reflexivity|]. by rewrite IH. Qed.

Lemma ids_are_keys (m : list (string * gmap string jval)) :
  Forall (fun kv => idOf (snd kv) = fst kv) m → idOf <$> (snd <$> m) = fst <$> m.
Proof.
  intros Hm. induction Hm as [|[k v] m Hk Hm IH]; cbn in *; [reflexivity|].
  by rewrite Hk, IH.
Qed.

Lemma byIdOf_keeps_ids_acc (cur : list (gmap string jval))
    (acc : list (string * gmap string jval)) (k : string) :
  k ∈ (fst <$> acc) ∨ k ∈ (idOf <$> cur) →
  k ∈ (fst <$> fold_left (fun m r => mapSet (idOf r) r m) cur acc).
Proof.
  revert acc. induction cur as [|r cur IH]; intros acc; cbn.
  - intros [?|?%elem_of_nil]; done.
  - intros Hk. apply IH. rewrite mapSet_keys.
    destruct Hk as [Hk|[->|Hk]%elem_of_cons]; [| |by right].
    + left. case_bool_decide; [done|]. apply elem_of_app. by left.
    + left. case_bool_decide as Hin; [done|]. apply elem_of_app. right. apply list_elem_of_here.
Qed.

(** The object written for the room: what [rest] gives wins, what it
    leaves out comes from the previous object. *)
Lemma merged_lookup (id : string) (rest : gmap string (option jval)) (prev : gmap string jval)
    (k : string) :
  omap (fun v : option jval => v) (<["id" := Some (JStr id)]> rest ∪ (Some <$> prev)) !! k =
    match <["id" := Some (JStr id)]> rest !! k with
    | Some v => v
    | None => prev !! k
    end.
Proof.
  rewrite lookup_omap, lookup_union, lookup_fmap.
  destruct (<["id" := Some (JStr id)]> rest !! k) as [[v|]|]; destruct (prev !! k); reflexivity.
Qed.

Lemma merged_hasId (id : string) (rest : gmap string (option jval)) (prev : gmap string jval) :
  idOf (omap (fun v : option jval => v)
          (<["id" := Some (JStr id)]> rest ∪ (Some <$> prev))) = id ∧
  hasId (omap (fun v : option jval => v)
          (<["id" := Some (JStr id)]> rest ∪ (Some <$> prev))).
Proof.
  unfold hasId, idOf. rewrite merged_lookup, lookup_insert_eq. by split.
Qed.

Lemma merged_again (id : string) (rest : gmap string (option jval)) (prev : gmap string jval) :
  omap (fun v : option jval => v)
    (<["id" := Some (JStr id)]> rest ∪
     (Some <$> omap (fun v : option jval => v)
                 (<["id" := Some (JStr id)]> rest ∪ (Some <$> prev)))) =
  omap (fun v : option jval => v) (<["id" := Some (JStr id)]> rest ∪ (Some <$> prev)).
Proof.
  apply map_eq. intros k. rewrite !merged_lookup.
  by destruct (<["id" := Some (JStr id)]> rest !! k).
Qed.

Lemma upsertRoom_loaded (id : string) (rest : gmap string (option jval)) (ls : LocalStorage) :
  readable ls = true → writable ls = true →
  upsertRoom id rest ls =
    withRooms (Parsed (EObj <$> (snd <$> mapSet id
      (omap (fun v : option jval => v)
         (<["id" := Some (JStr id)]> rest ∪
          (Some <$> default {[ "id" := JStr id ]} (mapGet id (byIdOf (loadSavedRooms ls))))))
      (byIdOf (loadSavedRooms ls))))) ls ∧
  loadSavedRooms (upsertRoom id rest ls) =
    snd <$> mapSet id
      (omap (fun v : option jval => v)
         (<["id" := Some (JStr id)]> rest ∪
          (Some <$> default {[ "id" := JStr id ]} (mapGet id (byIdOf (loadSavedRooms ls))))))
      (byIdOf (loadSavedRooms ls)) ∧
  NoDup (fst <$> mapSet id
      (omap (fun v : option jval => v)
         (<["id" := Some (JStr id)]> rest ∪
          (Some <$> default {[ "id" := JStr id ]} (mapGet id (byIdOf (loadSavedRooms ls))))))
      (byIdOf (loadSavedRooms ls))) ∧
  Forall (fun kv => idOf (snd kv) = fst kv ∧ hasId (snd kv)) (mapSet id
      (omap (fun v : option jval => v)
         (<["id" := Some (JStr id)]> rest ∪
          (Some <$> default {[ "id" := JStr id ]} (mapGet id (byIdOf (loadSavedRooms ls))))))
      (byIdOf (loadSavedRooms ls))).
Proof.
  intros Hr Hw.
  destruct (byIdOf_acc (loadSavedRooms ls) [] (NoDup_nil_2) (Forall_nil_2 _)
              (loadSavedRooms_hasId ls)) as [Hnd Hvals].
  fold (byIdOf (loadSavedRooms ls)) in Hnd, Hvals.
  set (prev := default {[ "id" := JStr id ]} (mapGet id (byIdOf (loadSavedRooms ls)))).
  destruct (merged_hasId id rest prev) as [Hid Hhas].
  assert (Hvals' : Forall (fun kv => idOf (snd kv) = fst kv ∧ hasId (snd kv))
            (mapSet id (omap (fun v : option jval => v)
               (<["id" := Some (JStr id)]> rest ∪ (Some <$> prev)))
               (byIdOf (loadSavedRooms ls)))).
  { by apply (mapSet_values (fun k v => idOf v = k ∧ hasId v)). }
  split; [|split; [|split]].
  - unfold upsertRoom, saveRooms. by rewrite Hw.
  - unfold upsertRoom. fold prev. apply load_after_save; [exact Hr | exact Hw |].
    apply Forall_fmap. eapply Forall_impl; [exact Hvals'|]. by intros kv [_ ?].
  - by apply mapSet_NoDup.
  - exact Hvals'.
Qed.

(** X16: after [upsertRoom] the saved list has one entry per room id,
    one of them for the given room with every property that was passed,
    and no room that was saved before has been lost. *)
Theorem upsertRoom_one_entry_per_room (id : string) (rest : gmap string (option jval))
    (ls : LocalStorage) :
  readable ls = true → writable ls = true →
  NoDup (idOf <$> loadSavedRooms (upsertRoom id rest ls)) ∧
  (∃ r, r ∈ loadSavedRooms (upsertRoom id rest ls) ∧ idOf r = id ∧
        ∀ k v, <["id" := Some (JStr id)]> rest !! k = Some v → r !! k = v) ∧
  (∀ r0, r0 ∈ loadSavedRooms ls → idOf r0 ∈ (idOf <$> loadSavedRooms (upsertRoom id rest ls))).
Proof.
  intros Hr Hw. destruct (upsertRoom_loaded id rest ls Hr Hw) as (_ & -> & Hnd & Hvals).
  assert (Hkeys : Forall (fun kv : string * gmap string jval => idOf (snd kv) = fst kv)
            (mapSet id (omap (fun v : option jval => v)
               (<["id" := Some (JStr id)]> rest ∪
                (Some <$> default {[ "id" := JStr id ]}
                            (mapGet id (byIdOf (loadSavedRooms ls))))))
               (byIdOf (loadSavedRooms ls)))).
  { eapply Forall_impl; [exact Hvals|]. by intros kv [? _]. }
  rewrite (ids_are_keys _ Hkeys). split; [exact Hnd|]. split.
  - eexists. split; [|split].
    + apply list_elem_of_fmap. eexists (id, _). split; [reflexivity|].
      apply mapGet_elem. rewrite mapGet_mapSet. by rewrite bool_decide_eq_true_2.
    + apply merged_hasId.
    + intros k v Hk. cbn [snd]. by rewrite merged_lookup, Hk.
  - intros r0 Hr0. rewrite mapSet_keys.
    assert (Hin : idOf r0 ∈ (fst <$> byIdOf (loadSavedRooms ls))).
    { apply byIdOf_keeps_ids_acc. right. apply list_elem_of_fmap. by exists r0. }
    case_bool_decide; [exact Hin|]. apply elem_of_app. by left.
Qed.

Lemma upsertRoom_one_entry_per_room_witness :
  NoDup (idOf <$> loadSavedRooms (upsertRoom "r2" {[ "name" := Some (JStr "Branco") ]}
                                    Scenes.device)).
Proof.
  destruct (upsertRoom_one_entry_per_room "r2" {[ "name" := Some (JStr "Branco") ]}
              Scenes.device) as (Hnd & _); [reflexivity | reflexivity |].
  exact Hnd.
Defined.

(** A room id that comes after every entry of that id is looked up as
    the map held it before. *)
Lemma mapGet_fold_other (k : string) (l : list (gmap string jval))
    (acc : list (string * gmap string jval)) :
  k ∉ (idOf <$> l) →
  mapGet k (fold_left (fun m r => mapSet (idOf r) r m) l acc) = mapGet k acc.
Proof.
  revert acc. induction l as [|r l IH]; intros acc Hk; [reflexivity|].
  cbn [fold_left]. rewrite IH.
  - rewrite mapGet_mapSet. rewrite bool_decide_eq_false_2; [reflexivity|].
    intros Heq. apply Hk. rewrite fmap_cons, Heq. apply list_elem_of_here.
  - intros Hin. apply Hk. rewrite fmap_cons. by apply list_elem_of_further.
Qed.

(** The map holds, for a room id, the last entry of that id. *)
Lemma byIdOf_last (l1 l2 : list (gmap string jval)) (p : gmap string jval) :
  idOf p ∉ (idOf <$> l2) → mapGet (idOf p) (byIdOf (l1 ++ p :: l2)) = Some p.
Proof.
  intros Hlast. unfold byIdOf. rewrite fold_left_app. cbn [fold_left].
  rewrite (mapGet_fold_other _ _ _ Hlast), mapGet_mapSet.
  by rewrite bool_decide_eq_true_2.
Qed.

(** The map has no key but the ids of the entries. *)
Lemma byIdOf_keys_acc (cur : list (gmap string jval))
    (acc : list (string * gmap string jval)) (k : string) :
  k ∈ (fst <$> fold_left (fun m r => mapSet (idOf r) r m) cur acc) →
  k ∈ (fst <$> acc) ∨ k ∈ (idOf <$> cur).
Proof.
  revert acc. induction cur as [|r cur IH]; intros acc; cbn [fold_left].
  - by left.
  - intros Hk. destruct (IH _ Hk) as [Hacc|Hcur].
    + rewrite mapSet_keys in Hacc. rewrite fmap_cons. case_bool_decide as Hin.
      * by left.
      * apply elem_of_app in Hacc as [Hacc|Hnew]; [by left|].
        apply list_elem_of_singleton in Hnew as ->. right. apply list_elem_of_here.
    + right. rewrite fmap_cons. by apply list_elem_of_further.
Qed.

(** X17: when the room is already saved, [upsertRoom] keeps the
    properties of its entry, the last one of that id in the list, that
    the call does not pass, and replaces those it passes; a property
    passed as [undefined] is removed.  The list then holds this one
    entry for the room. *)
Theorem upsertRoom_merges_saved_entry (id : string) (rest : gmap string (option jval))
    (ls : LocalStorage) (l1 l2 : list (gmap string jval)) (p : gmap string jval) :
  readable ls = true → writable ls = true →
  loadSavedRooms ls = (l1 ++ p :: l2)%list → idOf p = id → id ∉ (idOf <$> l2) →
  ∃ r, r ∈ loadSavedRooms (upsertRoom id rest ls) ∧
    (∀ r', r' ∈ loadSavedRooms (upsertRoom id rest ls) → idOf r' = id → r' = r) ∧
    r !! "id" = Some (JStr id) ∧
    ∀ k, k ≠ "id" →
      r !! k = match rest !! k with
               | Some v => v
               | None => p !! k
               end.
Proof.
  intros Hr Hw Hcur Hid Hlast.
  destruct (upsertRoom_loaded id rest ls Hr Hw) as (_ & -> & Hnd & Hvals).
  assert (Hprev : mapGet id (byIdOf (loadSavedRooms ls)) = Some p).
  { rewrite Hcur, <- Hid. apply byIdOf_last. by rewrite Hid. }
  rewrite Hprev in *. change (default {[ "id" := JStr id ]} (Some p)) with p in *.
  set (merged := omap (fun v : option jval => v)
                   (<["id" := Some (JStr id)]> rest ∪ (Some <$> p))) in *.
  assert (Hm : (id, merged) ∈ mapSet id merged (byIdOf (loadSavedRooms ls))).
  { apply mapGet_elem. rewrite mapGet_mapSet. by rewrite bool_decide_eq_true_2. }
  exists merged. split; [|split; [|split]].
  - apply list_elem_of_fmap. by exists (id, merged).
  - intros r' [[k v] [-> Hkv]]%list_elem_of_fmap Hid'. cbn [snd] in *.
    assert (k = id) as ->.
    { rewrite Forall_forall in Hvals. destruct (Hvals _ Hkv) as [Hk _]. cbn in Hk. congruence. }
    apply mapGet_of_elem in Hkv; [|exact Hnd]. apply mapGet_of_elem in Hm; [|exact Hnd].
    congruence.
  - unfold merged. by rewrite merged_lookup, lookup_insert_eq.
  - intros k Hk. unfold merged. by rewrite merged_lookup, lookup_insert_ne by done.
Qed.

Lemma upsertRoom_merges_saved_entry_witness :
  ∃ r, r ∈ loadSavedRooms (upsertRoom "r2" {[ "name" := Some (JStr "Branco") ]} Scenes.device) ∧
       r !! "name" = Some (JStr "Branco") ∧ r !! "joinCode" = Some (JStr "AB23CD").
Proof.
  destruct (upsertRoom_merges_saved_entry "r2" {[ "name" := Some (JStr "Branco") ]}
              Scenes.device [Scenes.savedR1] [] Scenes.savedR2) as (r & Hin & _ & _ & Hfields);
    [reflexivity | reflexivity | reflexivity | reflexivity | apply not_elem_of_nil |].
  exists r. split; [exact Hin|]. split.
  - exact (Hfields "name" ltac:(discriminate)).
  - exact (Hfields "joinCode" ltac:(discriminate)).
Defined.

(** X18: a room that is not saved yet is appended at the end of the
    entries the map holds, which are the saved entries with one entry
    per id; when every id is saved once, that is the saved list itself,
    followed by the new room.  The new entry has exactly the defined
    properties of the call.  This covers the first room saved over an
    absent or unusable item. *)
Theorem upsertRoom_appends_new_room (id : string) (rest : gmap string (option jval))
    (ls : LocalStorage) :
  readable ls = true → writable ls = true →
  id ∉ (idOf <$> loadSavedRooms ls) →
  loadSavedRooms (upsertRoom id rest ls) =
    ((snd <$> byIdOf (loadSavedRooms ls)) ++
       [omap (fun v : option jval => v) (<["id" := Some (JStr id)]> rest)])%list ∧
  (NoDup (idOf <$> loadSavedRooms ls) →
   loadSavedRooms (upsertRoom id rest ls) =
     (loadSavedRooms ls ++
        [omap (fun v : option jval => v) (<["id" := Some (JStr id)]> rest)])%list).
Proof.
  intros Hr Hw Hid.
  destruct (upsertRoom_loaded id rest ls Hr Hw) as (_ & -> & _ & _).
  assert (Hkey : id ∉ (fst <$> byIdOf (loadSavedRooms ls))).
  { intros Hin. apply byIdOf_keys_acc in Hin as [Hin|Hin]; [|by apply Hid].
    by apply elem_of_nil in Hin. }
  assert (Hget : mapGet id (byIdOf (loadSavedRooms ls)) = None).
  { destruct (mapGet id _) as [v|] eqn:Hv; [|reflexivity].
    apply mapGet_elem in Hv. exfalso. apply Hkey.
    apply list_elem_of_fmap. by exists (id, v). }
  rewrite Hget, mapSet_fresh by exact Hkey.
  rewrite fmap_app. cbn [fmap list_fmap snd default from_option].
  assert (Hnew : omap (fun v : option jval => v)
                   (<["id" := Some (JStr id)]> rest ∪ (Some <$> {[ "id" := JStr id ]})) =
                 omap (fun v : option jval => v) (<["id" := Some (JStr id)]> rest)).
  { apply map_eq. intros k. rewrite merged_lookup, lookup_omap.
    destruct (decide (k = "id")) as [->|Hk].
    - by rewrite lookup_insert_eq.
    - rewrite lookup_insert_ne by done. rewrite lookup_singleton_ne by done.
      by destruct (rest !! k) as [[]|]. }
  rewrite Hnew. split; [reflexivity|].
  intros Hcur. by rewrite (byIdOf_distinct _ Hcur), snd_pairs.
Qed.

Lemma upsertRoom_appends_new_room_witness :
  loadSavedRooms (upsertRoom "r3" {[ "name" := Some (JStr "Clan"); "joinCode" := None ]}
                    Scenes.device) =
    [Scenes.savedR1; Scenes.savedR2; {[ "id" := JStr "r3"; "name" := JStr "Clan" ]}].
Proof.
  destruct (upsertRoom_appends_new_room "r3"
              {[ "name" := Some (JStr "Clan"); "joinCode" := None ]} Scenes.device)
    as [_ Hlist]; [reflexivity | reflexivity | |].
  - apply (bool_decide_eq_true_1 _). vm_compute. reflexivity.
  - rewrite Hlist.
    + vm_compute. reflexivity.
    + apply (bool_decide_eq_true_1 _). vm_compute. reflexivity.
Defined.

(** X19: [upsertRoom] leaves the entries of the other rooms as the map
    holds them, one per id; when every id is saved once, the entries of
    the other rooms are as they were, and in their order. *)
Theorem upsertRoom_keeps_other_rooms (id : string) (rest : gmap string (option jval))
    (ls : LocalStorage) :
  readable ls = true → writable ls = true →
  filter (fun r => idOf r ≠ id) (loadSavedRooms (upsertRoom id rest ls)) =
    filter (fun r => idOf r ≠ id) (snd <$> byIdOf (loadSavedRooms ls)) ∧
  (NoDup (idOf <$> loadSavedRooms ls) →
   filter (fun r => idOf r ≠ id) (loadSavedRooms (upsertRoom id rest ls)) =
     filter (fun r => idOf r ≠ id) (loadSavedRooms ls)).
Proof.
  intros Hr Hw.
  destruct (upsertRoom_loaded id rest ls Hr Hw) as (_ & -> & _ & _).
  destruct (byIdOf_acc (loadSavedRooms ls) [] (NoDup_nil_2) (Forall_nil_2 _)
              (loadSavedRooms_hasId ls)) as [_ Hvals].
  fold (byIdOf (loadSavedRooms ls)) in Hvals.
  assert (Hothers : filter (fun r => idOf r ≠ id)
            (snd <$> mapSet id
               (omap (fun v : option jval => v)
                  (<["id" := Some (JStr id)]> rest ∪
                   (Some <$> default {[ "id" := JStr id ]}
                               (mapGet id (byIdOf (loadSavedRooms ls))))))
               (byIdOf (loadSavedRooms ls))) =
          filter (fun r => idOf r ≠ id) (snd <$> byIdOf (loadSavedRooms ls))).
  { apply mapSet_others; [|apply merged_hasId].
    eapply Forall_impl; [exact Hvals|]. by intros kv [? _]. }
  split; [exact Hothers|].
  intros Hcur. rewrite Hothers. by rewrite (byIdOf_distinct _ Hcur), snd_pairs.
Qed.

Lemma upsertRoom_keeps_other_rooms_witness :
  filter (fun r => idOf r ≠ "r2")
    (loadSavedRooms (upsertRoom "r2" {[ "name" := Some (JStr "Branco") ]} Scenes.device)) =
  filter (fun r => idOf r ≠ "r2") (loadSavedRooms Scenes.device).
Proof.
  destruct (upsertRoom_keeps_other_rooms "r2" {[ "name" := Some (JStr "Branco") ]}
              Scenes.device) as [_ Hsame]; [reflexivity | reflexivity |].
  apply Hsame. apply (bool_decide_eq_true_1 _). vm_compute. reflexivity.
Defined.

(** X20: saving the same room twice is the same as saving it once,
    whatever the storage does. *)
Theorem upsertRoom_twice (id : string) (rest : gmap string (option jval)) (ls : LocalStorage) :
  upsertRoom id rest (upsertRoom id rest ls) = upsertRoom id rest ls.
Proof.
  destruct (writable ls) eqn:Hw.
  2:{ assert (Hsame : upsertRoom id rest ls = ls).
      { unfold upsertRoom, saveRooms. by rewrite Hw. }
      by rewrite !Hsame. }
  destruct (readable ls) eqn:Hr.
  2:{ unfold upsertRoom, saveRooms, loadSavedRooms, withRooms.
      rewrite Hw, Hr. cbn [negb readable writable]. reflexivity. }
  destruct (upsertRoom_loaded id rest ls Hr Hw) as (Hls & Hload & Hnd & Hvals).
  set (m' := mapSet id _ (byIdOf (loadSavedRooms ls))) in *.
  assert (Hkeys : Forall (fun kv : string * gmap string jval => idOf (snd kv) = fst kv) m').
  { eapply Forall_impl; [exact Hvals|]. by intros kv [? _]. }
  unfold upsertRoom at 1. rewrite Hload.
  assert (Hby : byIdOf (snd <$> m') = m').
  { rewrite byIdOf_distinct by (by rewrite ids_are_keys). by apply pairs_back. }
  rewrite Hby.
  assert (Hget : mapGet id m' = Some (omap (fun v : option jval => v)
            (<["id" := Some (JStr id)]> rest ∪
             (Some <$> default {[ "id" := JStr id ]}
                         (mapGet id (byIdOf (loadSavedRooms ls))))))).
  { unfold m'. rewrite mapGet_mapSet. by rewrite bool_decide_eq_true_2. }
  rewrite Hget.
  match goal with
  | |- context [default ?d (Some ?x)] => change (default d (Some x)) with x
  end.
  rewrite merged_again.
  unfold m' at 1. rewrite mapSet_again. fold m'.
  rewrite Hls. fold m'. unfold saveRooms, withRooms. cbn [writable]. rewrite Hw. reflexivity.
Qed.

(** X21: [forgetRoom] removes every entry of the room and nothing
    else. *)
Theorem forgetRoom_removes_only_that_room (id : string) (ls : LocalStorage) :
  readable ls = true → writable ls = true →
  loadSavedRooms (forgetRoom id ls) = filter (fun r => idOf r ≠ id) (loadSavedRooms ls) ∧
  id ∉ (idOf <$> loadSavedRooms (forgetRoom id ls)).
Proof.
  intros Hr Hw.
  assert (Hload : loadSavedRooms (forgetRoom id ls)
                  = filter (fun r => idOf r ≠ id) (loadSavedRooms ls)).
  { unfold forgetRoom. apply load_after_save; [exact Hr | exact Hw |].
    apply Forall_forall. intros r [_ Hin]%list_elem_of_filter.
    pose proof (loadSavedRooms_hasId ls) as Hall. rewrite Forall_forall in Hall. by apply Hall. }
  split; [exact Hload|]. rewrite Hload.
  intros [r [Hid [Hne _]%list_elem_of_filter]]%list_elem_of_fmap. by apply Hne.
Qed.

Lemma forgetRoom_removes_only_that_room_witness :
  loadSavedRooms (forgetRoom "r1" Scenes.device) =
    filter (fun r => idOf r ≠ "r1") (loadSavedRooms Scenes.device).
Proof.
  destruct (forgetRoom_removes_only_that_room "r1" Scenes.device) as (Hload & _);
    [reflexivity | reflexivity |].
  exact Hload.
Defined.

(* ===================================================================== *)
(** * Creating and joining a room                                          *)
(* ===================================================================== *)

Import HomePage.

Lemma upsertRoom_entry (id : string) (rest : gmap string (option jval)) (ls : LocalStorage) :
  readable ls = true → writable ls = true →
  ∃ r, r ∈ loadSavedRooms (upsertRoom id rest ls) ∧ idOf r = id ∧
       ∀ k v, <["id" := Some (JStr id)]> rest !! k = Some v → r !! k = v.
Proof.
  intros Hr Hw. destruct (upsertRoom_loaded id rest ls Hr Hw) as (_ & -> & _ & _).
  eexists. split; [|split].
  - apply list_elem_of_fmap. eexists (id, _). split; [reflexivity|].
    apply mapGet_elem. rewrite mapGet_mapSet. by rewrite bool_decide_eq_true_2.
  - apply merged_hasId.
  - intros k v Hk. cbn [snd]. by rewrite merged_lookup, Hk.
Qed.

Lemma joinPageCode_padded (l v r code : string) :
  allIn chars code = true → code ≠ "" →
  allWhiteSpace l = true → allWhiteSpace r = true → caseVariant v code = true →
  joinPageCode (Some (l +:+ v +:+ r)) = Some code.
Proof.
  intros Hall Hne Hl Hr Hv.
  destruct (caseVariant_upper v code Hall Hv) as [Hup Hsolid].
  unfold joinPageCode.
  assert (Hp : (if bool_decide (l +:+ v +:+ r = "") then "" else l +:+ v +:+ r) = l +:+ v +:+ r)
    by (case_bool_decide as Hemp; [by rewrite Hemp | reflexivity]).
  rewrite Hp, !toUpperCase_app, Hup, (toUpperCase_whitespace l Hl), (toUpperCase_whitespace r Hr).
  rewrite (trim_padded l code r Hl Hr (allIn_noWhiteSpace code Hall) Hne).
  by rewrite (bool_decide_eq_false_2 _ Hne).
Qed.

Lemma trimStart_blank (s : string) : allWhiteSpace s = true → trimStart s = "".
Proof.
  induction s as [|c s IH]; simpl; [reflexivity|].
  intros [-> Hs]%andb_true_iff. by apply IH.
Qed.

Lemma joinPageCode_blank (s : string) : allWhiteSpace s = true → joinPageCode (Some s) = None.
Proof.
  intros Hs. unfold joinPageCode.
  assert (Hp : (if bool_decide (s = "") then "" else s) = s)
    by (case_bool_decide as Hemp; [by rewrite Hemp | reflexivity]).
  rewrite Hp, (toUpperCase_whitespace s Hs). unfold trim. by rewrite (trimStart_blank s Hs).
Qed.

Lemma roomIdOf_Some (p : list string) (id : string) :
  JoinPage.roomIdOf p = Some id ↔ p = ["rooms"; id].
Proof.
  unfold JoinPage.roomIdOf. split.
  - destruct p as [|c [|i [|]]]; try discriminate.
    case_bool_decide as Hc; [|discriminate]. intros [= ->]. by rewrite Hc.
  - intros ->. by rewrite bool_decide_eq_true_2.
Qed.

Lemma matchesOf_elem (code : string) (st : Store) (id : string) (d : gmap string fval) :
  (id, d) ∈ JoinPage.matchesOf code st ↔
  docs st !! ["rooms"; id] = Some d ∧ d !! "joinCode" = Some (FStr code).
Proof.
  unfold JoinPage.matchesOf. rewrite list_elem_of_omap. split.
  - intros ([p d'] & Hin & Hsome). cbn [fst snd] in Hsome.
    apply elem_of_map_to_list in Hin.
    destruct (JoinPage.roomIdOf p) as [id'|] eqn:Hid; [|discriminate].
    cbn [mbind option_bind] in Hsome.
    destruct (matchesJoinCode code d') eqn:Hm; [|discriminate].
    injection Hsome as <- <-. apply roomIdOf_Some in Hid as ->.
    split; [exact Hin|]. unfold matchesJoinCode, strict_eq in Hm.
    by apply bool_decide_eq_true in Hm.
  - intros [Hdoc Hcode]. exists (["rooms"; id], d). split.
    + by apply elem_of_map_to_list.
    + cbn [fst snd]. rewrite (proj2 (roomIdOf_Some _ id) eq_refl). cbn [mbind option_bind].
      unfold matchesJoinCode, strict_eq. by rewrite bool_decide_eq_true_2.
Qed.

Lemma firstOf_elem (l : list (string * gmap string fval)) (x : string * gmap string fval) :
  JoinPage.firstOf l = Some x → x ∈ l.
Proof.
  revert x. induction l as [|y l IH]; intros x; cbn; [discriminate|].
  fold (JoinPage.firstOf l). destruct (JoinPage.firstOf l) as [z|].
  - intros [= <-]. unfold JoinPage.earlier. destruct (String.leb (fst y) (fst z)).
    + apply list_elem_of_here.
    + apply list_elem_of_further. by apply IH.
  - intros [= <-]. apply list_elem_of_here.
Qed.

Lemma firstOf_None (l : list (string * gmap string fval)) :
  JoinPage.firstOf l = None → l = [].
Proof. by destruct l. Qed.

(** X22: for a code parameter of units below 128, where [toUpperCase]
    and [trim] are those of JavaScript: the join page never writes to
    the store.  It reports a missing code exactly when the parameter
    gives none, reports that no room was found exactly when no room
    document carries the code, and otherwise goes to a room whose
    document carries the code, having saved that room with its name and
    code. *)
Theorem join_page_outcome (param : option string) (ls : LocalStorage) (w : World) :
  asciiOnly (default "" param) = true →
  snd (JoinPage.run param ls w) = w ∧
  match fst (JoinPage.run param ls w) with
  | Ok (JoinPage.Status msg) =>
      (msg = "Codice mancante." ∧ joinPageCode param = None) ∨
      (msg = "Nessuna room trovata con questo codice." ∧
       ∃ code, joinPageCode param = Some code ∧
         ∀ id d, docs (store w) !! ["rooms"; id] = Some d → d !! "joinCode" ≠ Some (FStr code))
  | Ok (JoinPage.Go rid ls') =>
      ∃ code d, joinPageCode param = Some code ∧
        docs (store w) !! ["rooms"; rid] = Some d ∧ d !! "joinCode" = Some (FStr code) ∧
        ls' = upsertRoom rid {[ "name" := toJson (d !! "name");
                                "joinCode" := Some (JStr code) ]} ls
  | Throw _ => False
  end.
Proof.
  intros _. unfold JoinPage.run. destruct (joinPageCode param) as [code|] eqn:Hcode.
  2:{ split; [reflexivity|]. left. by split. }
  run. destruct (JoinPage.firstOf (JoinPage.matchesOf code (store w))) as [[rid d]|] eqn:Hfirst.
  - split; [reflexivity|]. cbn [fst].
    apply firstOf_elem, matchesOf_elem in Hfirst as [Hdoc Hjc].
    exists code, d. rewrite Hjc. by repeat split.
  - split; [reflexivity|]. cbn [fst]. right. split; [reflexivity|]. exists code.
    split; [reflexivity|]. intros id d Hdoc Hjc.
    apply firstOf_None in Hfirst.
    assert (Hin : (id, d) ∈ JoinPage.matchesOf code (store w)) by by apply matchesOf_elem.
    rewrite Hfirst in Hin. by apply elem_of_nil in Hin.
Qed.

Lemma join_page_outcome_witness :
  JoinPage.run (Some "  ab23cd ") Scenes.device Sample.bobMic =
    (Ok (JoinPage.Go "r1"
           (upsertRoom "r1" {[ "name" := Some (JStr "Reparto");
                               "joinCode" := Some (JStr "AB23CD") ]} Scenes.device)),
     Sample.bobMic).
Proof.
  destruct (join_page_outcome (Some "  ab23cd ") Scenes.device Sample.bobMic) as [Hw Hout];
    [reflexivity|].
  destruct (JoinPage.run (Some "  ab23cd ") Scenes.device Sample.bobMic) as [[[msg|rid ls']|e] w'];
    cbn [fst snd] in Hw, Hout.
  - exfalso. destruct Hout as [[_ Hnone]|[_ (code & Hcode & Hno)]].
    + vm_compute in Hnone. discriminate Hnone.
    + vm_compute in Hcode. injection Hcode as <-.
      apply (Hno "r1" Sample.room1); reflexivity.
  - destruct Hout as (code & d & Hcode & Hdoc & Hjc & ->). subst w'.
    vm_compute in Hcode. injection Hcode as <-.
    assert (rid = "r1") as ->.
    { unfold Sample.bobMic, Sample.store1 in Hdoc. cbn [store docs] in Hdoc.
      apply lookup_singleton_Some in Hdoc as [Heq _]. by injection Heq. }
    assert (d = Sample.room1) as ->.
    { unfold Sample.bobMic, Sample.store1 in Hdoc. cbn [store docs] in Hdoc.
      by apply lookup_singleton_Some in Hdoc as [_ <-]. }
    reflexivity.
  - destruct Hout.
Defined.

(** Without a code parameter, or with one made only of white space,
    the join page reports the missing code and neither looks up nor
    saves anything. *)
Lemma join_page_blank_code (s : string) (ls : LocalStorage) (w : World) :
  allWhiteSpace s = true →
  JoinPage.run (Some s) ls w = (Ok (JoinPage.Status "Codice mancante."), w) ∧
  JoinPage.run None ls w = (Ok (JoinPage.Status "Codice mancante."), w).
Proof.
  intros Hs. unfold JoinPage.run. by rewrite (joinPageCode_blank s Hs).
Qed.

Lemma createRoom_runs (roomName : string) (g : Rng) (ls : LocalStorage) (w : World) (u : User) :
  currentUser w = Some u →
  createRoom roomName g ls w =
    (Ok (Some (mkCreated (autoId (nextId (store w))) (fst (randomCode 6 g)) (snd (randomCode 6 g))
                 (upsertRoom (autoId (nextId (store w)))
                    {[ "name" := Some (JStr (if bool_decide (trim roomName = "") then "Room"
                                             else trim roomName));
                       "joinCode" := Some (JStr (fst (randomCode 6 g))) ]} ls))),
     withStore (fun _ => snd (addDoc ["rooms"]
                  (newRoomDoc (if bool_decide (trim roomName = "") then "Room" else trim roomName)
                     (fst (randomCode 6 g)) (uid u)) (store w))) w).
Proof. intros Hu. unfold createRoom, addDocM. run. rewrite Hu. reflexivity. Qed.

Lemma newRoomDoc_resolved (now : nat) (name code adminUid : string) :
  resolve now (newRoomDoc name code adminUid) =
    {[ "name" := FStr name; "joinCode" := FStr code; "adminUid" := FStr adminUid;
       "createdAt" := FTime now ]}.
Proof.
  unfold resolve, newRoomDoc.
  rewrite !fmap_insert, map_fmap_singleton. reflexivity.
Qed.

(** X23: for a room name of units below 128, where [trim] is that of
    JavaScript, and an automatic id that is not in use: [createRoom] by
    a signed-in user adds one room document under that id, with the
    trimmed name (["Room"] when that is empty), a code of six characters
    of the alphabet, the user as administrator and the server time; no
    other document changes.  The room is saved on the device with its
    name and code, and six draws were taken. *)
Theorem createRoom_writes_room_and_saves_it (roomName : string) (g : Rng)
    (ls : LocalStorage) (w : World) (u : User) :
  asciiOnly roomName = true →
  docs (store w) !! ["rooms"; autoId (nextId (store w))] = None →
  currentUser w = Some u →
  (∀ k, (0 <= draws g k)%Q ∧ (draws g k < 1)%Q) →
  ∃ c name,
    createRoom roomName g ls w =
      (Ok (Some c),
       withStore (fun _ => snd (addDoc ["rooms"]
                    (newRoomDoc name (createdCode c) (uid u)) (store w))) w) ∧
    name = (if bool_decide (trim roomName = "") then "Room" else trim roomName) ∧
    createdId c = autoId (nextId (store w)) ∧
    String.length (createdCode c) = 6 ∧ allIn chars (createdCode c) = true ∧
    createdRng c = mkRng (draws g) (taken g + 6) ∧
    docs (store (snd (createRoom roomName g ls w))) !! ["rooms"; createdId c] =
      Some {[ "name" := FStr name; "joinCode" := FStr (createdCode c);
              "adminUid" := FStr (uid u); "createdAt" := FTime (clock (store w)) ]} ∧
    (∀ p, p ≠ ["rooms"; createdId c] →
       docs (store (snd (createRoom roomName g ls w))) !! p = docs (store w) !! p) ∧
    (readable ls = true → writable ls = true →
     ∃ r, r ∈ loadSavedRooms (createdStorage c) ∧
          r !! "id" = Some (JStr (createdId c)) ∧
          r !! "name" = Some (JStr name) ∧
          r !! "joinCode" = Some (JStr (createdCode c))).
Proof.
  intros _ _ Hu Hg. rewrite (createRoom_runs roomName g ls w u Hu).
  destruct (randomCodeLoop_spec 6 "" g Hg) as (Hlen & Hall & Hrng).
  fold (randomCode 6 g) in Hlen, Hall, Hrng.
  exists (mkCreated (autoId (nextId (store w))) (fst (randomCode 6 g)) (snd (randomCode 6 g))
            (upsertRoom (autoId (nextId (store w)))
               {[ "name" := Some (JStr (if bool_decide (trim roomName = "") then "Room"
                                        else trim roomName));
                  "joinCode" := Some (JStr (fst (randomCode 6 g))) ]} ls)),
    (if bool_decide (trim roomName = "") then "Room" else trim roomName).
  cbn [createdId createdCode createdRng createdStorage]. split; [reflexivity|].
  split; [reflexivity|]. split; [reflexivity|]. split; [exact Hlen|]. split; [exact Hall|].
  split; [exact Hrng|]. split; [|split].
  - cbn [snd]. unfold withStore, addDoc. cbn [store docs snd app].
    by rewrite lookup_insert_eq, newRoomDoc_resolved.
  - intros p Hp. cbn [snd]. unfold withStore, addDoc. cbn [store docs snd app].
    by rewrite lookup_insert_ne.
  - intros Hr Hw.
    destruct (upsertRoom_entry (autoId (nextId (store w)))
                {[ "name" := Some (JStr (if bool_decide (trim roomName = "") then "Room"
                                         else trim roomName));
                   "joinCode" := Some (JStr (fst (randomCode 6 g))) ]} ls Hr Hw)
      as (r & Hin & _ & Hfields).
    exists r. split; [exact Hin|].
    split; [|split]; apply Hfields; by simplify_map_eq.
Qed.

Lemma halves_in_range : ∀ k, (0 <= draws Sample.halves k)%Q ∧ (draws Sample.halves k < 1)%Q.
Proof. intros k. split; [discriminate | reflexivity]. Defined.

Lemma createRoom_writes_room_and_saves_it_witness :
  ∃ c, fst (createRoom "  Reparto " Sample.halves Scenes.device Sample.bobMic) = Ok (Some c) ∧
       String.length (createdCode c) = 6.
Proof.
  destruct (createRoom_writes_room_and_saves_it "  Reparto " Sample.halves Scenes.device
              Sample.bobMic Sample.bob) as (c & name & Hrun & _ & _ & Hlen & _);
    [reflexivity | vm_compute; reflexivity | reflexivity | exact halves_in_range |].
  exists c. split; [by rewrite Hrun | exact Hlen].
Defined.

(** Without a signed-in user [createRoom] does nothing: no document,
    no draw, nothing saved. *)
Lemma createRoom_signed_out (roomName : string) (g : Rng) (ls : LocalStorage) (w : World) :
  currentUser w = None → createRoom roomName g ls w = (Ok None, w).
Proof. intros Hu. unfold createRoom. run. by rewrite Hu. Qed.

(** X24: for a room name of units below 128 and an automatic id that is
    not in use: a room that was just created is found by the join page
    of any device from its code typed with any of its letters in lower
    case, between any runs of tab, line feed, vertical tab, form feed,
    carriage return and space, provided no other room carries the same
    code; the device then saves the room under the name and code of the
    document. *)
Theorem created_room_is_joinable (roomName : string) (g : Rng) (ls ls2 : LocalStorage)
    (w : World) (u : User) (l v r : string) :
  asciiOnly roomName = true →
  docs (store w) !! ["rooms"; autoId (nextId (store w))] = None →
  currentUser w = Some u →
  (∀ k, (0 <= draws g k)%Q ∧ (draws g k < 1)%Q) →
  (∀ id d, docs (store w) !! ["rooms"; id] = Some d →
           d !! "joinCode" ≠ Some (FStr (fst (randomCode 6 g)))) →
  allWhiteSpace l = true → allWhiteSpace r = true →
  caseVariant v (fst (randomCode 6 g)) = true →
  fst (JoinPage.run (Some (l +:+ v +:+ r)) ls2 (snd (createRoom roomName g ls w))) =
    Ok (JoinPage.Go (autoId (nextId (store w)))
          (upsertRoom (autoId (nextId (store w)))
             {[ "name" := Some (JStr (if bool_decide (trim roomName = "") then "Room"
                                      else trim roomName));
                "joinCode" := Some (JStr (fst (randomCode 6 g))) ]} ls2)).
Proof.
  intros _ _ Hu Hg Hfree Hl Hr Hv. rewrite (createRoom_runs roomName g ls w u Hu). cbn [snd].
  destruct (randomCodeLoop_spec 6 "" g Hg) as (Hlen & Hall & _).
  fold (randomCode 6 g) in Hlen, Hall.
  set (code := fst (randomCode 6 g)) in *.
  set (name := if bool_decide (trim roomName = "") then "Room" else trim roomName).
  assert (Hne : code ≠ "") by exact (nonempty_of_length code 5 Hlen).
  unfold JoinPage.run. rewrite (joinPageCode_padded l v r code Hall Hne Hl Hr Hv). run.
  set (st := store (withStore _ w)).
  assert (Hnew : docs st !! ["rooms"; autoId (nextId (store w))] =
            Some {[ "name" := FStr name; "joinCode" := FStr code;
                    "adminUid" := FStr (uid u); "createdAt" := FTime (clock (store w)) ]}).
  { unfold st, withStore, addDoc. cbn [store docs snd app].
    by rewrite lookup_insert_eq, newRoomDoc_resolved. }
  assert (Hold : ∀ p, p ≠ ["rooms"; autoId (nextId (store w))] →
            docs st !! p = docs (store w) !! p).
  { intros p Hp. unfold st, withStore, addDoc. cbn [store docs snd app].
    by rewrite lookup_insert_ne. }
  assert (Honly : ∀ id d, (id, d) ∈ JoinPage.matchesOf code st →
            id = autoId (nextId (store w)) ∧
            d = {[ "name" := FStr name; "joinCode" := FStr code;
                   "adminUid" := FStr (uid u); "createdAt" := FTime (clock (store w)) ]}).
  { intros id d [Hdoc Hjc]%matchesOf_elem.
    destruct (decide (id = autoId (nextId (store w)))) as [->|Hid].
    - rewrite Hnew in Hdoc. by injection Hdoc as <-.
    - rewrite Hold in Hdoc by congruence. by destruct (Hfree id d Hdoc). }
  destruct (JoinPage.firstOf (JoinPage.matchesOf code st)) as [[rid d]|] eqn:Hfirst.
  - apply firstOf_elem in Hfirst. destruct (Honly rid d Hfirst) as [-> ->].
    cbn [fst]. do 2 f_equal.
  - apply firstOf_None in Hfirst.
    assert (Hin : (autoId (nextId (store w)),
                   ({[ "name" := FStr name; "joinCode" := FStr code;
                       "adminUid" := FStr (uid u);
                       "createdAt" := FTime (clock (store w)) ]} : gmap string fval))
                  ∈ JoinPage.matchesOf code st).
    { apply matchesOf_elem. split; [exact Hnew|]. by simplify_map_eq. }
    rewrite Hfirst in Hin. by apply elem_of_nil in Hin.
Qed.

Lemma created_room_is_joinable_witness :
  ∃ ls', fst (JoinPage.run (Some "  ssSsSs ") Scenes.device
           (snd (createRoom "  Reparto " Sample.halves Scenes.device Sample.bobMic))) =
         Ok (JoinPage.Go (autoId 0) ls').
Proof.
  eexists.
  apply (created_room_is_joinable "  Reparto " Sample.halves Scenes.device Scenes.device
           Sample.bobMic Sample.bob "  " "ssSsSs" " ");
    [reflexivity | vm_compute; reflexivity | reflexivity | exact halves_in_range |
    | reflexivity | reflexivity | reflexivity].
  intros id d Hd Hcode. unfold Sample.bobMic, Sample.store1 in Hd. cbn [store docs] in Hd.
  apply lookup_singleton_Some in Hd as [_ <-].
  vm_compute in Hcode. discriminate Hcode.
Defined.

(* ===================================================================== *)
(** * Theme                                                                *)
(* ===================================================================== *)

(** X25: whatever the storage holds, the theme in use after mounting
    is ["light"] or ["dark"]: a saved value that is neither, or a storage
    that cannot be read, gives the preference of the system.  Toggling
    stays within the two themes and toggling twice gives the theme back. *)
Theorem theme_is_light_or_dark (prefersDark : bool) (ls : LocalStorage) (t : string) :
  (fst (Theme.mount prefersDark ls) = "light" ∨ fst (Theme.mount prefersDark ls) = "dark") ∧
  (readable ls = false ∨ (themeV1 ls ≠ Some "light" ∧ themeV1 ls ≠ Some "dark") →
   fst (Theme.mount prefersDark ls) = if prefersDark then "dark" else "light") ∧
  (Theme.toggleTheme t = "light" ∨ Theme.toggleTheme t = "dark") ∧
  (t = "light" ∨ t = "dark" → Theme.toggleTheme (Theme.toggleTheme t) = t).
Proof.
  unfold Theme.mount, Theme.initial, Theme.toggleTheme. cbn [fst].
  split; [|split; [|split]].
  - destruct (readable ls); [|destruct prefersDark; auto].
    destruct (themeV1 ls) as [s|]; [|destruct prefersDark; auto].
    case_bool_decide as Hl; [by left|]. case_bool_decide as Hd; [by right|].
    cbn [orb]. destruct prefersDark; auto.
  - intros [->|[Hl Hd]]; [reflexivity|].
    destruct (readable ls); [|reflexivity]. destruct (themeV1 ls) as [s|]; [|reflexivity].
    rewrite !bool_decide_eq_false_2 by congruence. reflexivity.
  - case_bool_decide; auto.
  - by intros [-> | ->].
Qed.

(** X26: a theme that was saved is the theme in use after a reload,
    whatever the preference of the system, and mounting leaves the
    storage as the save left it. *)
Theorem theme_survives_reload (prefersDark : bool) (ls : LocalStorage) (t : string) :
  readable ls = true → writable ls = true → t = "light" ∨ t = "dark" →
  Theme.mount prefersDark (Theme.persist t ls) = (t, Theme.persist t ls) ∧
  Theme.mount prefersDark (Theme.persist (Theme.toggleTheme t) ls) =
    (Theme.toggleTheme t, Theme.persist (Theme.toggleTheme t) ls).
Proof.
  intros Hr Hw Ht.
  assert (Hmount : ∀ t', t' = "light" ∨ t' = "dark" →
            Theme.mount prefersDark (Theme.persist t' ls) = (t', Theme.persist t' ls)).
  { intros t' Ht'. unfold Theme.mount, Theme.initial, Theme.persist, withThemeV1.
    rewrite Hw. cbn [readable writable themeV1 rooms themeOld]. rewrite Hr.
    by destruct Ht' as [-> | ->]. }
  split; [by apply Hmount|]. apply Hmount.
  unfold Theme.toggleTheme. case_bool_decide; auto.
Qed.

Lemma theme_survives_reload_witness :
  Theme.mount false (Theme.persist "dark" Scenes.device) =
    ("dark", Theme.persist "dark" Scenes.device).
Proof.
  destruct (theme_survives_reload false Scenes.device "dark") as (Hmount & _);
    [reflexivity | reflexivity | right; reflexivity |].
  exact Hmount.
Defined.

(** X27: the older providers keep the theme under another item: what
    they save is what they read back after a reload, anything saved
    other than ["dark"] reads as ["light"], and the item of the newer
    providers is never touched. *)
Theorem older_theme_round_trip (ls : LocalStorage) (theme : string) :
  readable ls = true → writable ls = true →
  Theme.initialOld (snd (Theme.toggleThemeOld theme ls)) = fst (Theme.toggleThemeOld theme ls) ∧
  (fst (Theme.toggleThemeOld theme ls) = "dark" ↔ theme ≠ "dark") ∧
  (∀ t, t ≠ "dark" → Theme.initialOld (snd (Theme.setThemeOld t ls)) = "light") ∧
  (∀ t prefersDark, Theme.initial prefersDark (snd (Theme.setThemeOld t ls)) =
                    Theme.initial prefersDark ls).
Proof.
  intros Hr Hw. unfold Theme.toggleThemeOld, Theme.setThemeOld, Theme.initialOld, Theme.initial,
    withThemeOld. rewrite Hw. cbn [fst snd readable themeOld themeV1]. rewrite Hr. cbn [negb].
  split; [|split; [|split]].
  - repeat case_bool_decide; congruence.
  - case_bool_decide; split; intros; congruence.
  - intros t Ht. rewrite bool_decide_eq_false_2; [reflexivity|]. congruence.
  - reflexivity.
Qed.

Lemma older_theme_round_trip_witness :
  Theme.initialOld (snd (Theme.toggleThemeOld "light" Scenes.device)) = "dark".
Proof.
  destruct (older_theme_round_trip Scenes.device "light") as (Hround & _);
    [reflexivity | reflexivity |].
  exact Hround.
Defined.

(* ===================================================================== *)
(** * The calendar page                                                    *)
(* ===================================================================== *)

Import Calendar.

(** [createEvent] writes nothing and keeps the form when nobody is
    signed in, or when the title or the date is blank; it says which. *)
Lemma createEvent_refuses (f : Form) (w : World) :
  user (ui w) = None ∨ trim (title f) = "" ∨ trim (date f) = "" →
  ∃ msg, createEvent f w = (Ok (f, Some msg), w) ∧
    (user (ui w) = None → msg = "Devi fare login per creare eventi.") ∧
    (user (ui w) ≠ None → msg = "Titolo e data sono obbligatori.").
Proof.
  intros H. unfold createEvent. run. destruct (user (ui w)) as [u|] eqn:Hu.
  - destruct H as [H|H]; [discriminate|].
    assert (Hb : bool_decide (trim (title f) = "") || bool_decide (trim (date f) = "") = true).
    { apply orb_true_iff. destruct H as [H|H]; [left|right]; by apply bool_decide_eq_true. }
    rewrite Hb. eexists. split; [reflexivity|]. by split.
  - eexists. split; [reflexivity|]. by split.
Qed.

(** X28: for a form whose fields have units below 128 only, where
    [trim] is that of JavaScript, and an automatic id that is not in
    use: with a user and a title and date that are not blank,
    [createEvent] adds one event under that id, holding the four fields
    trimmed, the user and the server time, changes no other document and
    empties the form. *)
Theorem createEvent_adds_trimmed_event (f : Form) (w : World) (u : User) :
  asciiOnly (title f) = true → asciiOnly (place f) = true →
  asciiOnly (date f) = true → asciiOnly (description f) = true →
  docs (store w) !! eventRef (autoId (nextId (store w))) = None →
  user (ui w) = Some u → trim (title f) ≠ "" → trim (date f) ≠ "" →
  fst (createEvent f w) = Ok (mkForm "" "" "" "", None) ∧
  docs (store (snd (createEvent f w))) !! eventRef (autoId (nextId (store w))) =
    Some {[ "title" := FStr (trim (title f));
            "place" := FStr (trim (place f));
            "date" := FStr (trim (date f));
            "description" := FStr (trim (description f));
            "createdAt" := FTime (clock (store w));
            "createdBy" := FStr (uid u) ]} ∧
  (∀ p, p ≠ eventRef (autoId (nextId (store w))) →
     docs (store (snd (createEvent f w))) !! p = docs (store w) !! p) ∧
  nextId (store (snd (createEvent f w))) = S (nextId (store w)) ∧
  ui (snd (createEvent f w)) = ui w.
Proof.
  intros _ _ _ _ _ Hu Ht Hd. unfold createEvent, addDocM. run. rewrite Hu.
  rewrite !bool_decide_eq_false_2 by done. cbn [orb fst snd].
  unfold withStore, addDoc, eventRef. cbn [store docs snd fst app nextId ui].
  split; [reflexivity|]. split; [|split; [|by split]].
  - rewrite lookup_insert_eq. unfold resolve.
    by rewrite !fmap_insert, map_fmap_singleton.
  - intros p Hp. by rewrite lookup_insert_ne.
Qed.

Lemma createEvent_adds_trimmed_event_witness :
  fst (createEvent Scenes.form Sample.bobMic) = Ok (mkForm "" "" "" "", None) ∧
  docs (store (snd (createEvent Scenes.form Sample.bobMic))) !! eventRef (autoId 0) =
    Some {[ "title" := FStr "Uscita al lago";
            "place" := FStr "Lago";
            "date" := FStr "2026-06-01T09:00";
            "description" := FStr "";
            "createdAt" := FTime 0;
            "createdBy" := FStr "bob" ]}.
Proof.
  destruct (createEvent_adds_trimmed_event Scenes.form Sample.bobMic Sample.bob)
    as (Hok & Hdoc & _);
    [reflexivity | reflexivity | reflexivity | reflexivity | vm_compute; reflexivity
    | reflexivity | by vm_compute | by vm_compute |].
  split; [exact Hok | exact Hdoc].
Defined.

(** X29: [removeEvent] deletes the event and nothing else once a user
    has confirmed; without a user or without the confirmation it leaves
    the world as it is. *)
Theorem removeEvent_deletes_on_confirmation (id : string) (confirmed : bool) (w : World) :
  (user (ui w) = None ∨ confirmed = false → removeEvent id confirmed w = (Ok tt, w)) ∧
  (user (ui w) ≠ None → confirmed = true →
     fst (removeEvent id confirmed w) = Ok tt ∧
     docs (store (snd (removeEvent id confirmed w))) !! eventRef id = None ∧
     (∀ p, p ≠ eventRef id →
        docs (store (snd (removeEvent id confirmed w))) !! p = docs (store w) !! p) ∧
     ui (snd (removeEvent id confirmed w)) = ui w).
Proof.
  unfold removeEvent, deleteDocM. run. split.
  - intros [-> | ->]; [reflexivity|]. by destruct (user (ui w)).
  - intros Hu ->. destruct (user (ui w)) as [u|]; [|done].
    unfold withStore, deleteDoc. cbn [fst snd store docs ui].
    split; [reflexivity|]. split; [apply lookup_delete_eq|]. split; [|reflexivity].
    intros p Hp. by rewrite lookup_delete_ne.
Qed.

(** X30: removing the event that was just created gives back the
    documents there were before, when the new id was not in use. *)
Theorem created_event_can_be_removed (f : Form) (w : World) (u : User) :
  user (ui w) = Some u → trim (title f) ≠ "" → trim (date f) ≠ "" →
  docs (store w) !! eventRef (autoId (nextId (store w))) = None →
  docs (store (snd (removeEvent (autoId (nextId (store w))) true (snd (createEvent f w))))) =
    docs (store w).
Proof.
  intros Hu Ht Hd Hfree. unfold removeEvent, deleteDocM, createEvent, addDocM. run. rewrite Hu.
  rewrite !bool_decide_eq_false_2 by done. cbn [orb fst snd].
  unfold withStore, addDoc, deleteDoc, eventRef in *.
  cbn [store docs snd fst app nextId ui]. rewrite Hu.
  cbn [store docs snd fst app nextId ui].
  rewrite delete_insert_eq. by apply delete_id.
Qed.

Lemma created_event_can_be_removed_witness :
  docs (store (snd (removeEvent (autoId 0) true (snd (createEvent Scenes.form Sample.bobMic))))) =
    docs Sample.store1.
Proof.
  apply (created_event_can_be_removed Scenes.form Sample.bobMic Sample.bob);
    [reflexivity | by vm_compute | by vm_compute | reflexivity].
Defined.

(** The list of events shows every document of the snapshot in its
    order, with the empty text for a title or description that is
    missing or falsy. *)
Lemma onEventsSnapshot_defaults (l : list (string * gmap string fval)) :
  evId <$> onEventsSnapshot l = fst <$> l ∧
  ∀ e, e ∈ onEventsSnapshot l →
    ∃ d, d ∈ l ∧ evId e = fst d ∧
      evTitle e = (if truthy (snd d !! "title") then default (FStr "") (snd d !! "title")
                   else FStr "") ∧
      evDescription e =
        (if truthy (snd d !! "description") then default (FStr "") (snd d !! "description")
         else FStr "") ∧
      evCreatedBy e = snd d !! "createdBy".
Proof.
  unfold onEventsSnapshot. split.
  - rewrite <- list_fmap_compose. reflexivity.
  - intros e [d [-> Hd]]%list_elem_of_fmap. exists d. split; [exact Hd|].
    unfold eventOf, orEmpty. cbn [evId evTitle evDescription evCreatedBy].
    split; [reflexivity|]. split; [|split; [|reflexivity]].
    + by destruct (snd d !! "title") as [[]|].
    + by destruct (snd d !! "description") as [[]|].
Qed.
